(** * Power flow with reactive limit enforcement (pandapower/pf/runpf_pypower.py)

    A shallow embedding of [runpf_pypower.py]: the top-level run
    [_runpf_pypower], the option extraction [_get_options], the admittance
    fetch [_get_Y_bus], one power flow [_run_ac_pf_without_qlims_enforced],
    the Q-limit loop [_run_ac_pf_with_qlims_enforced] and the solver
    dispatch [_call_power_flow_function].

    The numerical collaborators the module imports (makeYbus, makeSbus,
    makeB, fdpf, gausspf, pfsoln, bustypes, _run_dc_pf, ...) are not part
    of the file; they are the fields of the record [Externals] and every
    result below holds for all of them unless a hypothesis says otherwise.

    Numbers are kept abstract (class [Number]): the control flow never
    depends on the arithmetic, and the two instances used below are exact
    integers ([Z]) and IEEE binary64 ([float], what numpy computes with). *)

From Stdlib Require Import ZArith Lia PrimFloat.
From stdpp Require Import base list strings.

Set Default Proof Using "Type".

(** ** Numbers *)

(** The operations the module applies to array entries: [-] and [+] on
    demands and outputs, [>] and [<] on reactive outputs and bounds, and
    the factor [1e-3] of [PF_TOL]. *)
Class Number (num : Type) := {
  zero : num;
  add : num -> num -> num;
  sub : num -> num -> num;
  gtb : num -> num -> bool;
  ltb : num -> num -> bool;
  milli : num -> num
}.

#[global] Instance Number_Z : Number Z := {|
  zero := 0%Z;
  add := Z.add;
  sub := Z.sub;
  gtb := Z.gtb;
  ltb := Z.ltb;
  milli := fun x => (x / 1000)%Z
|}.

#[global] Instance Number_float : Number float := {|
  zero := PrimFloat.zero;
  add := PrimFloat.add;
  sub := PrimFloat.sub;
  gtb := fun x y => PrimFloat.ltb y x;
  ltb := PrimFloat.ltb;
  milli := fun x => PrimFloat.mul x 0x1.0624dd2f1a9fcp-10%float
|}.

(** ** Data model *)

(** The bus type codes of [pandapower.idx_bus]. *)
Inductive BusType := PQ | PV | REF | NONE.

#[global] Instance BusType_eq_dec : EqDecision BusType.
Proof. solve_decision. Defined.

(** A row of the [bus] array, with the columns the module names. *)
Record BusRow (num : Type) := mkBus {
  BUS_TYPE : BusType;
  PD : num;
  QD : num;
  VM : num;
  VA : num
}.
Arguments mkBus {num}.
Arguments BUS_TYPE {num}.
Arguments PD {num}.
Arguments QD {num}.
Arguments VM {num}.
Arguments VA {num}.

(** A row of the [gen] array. [GEN_BUS] is the bus index after
    [.astype(int)]; [GEN_STATUS] holds the flag the module writes as 0 and 1
    and tests with [> 0]. *)
Record GenRow (num : Type) := mkGen {
  GEN_BUS : nat;
  PG : num;
  QG : num;
  QMAX : num;
  QMIN : num;
  GEN_STATUS : Z;
  VG : num
}.
Arguments mkGen {num}.
Arguments GEN_BUS {num}.
Arguments PG {num}.
Arguments QG {num}.
Arguments QMAX {num}.
Arguments QMIN {num}.
Arguments GEN_STATUS {num}.
Arguments VG {num}.

(** [ppci["internal"]]: the stored admittance matrices. *)
Record Internal (Matrix : Type) := mkInternal {
  Ybus : Matrix;
  Yf : Matrix;
  Yt : Matrix
}.
Arguments mkInternal {Matrix}.
Arguments Ybus {Matrix}.
Arguments Yf {Matrix}.
Arguments Yt {Matrix}.

(** The case dictionary [ppci]. Its arrays are shared: the names [bus],
    [gen] and [branch] of the Python functions are references to these
    fields, so the model reads and writes them here. *)
Record Ppci (num Branch Matrix : Type) := mkPpci {
  baseMVA : num;
  bus : list (BusRow num);
  gen : list (GenRow num);
  branch : Branch;
  internal : Internal Matrix
}.
Arguments mkPpci {num Branch Matrix}.
Arguments baseMVA {num Branch Matrix}.
Arguments bus {num Branch Matrix}.
Arguments gen {num Branch Matrix}.
Arguments branch {num Branch Matrix}.
Arguments internal {num Branch Matrix}.

(** [recycle]: the module only reads [recycle["Ybus"]]. *)
Record Recycle := mkRecycle { recycle_Ybus : bool }.

(** The [options] dictionary read by [_get_options]. *)
Record Options (num : Type) := mkOptions {
  init_va_degree : string;
  ac : bool;
  recycle : Recycle;
  numba : bool;
  enforce_q_lims : Z;
  tolerance_kva : num;
  algorithm : string;
  max_iteration : Z
}.
Arguments mkOptions {num}.
Arguments init_va_degree {num}.
Arguments ac {num}.
Arguments recycle {num}.
Arguments numba {num}.
Arguments enforce_q_lims {num}.
Arguments tolerance_kva {num}.
Arguments algorithm {num}.
Arguments max_iteration {num}.

(** The PYPOWER options [ppopt], with the entries [_get_options] sets. *)
Record Ppopt (num : Type) := mkPpopt {
  ENFORCE_Q_LIMS : Z;
  PF_TOL : num;
  PF_ALG : Z;
  PF_MAX_IT : Z;
  PF_MAX_IT_GS : Z;
  PF_MAX_IT_FD : Z;
  VERBOSE : Z
}.
Arguments mkPpopt {num}.
Arguments ENFORCE_Q_LIMS {num}.
Arguments PF_TOL {num}.
Arguments PF_ALG {num}.
Arguments PF_MAX_IT {num}.
Arguments PF_MAX_IT_GS {num}.
Arguments PF_MAX_IT_FD {num}.
Arguments VERBOSE {num}.

(** What the import of numba finds, in the environments in which lines
    104-110 run through: nothing ([ImportError], which line 112 catches), or
    a version whose first four characters read as a number, which is too
    old ([nb_version < 0.25]) or not. An environment in which the reading
    of the version itself fails is not among them. *)
Inductive NumbaEnv := NumbaMissing | NumbaVersion (too_old : bool).

(** The collaborators the module imports. Each is a function of its
    arguments: the model follows the runs in which the collaborators
    return. An exception raised inside one of them would leave the module
    at the place of the call; it is not represented, and the results below
    say nothing about it. *)
Record Externals (num Branch Matrix Vec : Type) := mkExternals {
  mat_size : Matrix -> nat;
  numba_env : NumbaEnv;
  makeYbus_numba : num -> list (BusRow num) -> Branch -> Matrix * Matrix * Matrix;
  makeYbus_pypower : num -> list (BusRow num) -> Branch -> Matrix * Matrix * Matrix;
  makeSbus : num -> list (BusRow num) -> list (GenRow num) -> Vec;
  real : Branch -> Branch;
  makeB : num -> list (BusRow num) -> Branch -> Z -> Matrix * Matrix;
  fdpf : Matrix -> Vec -> Vec -> Matrix -> Matrix ->
         list nat -> list nat -> list nat -> Ppopt num -> Vec * bool;
  gausspf : Matrix -> Vec -> Vec ->
            list nat -> list nat -> list nat -> Ppopt num -> Vec * bool;
  pfsoln : num -> list (BusRow num) -> list (GenRow num) -> Branch ->
           Matrix -> Matrix -> Matrix -> Vec -> list nat ->
           list (BusRow num) * list (GenRow num) * Branch;
  bustypes : list (BusRow num) -> list (GenRow num) ->
             list nat * list nat * list nat;
  initial_voltage : list (BusRow num) -> list (GenRow num) -> Vec;
  _run_dc_pf : Ppci num Branch Matrix -> Ppci num Branch Matrix;
  _store_results_from_pf_in_ppci :
    Ppci num Branch Matrix -> list (BusRow num) -> list (GenRow num) ->
    Branch -> bool -> num -> Ppci num Branch Matrix
}.
Arguments mkExternals {num Branch Matrix Vec}.
Arguments mat_size {num Branch Matrix Vec}.
Arguments numba_env {num Branch Matrix Vec}.
Arguments makeYbus_numba {num Branch Matrix Vec}.
Arguments makeYbus_pypower {num Branch Matrix Vec}.
Arguments makeSbus {num Branch Matrix Vec}.
Arguments real {num Branch Matrix Vec}.
Arguments makeB {num Branch Matrix Vec}.
Arguments fdpf {num Branch Matrix Vec}.
Arguments gausspf {num Branch Matrix Vec}.
Arguments pfsoln {num Branch Matrix Vec}.
Arguments bustypes {num Branch Matrix Vec}.
Arguments initial_voltage {num Branch Matrix Vec}.
Arguments _run_dc_pf {num Branch Matrix Vec}.
Arguments _store_results_from_pf_in_ppci {num Branch Matrix Vec}.

(** ** Effects *)

(** The exceptions the module raises or lets through. *)
Inductive exn :=
  | ValueError_algorithm
  | ValueError_multiple_slacks
  | ValueError_argmax
  | IndexError
  | KeyError
  | UnboundLocalError.

(** The calls to collaborators that a run makes, in order. *)
Inductive Call :=
  | call_run_dc_pf
  | call_makeYbus
  | call_makeB
  | call_fdpf
  | call_gausspf
  | call_pfsoln
  | call_store_results.

#[global] Instance Call_eq_dec : EqDecision Call.
Proof. solve_decision. Defined.

(** How a computation ends: a value, an exception, or the fuel of the
    [while True] loop used up. *)
Inductive outcome (A : Type) :=
  | Ret (a : A)
  | Raise (e : exn)
  | OutOfFuel.
Arguments Ret {A}.
Arguments Raise {A}.
Arguments OutOfFuel {A}.

(** The state a run works on: the case [ppci], the record of the calls
    made so far (oldest first) and the readings the clock will give. *)
Record World (num Branch Matrix : Type) := mkWorld {
  w_ppci : Ppci num Branch Matrix;
  w_calls : list Call;
  w_clock : list num
}.
Arguments mkWorld {num Branch Matrix}.
Arguments w_ppci {num Branch Matrix}.
Arguments w_calls {num Branch Matrix}.
Arguments w_clock {num Branch Matrix}.

Definition M (W A : Type) : Type := W -> outcome A * W.

Definition ret {W A} (a : A) : M W A := fun w => (Ret a, w).

Definition raise {W A} (e : exn) : M W A := fun w => (Raise e, w).

Definition out_of_fuel {W A} : M W A := fun w => (OutOfFuel, w).

Definition bind {W A B} (m : M W A) (k : A -> M W B) : M W B :=
  fun w =>
    match m w with
    | (Ret a, w') => k a w'
    | (Raise e, w') => (Raise e, w')
    | (OutOfFuel, w') => (OutOfFuel, w')
    end.

Definition lift {W A} (o : outcome A) : M W A := fun w => (o, w).

Declare Scope pf_scope.
Delimit Scope pf_scope with pf.
Notation "'let*' x ':=' c1 'in' c2" := (bind c1 (fun x => c2))
  (at level 10, x pattern, c1 at level 100, c2 at level 200) : pf_scope.
Notation "c1 ;; c2" := (bind c1 (fun _ => c2))
  (at level 100, right associativity) : pf_scope.
Open Scope pf_scope.

(** [for i in l: body] *)
Fixpoint for_each {W A} (l : list A) (body : A -> M W unit) : M W unit :=
  match l with
  | [] => ret tt
  | x :: l' => body x ;; for_each l' body
  end.

(** ** Arrays *)

(** [l[i]]: an [IndexError] out of range. *)
Definition index {A} (l : list A) (i : nat) : outcome A :=
  match l !! i with
  | Some x => Ret x
  | None => Raise IndexError
  end.

(** [l[idx]] for a list of indices. *)
Fixpoint rows {A} (l : list A) (idx : list nat) : outcome (list A) :=
  match idx with
  | [] => Ret []
  | i :: idx' =>
      match l !! i with
      | None => Raise IndexError
      | Some x =>
          match rows l idx' with
          | Ret r => Ret (x :: r)
          | o => o
          end
      end
  end.

(** [l[idx, col] = vals]: the entries are written in the order of [idx]
    (a later duplicate wins); an index out of range raises before anything
    is written. *)
Definition assign {A B} (set : A -> B -> A) (idx : list nat) (vals : list B)
    (l : list A) : outcome (list A) :=
  if forallb (fun i => i <? length l) idx
  then Ret (foldl (fun acc iv => alter (fun a => set a iv.2) iv.1 acc) l (zip idx vals))
  else Raise IndexError.

(** numpy's [flatnonzero]. *)
Fixpoint find_from (i : nat) (l : list bool) : list nat :=
  match l with
  | [] => []
  | b :: l' => (if b then [i] else []) ++ find_from (S i) l'
  end.

Definition find (l : list bool) : list nat := find_from 0 l.

(** Column setters of the two arrays. *)
Definition set_QG {num} (g : GenRow num) (q : num) : GenRow num :=
  mkGen (GEN_BUS g) (PG g) q (QMAX g) (QMIN g) (GEN_STATUS g) (VG g).

Definition set_GEN_STATUS {num} (g : GenRow num) (s : Z) : GenRow num :=
  mkGen (GEN_BUS g) (PG g) (QG g) (QMAX g) (QMIN g) s (VG g).

Definition set_PD_QD {num} (b : BusRow num) (pq : num * num) : BusRow num :=
  mkBus (BUS_TYPE b) pq.1 pq.2 (VM b) (VA b).

Definition set_BUS_TYPE {num} (b : BusRow num) (t : BusType) : BusRow num :=
  mkBus t (PD b) (QD b) (VM b) (VA b).

(** The local variables of the Q-limit loop. *)
Record LoopVars (num : Type) := mkLoopVars {
  limited : list nat;
  fixedQg : list num;
  ref : list nat;
  pv : list nat;
  pq : list nat
}.
Arguments mkLoopVars {num}.
Arguments limited {num}.
Arguments fixedQg {num}.
Arguments ref {num}.
Arguments pv {num}.
Arguments pq {num}.

(** ** The module *)

Section Program.
Context {num : Type} {N : Number num} {Branch Matrix Vec : Type}.
Variable ext : Externals num Branch Matrix Vec.

Abbreviation world := (World num Branch Matrix).
Abbreviation ppci_t := (Ppci num Branch Matrix).
Abbreviation makeYbus_t :=
  (num -> list (BusRow num) -> Branch -> Matrix * Matrix * Matrix).

(** *** Access to the shared case *)

Definition get_ppci : M world ppci_t := fun w => (Ret (w_ppci w), w).

Definition set_ppci (p : ppci_t) : M world unit :=
  fun w => (Ret tt, mkWorld p (w_calls w) (w_clock w)).

Definition get_bus : M world (list (BusRow num)) :=
  fun w => (Ret (bus (w_ppci w)), w).

Definition get_gen : M world (list (GenRow num)) :=
  fun w => (Ret (gen (w_ppci w)), w).

Definition set_bus (b : list (BusRow num)) : M world unit :=
  fun w =>
    let p := w_ppci w in
    (Ret tt, mkWorld (mkPpci (baseMVA p) b (gen p) (branch p) (internal p))
                     (w_calls w) (w_clock w)).

Definition set_gen (g : list (GenRow num)) : M world unit :=
  fun w =>
    let p := w_ppci w in
    (Ret tt, mkWorld (mkPpci (baseMVA p) (bus p) g (branch p) (internal p))
                     (w_calls w) (w_clock w)).

Definition set_branch (br : Branch) : M world unit :=
  fun w =>
    let p := w_ppci w in
    (Ret tt, mkWorld (mkPpci (baseMVA p) (bus p) (gen p) br (internal p))
                     (w_calls w) (w_clock w)).

Definition set_internal (i : Internal Matrix) : M world unit :=
  fun w =>
    let p := w_ppci w in
    (Ret tt, mkWorld (mkPpci (baseMVA p) (bus p) (gen p) (branch p) i)
                     (w_calls w) (w_clock w)).

(** A call to a collaborator is recorded. *)
Definition called (c : Call) : M world unit :=
  fun w => (Ret tt, mkWorld (w_ppci w) (w_calls w ++ [c]) (w_clock w)).

(** [time()]: the next reading of the clock. *)
Definition time : M world num :=
  fun w =>
    match w_clock w with
    | [] => (Ret zero, w)
    | t :: ts => (Ret t, mkWorld (w_ppci w) (w_calls w) ts)
    end.

(** *** [_get_options] *)

(** [algorithm_pypower_dict[algorithm]]: a [KeyError] for a name that is
    not a key. *)
Definition algorithm_pypower_dict (algorithm : string) : outcome Z :=
  if decide (algorithm = "nr"%string) then Ret 1%Z
  else if decide (algorithm = "fdbx"%string) then Ret 2%Z
  else if decide (algorithm = "fdxb"%string) then Ret 3%Z
  else if decide (algorithm = "gs"%string) then Ret 4%Z
  else Raise KeyError.

Definition _get_options (options : Options num)
  : outcome (string * bool * bool * Recycle * Ppopt num) :=
  let init_va_degree := init_va_degree options in
  let ac := ac options in
  let recycle := recycle options in
  let numba := numba options in
  let enforce_q_lims := enforce_q_lims options in
  let tolerance_kva := tolerance_kva options in
  let algorithm := algorithm options in
  let max_iteration := max_iteration options in
  match algorithm_pypower_dict algorithm with
  | Ret alg =>
      let ppopt := mkPpopt enforce_q_lims (milli tolerance_kva) alg
                     max_iteration max_iteration max_iteration 0%Z in
      Ret (init_va_degree, ac, numba, recycle, ppopt)
  | Raise e => Raise e
  | OutOfFuel => OutOfFuel
  end.

(** *** [_import_numba_extensions_if_flag_is_true] *)

Definition _import_numba_extensions_if_flag_is_true (numba : bool)
  : bool * makeYbus_t :=
  let numba :=
    if numba then
      match numba_env ext with
      | NumbaVersion too_old => if too_old then false else numba
      | NumbaMissing => false
      end
    else numba in
  if numba then (numba, makeYbus_numba ext) else (numba, makeYbus_pypower ext).

(** *** [_get_Y_bus] *)

Definition _get_Y_bus (recycle : Recycle) (makeYbus : makeYbus_t)
    (baseMVA : num) (bus : list (BusRow num)) (branch : Branch)
  : M world (Matrix * Matrix * Matrix) :=
  let* ppci := get_ppci in
  if recycle_Ybus recycle && negb (mat_size ext (Ybus (internal ppci)) =? 0)
  then ret (Ybus (internal ppci), Yf (internal ppci), Yt (internal ppci))
  else
    called call_makeYbus ;;
    let Y := makeYbus baseMVA bus branch in
    (if recycle_Ybus recycle
     then set_internal (mkInternal Y.1.1 Y.1.2 Y.2)
     else ret tt) ;;
    ret Y.

(** *** [_call_power_flow_function] *)

Definition _call_power_flow_function (baseMVA : num) (bus : list (BusRow num))
    (branch : Branch) (Ybus : Matrix) (Sbus V0 : Vec) (ref pv pq : list nat)
    (ppopt : Ppopt num) : M world (Vec * bool) :=
  let alg := PF_ALG ppopt in
  if (alg =? 2)%Z || (alg =? 3)%Z then
    called call_makeB ;;
    let B := makeB ext baseMVA bus (real ext branch) alg in
    called call_fdpf ;;
    ret (fdpf ext Ybus Sbus V0 B.1 B.2 ref pv pq ppopt)
  else if (alg =? 4)%Z then
    called call_gausspf ;;
    ret (gausspf ext Ybus Sbus V0 ref pv pq ppopt)
  else raise ValueError_algorithm.

(** *** [_get_pf_variables_from_ppci] *)

(** Modelled from the spec: [_get_pf_variables_from_ppci] lives in
    [pandapower.pf.ppci_variables], which is not among the sources. By
    sections 3 and 4.3 of the specification it hands out the network of
    [ppci] by reference, the current ref/pv/pq partition and the initial
    voltage guess; the arrays stay in [ppci], the rest is returned. *)
Definition _get_pf_variables_from_ppci
  : M world (num * list nat * list nat * list nat * Vec) :=
  let* ppci := get_ppci in
  let t := bustypes ext (bus ppci) (gen ppci) in
  ret (baseMVA ppci, t.1.1, t.1.2, t.2, initial_voltage ext (bus ppci) (gen ppci)).

(** *** [_run_ac_pf_without_qlims_enforced] *)

Definition _run_ac_pf_without_qlims_enforced (recycle : Recycle)
    (makeYbus : makeYbus_t) (ppopt : Ppopt num) : M world bool :=
  let* (baseMVA, ref, pv, pq, V0) := _get_pf_variables_from_ppci in
  let* bus := get_bus in
  let* gen := get_gen in
  let* ppci := get_ppci in
  let branch := branch ppci in
  let* Y := _get_Y_bus recycle makeYbus baseMVA bus branch in
  let Sbus := makeSbus ext baseMVA bus gen in
  let* (V, success) :=
    _call_power_flow_function baseMVA bus branch Y.1.1 Sbus V0 ref pv pq ppopt in
  called call_pfsoln ;;
  let r := pfsoln ext baseMVA bus gen branch Y.1.1 Y.1.2 Y.2 V ref in
  set_bus r.1.1 ;;
  set_gen r.1.2 ;;
  set_branch r.2 ;;
  ret success.

(** *** [_run_ac_pf_with_qlims_enforced] *)

(** numpy's [argmax]: the first position of the largest entry; a
    [ValueError] on an empty array. *)
Fixpoint argmax_from (best : num) (ibest i : nat) (l : list num) : nat :=
  match l with
  | [] => ibest
  | x :: l' =>
      if gtb x best then argmax_from x i (S i) l'
      else argmax_from best ibest (S i) l'
  end.

Definition argmax (l : list num) : outcome nat :=
  match l with
  | [] => Raise ValueError_argmax
  | x :: l' => Ret (argmax_from x 0 1 l')
  end.

(** Lines 165-170: the in-service generators above [QMAX] and below
    [QMIN]. *)
Definition violations (gen : list (GenRow num)) : list nat * list nat :=
  let gen_status := map (fun g => (0 <? GEN_STATUS g)%Z) gen in
  let qg_max_lim := map (fun g => gtb (QG g) (QMAX g)) gen in
  let qg_min_lim := map (fun g => ltb (QG g) (QMIN g)) gen in
  let mx := find (zip_with andb gen_status qg_max_lim) in
  let mn := find (zip_with andb gen_status qg_min_lim) in
  (mx, mn).

(** Lines 179-187, [qlim == 2]: fix the largest violation, ignore the
    rest. The scalar that [mx] or [mn] becomes is kept as a list of one
    index, which is what [r_] makes of it on line 192. *)
Definition fix_largest (gen : list (GenRow num)) (mx mn : list nat)
  : M world (list nat * list nat) :=
  let* gmx := lift (rows gen mx) in
  let* gmn := lift (rows gen mn) in
  let* k := lift (argmax (map (fun g => sub (QG g) (QMAX g)) gmx ++
                          map (fun g => sub (QMIN g) (QG g)) gmn)) in
  if length mx <? k then
    let* i := lift (index mn (k - length mx)) in
    ret ([], [i])
  else
    let* i := lift (index mx k) in
    ret ([i], []).

(** Lines 197-199, the body of [for i in mx]. *)
Definition turn_off (i : nat) : M world unit :=
  let* gen := get_gen in
  let* g := lift (index gen i) in
  set_gen (<[i := set_GEN_STATUS g 0%Z]> gen) ;;
  let bi := GEN_BUS g in
  let* bus := get_bus in
  let* b := lift (index bus bi) in
  set_bus (<[bi := set_PD_QD b (sub (PD b) (PG g), sub (QD b) (QG g))]> bus).

(** Lines 190-191: the limit each selected generator is held at. *)
Definition save_limits (fixedQg : list num) (mx mn : list nat)
  : M world (list num) :=
  let* gen := get_gen in
  let* qmax := lift (rows (map QMAX gen) mx) in
  let* fixedQg := lift (assign (fun _ v => v) mx qmax fixedQg) in
  let* qmin := lift (rows (map QMIN gen) mn) in
  lift (assign (fun _ v => v) mn qmin fixedQg).

(** Lines 195-199: [Qg] is set to the limit, the generators are turned
    off one at a time and their output is taken from the bus demand. *)
Definition take_out_of_service (fixedQg : list num) (mx : list nat)
  : M world unit :=
  let* gen := get_gen in
  let* fq := lift (rows fixedQg mx) in
  let* gen := lift (assign set_QG mx fq gen) in
  set_gen gen ;;
  for_each mx turn_off.

(** Lines 201-204: the guard for systems with several slacks. The right
    operand of [and] is only evaluated when [len(ref) > 1]. *)
Definition check_slacks (ref : list nat) (mx : list nat) : M world unit :=
  let* gen := get_gen in
  let* bus := get_bus in
  let* slack :=
    (if 1 <? length ref then
       let* gb := lift (rows (map GEN_BUS gen) mx) in
       let* bt := lift (rows (map BUS_TYPE bus) gb) in
       ret (existsb (fun t => bool_decide (t = REF)) bt)
     else ret false) in
  if slack then raise ValueError_multiple_slacks else ret tt.

(** Lines 206-211: the buses become PQ, the partition is recomputed and
    the generators join the limited ones. *)
Definition reclassify (lv : LoopVars num) (fixedQg : list num) (mx : list nat)
  : M world (LoopVars num) :=
  let* gen := get_gen in
  let* bus := get_bus in
  let* gb := lift (rows (map GEN_BUS gen) mx) in
  let* bus := lift (assign set_BUS_TYPE gb (replicate (length gb) PQ) bus) in
  set_bus bus ;;
  let t := bustypes ext bus gen in
  ret (mkLoopVars (limited lv ++ mx) fixedQg t.1.1 t.1.2 t.2).

(** Lines 190-211, the conversion of the selected generators. *)
Definition convert_to_PQ (lv : LoopVars num) (mx mn : list nat)
  : M world (LoopVars num) :=
  let* fixedQg := save_limits (fixedQg lv) mx mn in
  let mx := mx ++ mn in
  take_out_of_service fixedQg mx ;;
  check_slacks (ref lv) mx ;;
  reclassify lv fixedQg mx.

(** Lines 161-213: the [while True] loop, with fuel for the number of
    passes. It ends with the success flag and the loop variables. *)
Fixpoint qlims_loop (fuel : nat) (recycle : Recycle) (makeYbus : makeYbus_t)
    (ppopt : Ppopt num) (qlim : Z) (lv : LoopVars num)
  : M world (bool * LoopVars num) :=
  match fuel with
  | 0 => out_of_fuel
  | S fuel' =>
      let* success := _run_ac_pf_without_qlims_enforced recycle makeYbus ppopt in
      let* gen := get_gen in
      let (mx, mn) := violations gen in
      if (0 <? length mx) || (0 <? length mn) then
        if length (pv lv) =? 0 then ret (false, lv)
        else
          let* (mx, mn) :=
            (if (qlim =? 2)%Z then fix_largest gen mx mn else ret (mx, mn)) in
          let* lv := convert_to_PQ lv mx mn in
          qlims_loop fuel' recycle makeYbus ppopt qlim lv
      else ret (success, lv)
  end.

(** Lines 219-221, the body of [for i in limited]. *)
Definition turn_on (i : nat) : M world unit :=
  let* gen := get_gen in
  let* g := lift (index gen i) in
  let bi := GEN_BUS g in
  let* bus := get_bus in
  let* b := lift (index bus bi) in
  set_bus (<[bi := set_PD_QD b (add (PD b) (PG g), add (QD b) (QG g))]> bus) ;;
  set_gen (<[i := set_GEN_STATUS g 1%Z]> gen).

(** Lines 215-221: the injections of the limited generators are
    restored. *)
Definition restore_limited (lv : LoopVars num) : M world unit :=
  if 0 <? length (limited lv) then
    let* gen := get_gen in
    let* fq := lift (rows (fixedQg lv) (limited lv)) in
    let* gen := lift (assign set_QG (limited lv) fq gen) in
    set_gen gen ;;
    for_each (limited lv) turn_on
  else ret tt.

Definition _run_ac_pf_with_qlims_enforced (fuel : nat) (recycle : Recycle)
    (makeYbus : makeYbus_t) (ppopt : Ppopt num) : M world bool :=
  let* (baseMVA, ref, pv, pq, V0) := _get_pf_variables_from_ppci in
  let* gen := get_gen in
  let qlim := ENFORCE_Q_LIMS ppopt in
  let limited := [] in
  let fixedQg := replicate (length gen) zero in
  let* (success, lv) :=
    qlims_loop fuel recycle makeYbus ppopt qlim
      (mkLoopVars limited fixedQg ref pv pq) in
  restore_limited lv ;;
  ret success.

(** *** [_ac_runpf] *)

Definition _ac_runpf (fuel : nat) (ppopt : Ppopt num) (numba : bool)
    (recycle : Recycle) : M world bool :=
  let (numba, makeYbus) := _import_numba_extensions_if_flag_is_true numba in
  if negb (ENFORCE_Q_LIMS ppopt =? 0)%Z then
    _run_ac_pf_with_qlims_enforced fuel recycle makeYbus ppopt
  else
    _run_ac_pf_without_qlims_enforced recycle makeYbus ppopt.

(** *** [_runpf_pypower] *)

(** [ppci = _run_dc_pf(ppci)] *)
Definition run_dc_pf : M world unit :=
  called call_run_dc_pf ;;
  let* ppci := get_ppci in
  set_ppci (_run_dc_pf ext ppci).

(** The names [bus], [gen] and [branch] of [_runpf_pypower] are bound by
    the assignment on line 60 only; [None] stands for the three names not
    being bound, and reading them then raises [UnboundLocalError]. *)
Definition _runpf_pypower (fuel : nat) (options : Options num) : M world bool :=
  let* t0 := time in
  let* (init_va_degree, ac, numba, recycle, ppopt) := lift (_get_options options) in
  let* (success, locals) :=
    (if ac : bool then
       (if decide (init_va_degree = "dc"%string) then run_dc_pf else ret tt) ;;
       let* success := _ac_runpf fuel ppopt numba recycle in
       let* ppci := get_ppci in
       ret (success, Some (bus ppci, gen ppci, branch ppci))
     else
       run_dc_pf ;;
       ret (true, None)) in
  let* t1 := time in
  let et := sub t1 t0 in
  match locals with
  | None => raise UnboundLocalError
  | Some (bus, gen, branch) =>
      called call_store_results ;;
      let* ppci := get_ppci in
      set_ppci (_store_results_from_pf_in_ppci ext ppci bus gen branch success et) ;;
      ret success
  end.

End Program.

(** ** Vocabulary of the statements *)

(** The demand of a bus: its columns [PD] and [QD]. *)
Definition demand {num} (b : BusRow num) : num * num := (PD b, QD b).

(** A demand after the outputs [l] were applied to it with [op], one
    after the other: subtracted when generators are taken out of service,
    added when they are put back. *)
Definition shift_all {num} (op : num -> num -> num) (d : num * num)
    (l : list (num * num)) : num * num :=
  foldl (fun d x => (op d.1 x.1, op d.2 x.2)) d l.

Definition sub_all {num} {N : Number num} := shift_all (num:=num) sub.

Definition add_all {num} {N : Number num} := shift_all (num:=num) add.

(** The output [(PG, q)] of generator [i] if it sits at bus [bi]; the
    reactive part is read from [q]. *)
Definition output_at {num} (gen : list (GenRow num)) (q : list num) (bi i : nat)
  : option (num * num) :=
  match gen !! i, q !! i with
  | Some g, Some v => if decide (GEN_BUS g = bi) then Some (PG g, v) else None
  | _, _ => None
  end.

(** The outputs of the generators of [sel] that sit at bus [bi], in the
    order of [sel]. *)
Definition outputs_at {num} (gen : list (GenRow num)) (q : list num)
    (sel : list nat) (bi : nat) : list (num * num) :=
  omap (output_at gen q bi) sel.

(** The limit a selected generator is held at: [QMIN] when it is among
    those below their limit, else [QMAX]. *)
Definition binding_limit {num} (gen : list (GenRow num)) (mx mn : list nat)
    (i : nat) : option num :=
  if decide (i ∈ mn) then QMIN <$> gen !! i
  else if decide (i ∈ mx) then QMAX <$> gen !! i
  else None.

(** Some generator of [sel] sits at a bus whose type is [REF]. *)
Definition on_slack {num} (bus : list (BusRow num)) (gen : list (GenRow num))
    (sel : list nat) : Prop :=
  exists i g b,
    i ∈ sel /\ gen !! i = Some g /\ bus !! GEN_BUS g = Some b /\ BUS_TYPE b = REF.

(** Every generator of [sel] is a row of [gen] and sits at a row of [bus]. *)
Definition placed {num} (bus : list (BusRow num)) (gen : list (GenRow num))
    (sel : list nat) : Prop :=
  forall i, i ∈ sel ->
    exists g b, gen !! i = Some g /\ bus !! GEN_BUS g = Some b.

(** Bus [bi] is the bus of some generator of [sel]. *)
Definition hosts {num} (gen : list (GenRow num)) (sel : list nat) (bi : nat) : Prop :=
  exists i g, i ∈ sel /\ gen !! i = Some g /\ GEN_BUS g = bi.

(** Two states that differ in the [bus] and [gen] arrays at most. *)
Definition only_bus_gen {num Branch Matrix} (w w' : World num Branch Matrix) : Prop :=
  w_calls w' = w_calls w /\ w_clock w' = w_clock w /\
  baseMVA (w_ppci w') = baseMVA (w_ppci w) /\
  branch (w_ppci w') = branch (w_ppci w) /\
  internal (w_ppci w') = internal (w_ppci w).

(** The assumption on [pfsoln], which is not among the sources: it
    leaves the demand columns of [bus] and the column [GEN_BUS] alone, and
    a generator that is out of service stays so and keeps its [PG]. *)
Definition pfsoln_keeps_injections {num Branch Matrix Vec}
    (ext : Externals num Branch Matrix Vec) : Prop :=
  forall base bus0 gen0 branch0 Y1 Y2 Y3 V ref0,
    let r := pfsoln ext base bus0 gen0 branch0 Y1 Y2 Y3 V ref0 in
    map demand r.1.1 = map demand bus0 /\
    map GEN_BUS r.1.2 = map GEN_BUS gen0 /\
    forall j g g', gen0 !! j = Some g -> r.1.2 !! j = Some g' ->
      (GEN_STATUS g <= 0)%Z -> (GEN_STATUS g' <= 0)%Z /\ PG g' = PG g.

(** Arithmetic without rounding: adding back what was subtracted gives
    the number one started from, and additions and subtractions may be
    reordered. *)
Definition exact_arithmetic (num : Type) {N : Number num} : Prop :=
  (forall a b : num, add (sub a b) b = a) /\
  (forall a b c : num, add (sub a b) c = sub (add a c) b).

(** The invariant of the Q-limit loop: against the demands [bus0] the loop
    started from, every bus has lost the outputs of the limited generators
    sitting at it, and the limited generators are out of service. *)
Definition offsets_recorded {num Branch Matrix} {N : Number num}
    (bus0 : list (BusRow num)) (w : World num Branch Matrix)
    (lv : LoopVars num) : Prop :=
  (forall bi,
     demand <$> bus (w_ppci w) !! bi =
     (fun b => sub_all (demand b)
                 (outputs_at (gen (w_ppci w)) (fixedQg lv) (limited lv) bi))
       <$> bus0 !! bi) /\
  (forall i, i ∈ limited lv ->
     exists g, gen (w_ppci w) !! i = Some g /\ (GEN_STATUS g <= 0)%Z).

(** ** Vocabulary of the further facts *)

(** The number of generators in service. *)
Definition in_service {num} (gen : list (GenRow num)) : nat :=
  length (filter (fun g => (0 < GEN_STATUS g)%Z) gen).

(** The amounts by which the generators [gmx] are above [QMAX] and the
    generators [gmn] below [QMIN], in the order line 180 lists them. *)
Definition excess {num} {N : Number num} (gmx gmn : list (GenRow num)) : list num :=
  map (fun g => sub (QG g) (QMAX g)) gmx ++ map (fun g => sub (QMIN g) (QG g)) gmn.

(** A computation that does not run out of fuel. *)
Definition fuel_free {W A} (m : M W A) : Prop :=
  forall w, (m w).1 <> OutOfFuel.

(** What one power flow reads from the case [p]: whether the stored
    admittance matrices are reused, the matrices it works with, and the
    calls the fetch and the dispatch make for algorithm [alg]. *)
Definition reuses_Ybus {num Branch Matrix Vec} (ext : Externals num Branch Matrix Vec)
    (rc : Recycle) (p : Ppci num Branch Matrix) : bool :=
  recycle_Ybus rc && negb (mat_size ext (Ybus (internal p)) =? 0).

Definition matrices_used {num Branch Matrix Vec} (ext : Externals num Branch Matrix Vec)
    (rc : Recycle) (mk : num -> list (BusRow num) -> Branch -> Matrix * Matrix * Matrix)
    (p : Ppci num Branch Matrix) : Matrix * Matrix * Matrix :=
  if reuses_Ybus ext rc p
  then (Ybus (internal p), Yf (internal p), Yt (internal p))
  else mk (baseMVA p) (bus p) (branch p).

Definition fetch_calls {num Branch Matrix Vec} (ext : Externals num Branch Matrix Vec)
    (rc : Recycle) (p : Ppci num Branch Matrix) : list Call :=
  if reuses_Ybus ext rc p then [] else [call_makeYbus].

Definition kernel_calls (alg : Z) : list Call :=
  if (alg =? 2)%Z || (alg =? 3)%Z then [call_makeB; call_fdpf]
  else if (alg =? 4)%Z then [call_gausspf] else [].

(** The number of times the call [c] occurs in a record of calls. *)
Definition calls_of (c : Call) (l : list Call) : nat :=
  length (filter (fun c' => c' = c) l).

(** What the kernel chosen by [PF_ALG] returns for the case [p]; [None]
    when no kernel is chosen. *)
Definition kernel_result {num Branch Matrix Vec} (ext : Externals num Branch Matrix Vec)
    (rc : Recycle) (mk : num -> list (BusRow num) -> Branch -> Matrix * Matrix * Matrix)
    (ppopt : Ppopt num) (p : Ppci num Branch Matrix) : option (Vec * bool) :=
  let Y := matrices_used ext rc mk p in
  let alg := PF_ALG ppopt in
  let t := bustypes ext (bus p) (gen p) in
  let Sbus := makeSbus ext (baseMVA p) (bus p) (gen p) in
  let V0 := initial_voltage ext (bus p) (gen p) in
  if (alg =? 2)%Z || (alg =? 3)%Z then
    let B := makeB ext (baseMVA p) (bus p) (real ext (branch p)) alg in
    Some (fdpf ext Y.1.1 Sbus V0 B.1 B.2 t.1.1 t.1.2 t.2 ppopt)
  else if (alg =? 4)%Z then
    Some (gausspf ext Y.1.1 Sbus V0 t.1.1 t.1.2 t.2 ppopt)
  else None.

(** The stored matrices after one power flow on the case [p]. *)
Definition matrices_kept {num Branch Matrix Vec} (ext : Externals num Branch Matrix Vec)
    (rc : Recycle) (mk : num -> list (BusRow num) -> Branch -> Matrix * Matrix * Matrix)
    (p : Ppci num Branch Matrix) : Internal Matrix :=
  let Y := matrices_used ext rc mk p in
  if recycle_Ybus rc then mkInternal Y.1.1 Y.1.2 Y.2 else internal p.

(** The calls of passes of the loop: as many kernel calls as [pfsoln]
    calls, a build of the matrices in each pass when recycling is off and
    in none when the stored matrices are reused. *)
Definition pass_calls (rc : Recycle) (reused : bool) (l : list Call) : Prop :=
  calls_of call_fdpf l + calls_of call_gausspf l = calls_of call_pfsoln l /\
  (recycle_Ybus rc = false -> calls_of call_makeYbus l = calls_of call_pfsoln l) /\
  (reused = true -> calls_of call_makeYbus l = 0) /\
  calls_of call_run_dc_pf l = 0 /\ calls_of call_store_results l = 0.

(** The keys of [algorithm_pypower_dict]. *)
Definition algorithm_names : list string := ["nr"; "fdbx"; "fdxb"; "gs"]%string.

(** Two weaker assumptions on [pfsoln]: it returns as many generators as
    it was given and leaves a generator that is out of service out of
    service; it returns as many buses as it was given and leaves the column
    [GEN_BUS] alone. *)
Definition pfsoln_keeps_off {num Branch Matrix Vec}
    (ext : Externals num Branch Matrix Vec) : Prop :=
  forall base bus0 gen0 branch0 Y1 Y2 Y3 V ref0,
    let r := pfsoln ext base bus0 gen0 branch0 Y1 Y2 Y3 V ref0 in
    length r.1.2 = length gen0 /\
    forall j g g', gen0 !! j = Some g -> r.1.2 !! j = Some g' ->
      (GEN_STATUS g <= 0)%Z -> (GEN_STATUS g' <= 0)%Z.

Definition pfsoln_keeps_shape {num Branch Matrix Vec}
    (ext : Externals num Branch Matrix Vec) : Prop :=
  forall base bus0 gen0 branch0 Y1 Y2 Y3 V ref0,
    let r := pfsoln ext base bus0 gen0 branch0 Y1 Y2 Y3 V ref0 in
    length r.1.1 = length bus0 /\ map GEN_BUS r.1.2 = map GEN_BUS gen0.

(** Every generator of the case sits at a row of [bus]. *)
Definition well_placed {num Branch Matrix} (p : Ppci num Branch Matrix) : Prop :=
  forall i g, gen p !! i = Some g -> GEN_BUS g < length (bus p).

(** The loop variables fit the case: [fixedQg] has an entry for every
    generator and the limited generators are rows of [gen]. *)
Definition vars_fit {num Branch Matrix} (p : Ppci num Branch Matrix)
    (lv : LoopVars num) : Prop :=
  length (fixedQg lv) = length (gen p) /\
  Forall (fun i => i < length (gen p)) (limited lv).

(** The loop variables as lines 155-159 set them up. *)
Definition initial_vars {num Branch Matrix Vec} {N : Number num}
    (ext : Externals num Branch Matrix Vec) (w : World num Branch Matrix)
  : LoopVars num :=
  let t := bustypes ext (bus (w_ppci w)) (gen (w_ppci w)) in
  mkLoopVars [] (replicate (length (gen (w_ppci w))) zero) t.1.1 t.1.2 t.2.

(** ** The specification's wording of three loop properties

    These three follow the words of the specification, not the code; they
    are compared with the code further down. *)

(** Section 4.4, SOLVING: a step that reports non-convergence ends the
    loop there, with failure and nothing else done. *)
Definition spec_nonconverged_step_ends_loop {num Branch Matrix Vec}
    {N : Number num} (ext : Externals num Branch Matrix Vec) (fuel : nat)
    (rc : Recycle) (mk : num -> list (BusRow num) -> Branch -> Matrix * Matrix * Matrix)
    (ppopt : Ppopt num) (qlim : Z) (lv : LoopVars num)
    (w : World num Branch Matrix) : Prop :=
  forall w1,
    _run_ac_pf_without_qlims_enforced ext rc mk ppopt w = (Ret false, w1) ->
    qlims_loop ext (S fuel) rc mk ppopt qlim lv w = (Ret (false, lv), w1).

(** Section 4.4, INFEASIBLE: the run returns failure with the network
    state as last solved, nothing restored. *)
Definition spec_infeasible_keeps_last_solved {num Branch Matrix Vec}
    {N : Number num} (ext : Externals num Branch Matrix Vec) (fuel : nat)
    (rc : Recycle) (mk : num -> list (BusRow num) -> Branch -> Matrix * Matrix * Matrix)
    (ppopt : Ppopt num) (w : World num Branch Matrix) : Prop :=
  forall lv w1 s w',
    qlims_loop ext fuel rc mk ppopt (ENFORCE_Q_LIMS ppopt) (initial_vars ext w) w
    = (Ret (false, lv), w1) ->
    violations (gen (w_ppci w1)) <> ([], []) ->
    pv lv = [] ->
    _run_ac_pf_with_qlims_enforced ext fuel rc mk ppopt w = (Ret s, w') ->
    s = false /\ w_ppci w' = w_ppci w1.

(** Section 6, injection conservation: after the restoration every bus
    has the demand it had before the enforcement. *)
Definition spec_demand_round_trip {num Branch Matrix Vec}
    {N : Number num} (ext : Externals num Branch Matrix Vec) (fuel : nat)
    (rc : Recycle) (mk : num -> list (BusRow num) -> Branch -> Matrix * Matrix * Matrix)
    (ppopt : Ppopt num) (w : World num Branch Matrix) : Prop :=
  forall s w',
    _run_ac_pf_with_qlims_enforced ext fuel rc mk ppopt w = (Ret s, w') ->
    map demand (bus (w_ppci w')) = map demand (bus (w_ppci w)).

(** ** A small network to run the module on *)

(** Modelled from the spec: [bustypes] lives in [pandapower.pf.bustypes],
    which is not among the sources. Section 4.4 of the specification has
    it recompute the ref/pv/pq partition from the bus types; this is the
    partition of the bus indices by their type column. *)
Definition bustypes_by_type {num} (bus : list (BusRow num)) (gen : list (GenRow num))
  : list nat * list nat * list nat :=
  (find (map (fun b => bool_decide (BUS_TYPE b = REF)) bus),
   find (map (fun b => bool_decide (BUS_TYPE b = PV)) bus),
   find (map (fun b => bool_decide (BUS_TYPE b = PQ)) bus)).

(** Stand-ins for the numerical collaborators: matrices are their sizes,
    the kernels report [conv], and the solution gives every generator in
    service the reactive output [q]. *)
Definition toy_pfsoln {num} (q : num) (bus : list (BusRow num))
    (gen : list (GenRow num)) : list (BusRow num) * list (GenRow num) * unit :=
  (bus, map (fun g => if (0 <? GEN_STATUS g)%Z then set_QG g q else g) gen, tt).

Definition toy_ext {num} (q : num) (conv : bool) : Externals num unit nat unit :=
  {| mat_size := fun m => m;
     numba_env := NumbaMissing;
     makeYbus_numba := fun _ bus _ => (length bus, length bus, length bus);
     makeYbus_pypower := fun _ bus _ => (length bus, length bus, length bus);
     makeSbus := fun _ _ _ => tt;
     real := fun b => b;
     makeB := fun _ bus _ _ => (length bus, length bus);
     fdpf := fun _ _ _ _ _ _ _ _ _ => (tt, conv);
     gausspf := fun _ _ _ _ _ _ _ => (tt, conv);
     pfsoln := fun _ bus gen _ _ _ _ _ _ => toy_pfsoln q bus gen;
     bustypes := bustypes_by_type;
     initial_voltage := fun _ _ => tt;
     _run_dc_pf := fun ppci => ppci;
     _store_results_from_pf_in_ppci := fun ppci bus gen branch _ _ =>
       mkPpci (baseMVA ppci) bus gen branch (internal ppci) |}.

Definition toy_world {num} (base : num) (bus : list (BusRow num))
    (gen : list (GenRow num)) : World num unit nat :=
  mkWorld (mkPpci base bus gen tt (mkInternal 0 0 0)) [] [].

Definition toy_ppopt (qlim alg : Z) : Ppopt Z :=
  mkPpopt qlim 0%Z alg 10%Z 10%Z 10%Z 0%Z.

(** Scenario A of the specification: a slack bus and a PV bus whose
    generator has [QMAX = 50] and is solved at [QG = 70]. *)
Definition busA : list (BusRow Z) :=
  [mkBus REF 0 0 1 0; mkBus PV 10 5 1 0]%Z.

Definition genA : list (GenRow Z) :=
  [mkGen 0 0 0 100 (-100) 1 1; mkGen 1 40 0 50 (-50) 1 1]%Z.

Definition worldA : World Z unit nat := toy_world 100%Z busA genA.

Definition lvA : LoopVars Z := mkLoopVars [] [0; 0]%Z [0] [1] [].

(** The options of a DC run. *)
Definition optionsDC : Options Z :=
  mkOptions "flat" false (mkRecycle false) false 0%Z 100%Z "gs" 10%Z.

(** Scenario A solved with the PV generator below its lower limit: the
    worst violation is the first under-limit one and nothing is over. *)
Definition genA_under : list (GenRow Z) :=
  [mkGen 0 0 (-70) 100 (-100) 1 1; mkGen 1 40 (-70) 50 (-50) 1 1]%Z.


(** The non-converging kernel on scenario A: the state after the first
    step. *)
Definition worldA_step : World Z unit nat :=
  Eval vm_compute in
    (_run_ac_pf_without_qlims_enforced (toy_ext 70%Z false) (mkRecycle false)
       (makeYbus_pypower (toy_ext 70%Z false)) (toy_ppopt 1 4) worldA).2.

(** The converging kernel on scenario A: the state the enforcement ends
    in. *)
Definition worldA_final : World Z unit nat :=
  Eval vm_compute in
    (_run_ac_pf_with_qlims_enforced (toy_ext 70%Z true) 3 (mkRecycle false)
       (makeYbus_pypower (toy_ext 70%Z true)) (toy_ppopt 1 4) worldA).2.

(** Two slack buses, the generator of the first one over its limit. *)
Definition busB : list (BusRow Z) :=
  [mkBus REF 0 0 1 0; mkBus REF 0 0 1 0; mkBus PV 10 5 1 0]%Z.

Definition genB : list (GenRow Z) :=
  [mkGen 0 30 70 50 (-50) 1 1; mkGen 1 0 0 100 (-100) 1 1;
   mkGen 2 40 0 50 (-50) 1 1]%Z.

Definition worldB : World Z unit nat := toy_world 100%Z busB genB.

Definition lvB : LoopVars Z := mkLoopVars [] [0; 0; 0]%Z [0; 1] [2] [].


(** One PV bus carrying two generators with limits 50 and 60. *)
Definition busC : list (BusRow Z) :=
  [mkBus REF 0 0 1 0; mkBus PV 10 5 1 0]%Z.

Definition genC : list (GenRow Z) :=
  [mkGen 0 0 0 100 (-100) 1 1; mkGen 1 40 0 50 (-50) 1 1;
   mkGen 1 20 0 60 (-60) 1 1]%Z.

Definition worldC : World Z unit nat := toy_world 100%Z busC genC.

(** The loop variables after the first pass over [worldC] has limited
    generator 1, the state that pass leaves, and the state the second
    step leaves. *)
Definition lvC1 : LoopVars Z := mkLoopVars [1] [0; 50; 0]%Z [0] [] [1].

Definition worldC1 : World Z unit nat :=
  Eval vm_compute in
    ((_run_ac_pf_without_qlims_enforced (toy_ext 70%Z true) (mkRecycle false)
        (makeYbus_pypower (toy_ext 70%Z true)) (toy_ppopt 2 4) ;;
      convert_to_PQ (toy_ext 70%Z true) (initial_vars (toy_ext 70%Z true) worldC)
        [1] []) worldC).2.

Definition worldC2 : World Z unit nat :=
  Eval vm_compute in
    (_run_ac_pf_without_qlims_enforced (toy_ext 70%Z true) (mkRecycle false)
       (makeYbus_pypower (toy_ext 70%Z true)) (toy_ppopt 2 4) worldC1).2.

Definition worldC_final : World Z unit nat :=
  Eval vm_compute in
    (_run_ac_pf_with_qlims_enforced (toy_ext 70%Z true) 3 (mkRecycle false)
       (makeYbus_pypower (toy_ext 70%Z true)) (toy_ppopt 2 4) worldC).2.

(** Scenario A in binary64, with demand 0.1 at the PV bus and active
    output 0.7 of its generator. *)
Definition busF : list (BusRow float) :=
  [mkBus REF 0 0 1 0; mkBus PV 0x1.999999999999ap-4 5 1 0]%float.

Definition genF : list (GenRow float) :=
  [mkGen 0 0 0 100 (-100) 1 1;
   mkGen 1 0x1.6666666666666p-1 0 50 (-50) 1 1]%float.

Definition worldF : World float unit nat := toy_world 100%float busF genF.

Definition toy_ppopt_float (qlim alg : Z) : Ppopt float :=
  mkPpopt qlim 0%float alg 10%Z 10%Z 10%Z 0%Z.

Definition worldF_final : World float unit nat :=
  Eval vm_compute in
    (_run_ac_pf_with_qlims_enforced (toy_ext 70%float true) 3 (mkRecycle false)
       (makeYbus_pypower (toy_ext 70%float true)) (toy_ppopt_float 1 4) worldF).2.

(** Scenario A solved within the limits ([QG = 30]): the state after the
    one step. *)
Definition worldA_calm : World Z unit nat :=
  Eval vm_compute in
    (_run_ac_pf_without_qlims_enforced (toy_ext 30%Z true) (mkRecycle false)
       (makeYbus_pypower (toy_ext 30%Z true)) (toy_ppopt 1 4) worldA).2.

(** Scenario A solved at [QG = -70]: the state after the one step. *)
Definition worldA_under : World Z unit nat :=
  Eval vm_compute in
    (_run_ac_pf_without_qlims_enforced (toy_ext (-70)%Z true) (mkRecycle false)
       (makeYbus_pypower (toy_ext (-70)%Z true)) (toy_ppopt 2 4) worldA).2.

(** The generators of [worldC] as the first step solves them. *)
Definition genC_solved : list (GenRow Z) := map (fun g => set_QG g 70%Z) genC.

(** The options of an AC run of scenario A with Gauss-Seidel and the
    limits enforced, the same with the name nr, and with a name that is
    not in the table. *)
Definition optionsAC : Options Z :=
  mkOptions "flat" true (mkRecycle false) false 1%Z 100%Z "gs" 10%Z.

Definition optionsNR : Options Z :=
  mkOptions "dc" true (mkRecycle false) false 1%Z 100%Z "nr" 10%Z.

Definition optionsBad : Options Z :=
  mkOptions "flat" true (mkRecycle false) false 1%Z 100%Z "newton" 10%Z.

Definition worldA_stored : World Z unit nat :=
  Eval vm_compute in (_runpf_pypower (toy_ext 70%Z true) 3 optionsAC worldA).2.

(** ** Facts about the array operations and the effects *)

Section ArrayFacts.
Context {A B : Type}.

Lemma rows_Forall2 (l : list A) (idx : list nat) (r : list A) :
  rows l idx = Ret r <-> Forall2 (fun i x => l !! i = Some x) idx r.
Proof.
  revert r. induction idx as [|i idx IH]; intros r; simpl.
  - split; [intros [= <-]; constructor | intros H; inversion H; reflexivity].
  - destruct (l !! i) as [x|] eqn:Hi.
    + destruct (rows l idx) as [r'| |] eqn:Hr.
      * split.
        -- intros [= <-]. constructor; [assumption | apply IH; reflexivity].
        -- intros H. inversion H as [|? y ? r'' Hy Hrest]; subst.
           apply IH in Hrest. congruence.
      * split; [discriminate|]. intros H. inversion H as [|? y ? r'' Hy Hrest]; subst.
        apply IH in Hrest. discriminate.
      * split; [discriminate|]. intros H. inversion H as [|? y ? r'' Hy Hrest]; subst.
        apply IH in Hrest. discriminate.
    + split; [discriminate|]. intros H. inversion H; congruence.
Qed.

Lemma rows_cases (l : list A) (idx : list nat) :
  (exists r, rows l idx = Ret r) \/ rows l idx = Raise IndexError.
Proof.
  induction idx as [|i idx IH]; simpl; [eauto|].
  destruct (l !! i); [|auto].
  destruct IH as [[r ->]| ->]; eauto.
Qed.

Lemma rows_length (l : list A) (idx : list nat) (r : list A) :
  rows l idx = Ret r -> length r = length idx.
Proof. intros H%rows_Forall2. symmetry. eapply Forall2_length, H. Qed.

Lemma rows_in_range (l : list A) (idx : list nat) (r : list A) :
  rows l idx = Ret r -> Forall (fun i => i < length l) idx.
Proof.
  intros H%rows_Forall2. induction H; constructor; auto.
  eapply lookup_lt_Some; eassumption.
Qed.

Lemma rows_total (l : list A) (idx : list nat) :
  Forall (fun i => i < length l) idx -> exists r, rows l idx = Ret r.
Proof.
  induction 1 as [|i idx Hi _ IH]; simpl; [eauto|].
  destruct (lookup_lt_is_Some_2 l i Hi) as [x ->].
  destruct IH as [r ->]. eauto.
Qed.

Lemma rows_map (f : A -> B) (l : list A) (idx : list nat) :
  rows (map f l) idx =
  match rows l idx with
  | Ret r => Ret (map f r)
  | Raise e => Raise e
  | OutOfFuel => OutOfFuel
  end.
Proof.
  induction idx as [|i idx IH]; simpl; [reflexivity|].
  rewrite list_lookup_fmap. destruct (l !! i); simpl; [|reflexivity].
  rewrite IH. destruct (rows l idx); reflexivity.
Qed.

Lemma assign_inv (set : A -> B -> A) idx vals (l l' : list A) :
  assign set idx vals l = Ret l' ->
  Forall (fun i => i < length l) idx /\
  l' = foldl (fun acc iv => alter (fun a => set a iv.2) iv.1 acc) l (zip idx vals).
Proof.
  unfold assign. destruct (forallb _ idx) eqn:Hall; [|discriminate].
  intros [= <-]. split; [|reflexivity].
  apply Forall_forall. intros i Hi%list_elem_of_In.
  rewrite List.forallb_forall in Hall. apply Nat.ltb_lt, Hall, Hi.
Qed.

Lemma assign_cases (set : A -> B -> A) idx vals (l : list A) :
  (exists l', assign set idx vals l = Ret l') \/
  assign set idx vals l = Raise IndexError.
Proof. unfold assign. destruct (forallb _ idx); eauto. Qed.

Lemma assign_total (set : A -> B -> A) idx vals (l : list A) :
  Forall (fun i => i < length l) idx -> exists l', assign set idx vals l = Ret l'.
Proof.
  intros H. unfold assign.
  assert (forallb (fun i => i <? length l) idx = true) as ->; [|eauto].
  apply List.forallb_forall. intros i Hi%list_elem_of_In.
  apply Nat.ltb_lt. revert i Hi. by apply Forall_forall.
Qed.

Lemma foldl_alter_length (set : A -> B -> A) (ivs : list (nat * B)) (l : list A) :
  length (foldl (fun acc iv => alter (fun a => set a iv.2) iv.1 acc) l ivs) = length l.
Proof.
  revert l. induction ivs as [|iv ivs IH]; intros l; simpl; [reflexivity|].
  rewrite IH. apply length_alter.
Qed.

Lemma assign_length (set : A -> B -> A) idx vals (l l' : list A) :
  assign set idx vals l = Ret l' -> length l' = length l.
Proof. intros [_ ->]%assign_inv. apply foldl_alter_length. Qed.

(** What an assignment leaves at position [j], when the value written at
    an index is a function of the index ([R]) and writing a value twice is
    writing it once. *)
Lemma assign_lookup (set : A -> B -> A) (R : nat -> B -> Prop) idx vals
    (l l' : list A) :
  (forall a v, set (set a v) v = set a v) ->
  (forall i v v', R i v -> R i v' -> v = v') ->
  Forall2 R idx vals ->
  assign set idx vals l = Ret l' ->
  forall j,
    (j ∉ idx -> l' !! j = l !! j) /\
    (j ∈ idx -> forall v, R j v -> l' !! j = (fun a => set a v) <$> l !! j).
Proof.
  intros Hidem Hfun HR [_ ->]%assign_inv j.
  revert l. induction HR as [|i v idx vals Hiv HR IH]; intros l; simpl.
  - split; [reflexivity|]. intros Hj. apply elem_of_nil in Hj. destruct Hj.
  - destruct (IH (alter (fun a => set a v) i l)) as [IHout IHin].
    split.
    + intros Hj. apply not_elem_of_cons in Hj as [Hji Hj].
      rewrite IHout by assumption. apply list_lookup_alter_ne. congruence.
    + intros Hj w Hw.
      destruct (decide (j ∈ idx)) as [Hin|Hout].
      * rewrite (IHin Hin w Hw).
        destruct (decide (i = j)) as [->|Hne].
        -- rewrite list_lookup_alter_eq. rewrite (Hfun j v w Hiv Hw).
           destruct (l !! j); simpl; [|reflexivity]. by rewrite Hidem.
        -- by rewrite list_lookup_alter_ne.
      * rewrite IHout by assumption.
        apply elem_of_cons in Hj as [->|Hj]; [|contradiction].
        rewrite list_lookup_alter_eq. by rewrite (Hfun i v w Hiv Hw).
Qed.

End ArrayFacts.

Section MonadFacts.
Context {W A B : Type}.

Lemma bind_Ret_inv (m : M W A) (k : A -> M W B) w b w' :
  bind m k w = (Ret b, w') ->
  exists a w1, m w = (Ret a, w1) /\ k a w1 = (Ret b, w').
Proof.
  unfold bind. destruct (m w) as [[a|e|] w1]; [eauto|discriminate|discriminate].
Qed.

Lemma bind_Raise_inv (m : M W A) (k : A -> M W B) w e w' :
  bind m k w = (Raise e, w') ->
  m w = (Raise e, w') \/
  exists a w1, m w = (Ret a, w1) /\ k a w1 = (Raise e, w').
Proof.
  unfold bind. destruct (m w) as [[a|e'|] w1]; [eauto|intros [= -> ->]; auto|discriminate].
Qed.

Lemma bind_Ret (m : M W A) (k : A -> M W B) w a w1 :
  m w = (Ret a, w1) -> bind m k w = k a w1.
Proof. unfold bind. by intros ->. Qed.

Lemma lift_inv (o o' : outcome A) (w w' : W) :
  lift o w = (o', w') -> o = o' /\ w = w'.
Proof. unfold lift. by intros [= -> ->]. Qed.

End MonadFacts.

(** ** Facts *)

Section Facts.
Context {num : Type} {N : Number num} {Branch Matrix Vec : Type}.
Variable ext : Externals num Branch Matrix Vec.

Abbreviation world := (World num Branch Matrix).
Abbreviation makeYbus_t :=
  (num -> list (BusRow num) -> Branch -> Matrix * Matrix * Matrix).

(** *** The admittance fetch *)

(** C7. A call of the admittance fetch either returns the stored triple
    unchanged, making no call and leaving the case as it is (reuse is
    allowed and the stored [Ybus] has a size other than zero), or it builds
    the matrices from the bus and branch data it was given, with one call
    to the builder, and stores them exactly when reuse is allowed. *)
Theorem get_Y_bus_reuses_or_builds (recycle : Recycle) (makeYbus : makeYbus_t)
    (base : num) (bus0 : list (BusRow num)) (branch0 : Branch) (w : world) :
  let r := _get_Y_bus ext recycle makeYbus base bus0 branch0 w in
  let stored := internal (w_ppci w) in
  (recycle_Ybus recycle = true /\ mat_size ext (Ybus stored) <> 0 /\
   r = (Ret (Ybus stored, Yf stored, Yt stored), w))
  \/
  ((recycle_Ybus recycle = false \/ mat_size ext (Ybus stored) = 0) /\
   r.1 = Ret (makeYbus base bus0 branch0) /\
   w_calls r.2 = w_calls w ++ [call_makeYbus] /\
   w_clock r.2 = w_clock w /\
   baseMVA (w_ppci r.2) = baseMVA (w_ppci w) /\
   bus (w_ppci r.2) = bus (w_ppci w) /\
   gen (w_ppci r.2) = gen (w_ppci w) /\
   branch (w_ppci r.2) = branch (w_ppci w) /\
   internal (w_ppci r.2) =
     if recycle_Ybus recycle
     then mkInternal (makeYbus base bus0 branch0).1.1
                     (makeYbus base bus0 branch0).1.2
                     (makeYbus base bus0 branch0).2
     else stored).
Proof.
  intros r stored. subst r stored. unfold _get_Y_bus, bind, get_ppci.
  destruct (recycle_Ybus recycle) eqn:Hr; simpl.
  - destruct (mat_size ext (Ybus (internal (w_ppci w))) =? 0) eqn:Hs; simpl.
    + right. apply Nat.eqb_eq in Hs. repeat split; auto.
    + left. apply Nat.eqb_neq in Hs. repeat split; auto.
  - right. repeat split; auto.
Qed.

(** *** The dispatcher *)

(** C8. The dispatcher raises the unsupported-algorithm error, with no
    call made and the state untouched, for every [PF_ALG] other than 2, 3
    and 4; for 2 and 3 (the fast-decoupled variants) it builds the B
    matrices and then calls the fast-decoupled kernel; for 4 it calls the
    Gauss-Seidel kernel only. ["nr"] is a key of the algorithm table, with
    value 1, so it reaches the dispatcher and is refused there. *)
Theorem call_power_flow_function_dispatch (base : num)
    (bus0 : list (BusRow num)) (branch0 : Branch) (Y : Matrix) (Sbus V0 : Vec)
    (ref0 pv0 pq0 : list nat) (ppopt : Ppopt num) (w : world) :
  let r := _call_power_flow_function ext base bus0 branch0 Y Sbus V0
             ref0 pv0 pq0 ppopt w in
  let alg := PF_ALG ppopt in
  algorithm_pypower_dict "nr" = Ret 1%Z /\
  ((alg <> 2%Z /\ alg <> 3%Z /\ alg <> 4%Z /\
    r = (Raise ValueError_algorithm, w))
   \/
   ((alg = 2%Z \/ alg = 3%Z) /\
    r.1 = Ret (fdpf ext Y Sbus V0
                 (makeB ext base bus0 (real ext branch0) alg).1
                 (makeB ext base bus0 (real ext branch0) alg).2
                 ref0 pv0 pq0 ppopt) /\
    w_calls r.2 = w_calls w ++ [call_makeB; call_fdpf] /\
    w_ppci r.2 = w_ppci w)
   \/
   (alg = 4%Z /\
    r.1 = Ret (gausspf ext Y Sbus V0 ref0 pv0 pq0 ppopt) /\
    w_calls r.2 = w_calls w ++ [call_gausspf] /\
    w_ppci r.2 = w_ppci w)).
Proof.
  intros r alg. subst r alg. split; [reflexivity|].
  unfold _call_power_flow_function, bind, called, ret, raise.
  destruct (PF_ALG ppopt =? 2)%Z eqn:H2; simpl.
  { apply Z.eqb_eq in H2. right; left. rewrite <- app_assoc. simpl. auto. }
  destruct (PF_ALG ppopt =? 3)%Z eqn:H3; simpl.
  { apply Z.eqb_eq in H3. right; left. rewrite <- app_assoc. simpl. auto. }
  destruct (PF_ALG ppopt =? 4)%Z eqn:H4; simpl.
  { apply Z.eqb_eq in H4. right; right. auto. }
  apply Z.eqb_neq in H2, H3, H4. left. auto.
Qed.

(** *** The top-level run *)

(** C1 (defect of the code). With the DC formulation selected and an
    algorithm name of the table, the top-level run performs the one DC
    solve and then stops with [UnboundLocalError]: [bus], [gen] and
    [branch] are read on line 66 and only the AC branch binds them. No
    success flag is returned and no result is stored. *)
Theorem runpf_pypower_dc_raises (fuel : nat) (options : Options num)
    (alg : Z) (w : world) :
  ac options = false ->
  algorithm_pypower_dict (algorithm options) = Ret alg ->
  exists w',
    _runpf_pypower ext fuel options w = (Raise UnboundLocalError, w') /\
    w_calls w' = w_calls w ++ [call_run_dc_pf] /\
    w_ppci w' = _run_dc_pf ext (w_ppci w).
Proof.
  intros Hac Halg.
  unfold _runpf_pypower, _get_options, bind, lift, time.
  rewrite Halg, Hac.
  destruct (w_clock w) as [|t0 [|t1 ts]] eqn:Hclock; simpl; rewrite ?Hclock;
    eexists; (split; [reflexivity|]); simpl; auto.
Qed.

(** *** Fixing the largest violation *)

(** C3 (defect of the code). When the largest violation is that of the
    first generator below its lower limit, so that [argmax] returns
    [len(mx)], the test [k > len(mx)] fails and [mx[k]] is read out of
    range: the selection raises [IndexError] instead of choosing that
    generator. *)
Theorem fix_largest_first_under_limit (gen0 gmx gmn : list (GenRow num))
    (mx mn : list nat) (w : world) :
  rows gen0 mx = Ret gmx ->
  rows gen0 mn = Ret gmn ->
  argmax (map (fun g => sub (QG g) (QMAX g)) gmx ++
          map (fun g => sub (QMIN g) (QG g)) gmn) = Ret (length mx) ->
  fix_largest gen0 mx mn w = (Raise IndexError, w).
Proof.
  intros Hmx Hmn Hk. unfold fix_largest, bind, lift.
  rewrite Hmx, Hmn, Hk.
  replace (length mx <? length mx) with false by (symmetry; apply Nat.ltb_irrefl).
  unfold index. rewrite lookup_ge_None_2 by lia. reflexivity.
Qed.

(** *** The two arrays under the setters *)

Lemma set_PD_QD_demand (b : BusRow num) : set_PD_QD b (demand b) = b.
Proof. by destruct b. Qed.

Lemma demand_set_PD_QD (b : BusRow num) (d : num * num) :
  demand (set_PD_QD b d) = d.
Proof. by destruct d. Qed.

Lemma set_PD_QD_twice (b : BusRow num) (d d' : num * num) :
  set_PD_QD (set_PD_QD b d) d' = set_PD_QD b d'.
Proof. reflexivity. Qed.

Lemma shift_all_cons (op : num -> num -> num) (d x : num * num)
    (l : list (num * num)) :
  shift_all op d (x :: l) = shift_all op (op d.1 x.1, op d.2 x.2) l.
Proof. reflexivity. Qed.

Lemma shift_all_app (op : num -> num -> num) (d : num * num)
    (l1 l2 : list (num * num)) :
  shift_all op d (l1 ++ l2) = shift_all op (shift_all op d l1) l2.
Proof. apply foldl_app. Qed.

(** [outputs_at] reads the columns [GEN_BUS] and [PG] of the selected
    generators and the entries of [q] at their indices, nothing else. *)
Lemma outputs_at_ext (gen1 gen2 : list (GenRow num)) (q1 q2 : list num)
    (sel : list nat) (bi : nat) :
  (forall i, i ∈ sel ->
     (fun g => (GEN_BUS g, PG g)) <$> gen1 !! i =
     (fun g => (GEN_BUS g, PG g)) <$> gen2 !! i) ->
  (forall i, i ∈ sel -> q1 !! i = q2 !! i) ->
  outputs_at gen1 q1 sel bi = outputs_at gen2 q2 sel bi.
Proof.
  intros Hg Hq. unfold outputs_at. apply list_omap_ext, Forall2_same_length_lookup_2.
  { reflexivity. }
  intros k i j Hi Hj. assert (j = i) as -> by congruence.
  assert (i ∈ sel) as Hin by (eapply list_elem_of_lookup_2; eassumption).
  unfold output_at. rewrite (Hq i Hin). specialize (Hg i Hin).
  destruct (gen1 !! i) as [g1|], (gen2 !! i) as [g2|]; simpl in Hg;
    try discriminate; [|reflexivity].
  injection Hg as Hb Hp. by rewrite Hb, Hp.
Qed.

Lemma outputs_at_app (gen0 : list (GenRow num)) (q : list num)
    (l1 l2 : list nat) (bi : nat) :
  outputs_at gen0 q (l1 ++ l2) bi = outputs_at gen0 q l1 bi ++ outputs_at gen0 q l2 bi.
Proof. unfold outputs_at. apply omap_app. Qed.

(** *** One generator taken out of service, and put back *)

Lemma turn_off_Ret (i : nat) (w w' : world) (u : unit) :
  turn_off i w = (Ret u, w') ->
  exists g b,
    gen (w_ppci w) !! i = Some g /\
    bus (w_ppci w) !! GEN_BUS g = Some b /\
    gen (w_ppci w') = <[i := set_GEN_STATUS g 0%Z]> (gen (w_ppci w)) /\
    bus (w_ppci w') =
      <[GEN_BUS g := set_PD_QD b (sub (PD b) (PG g), sub (QD b) (QG g))]>
        (bus (w_ppci w)) /\
    only_bus_gen w w'.
Proof.
  unfold turn_off, bind, get_gen, get_bus, set_gen, set_bus, lift, index.
  destruct (gen (w_ppci w) !! i) as [g|] eqn:Hg; [|discriminate]. simpl.
  destruct (bus (w_ppci w) !! GEN_BUS g) as [b|] eqn:Hb; [|discriminate].
  intros [= ? <-]. exists g, b. simpl. by repeat split.
Qed.

Lemma turn_off_outcome (i : nat) (w : world) :
  (turn_off i w).1 = Ret tt \/ (turn_off i w).1 = Raise IndexError.
Proof.
  unfold turn_off, bind, get_gen, get_bus, set_gen, set_bus, lift, index.
  destruct (gen (w_ppci w) !! i) as [g|]; [|by right]. simpl.
  destruct (bus (w_ppci w) !! GEN_BUS g) as [b|]; [by left|by right].
Qed.

Lemma turn_on_Ret (i : nat) (w w' : world) (u : unit) :
  turn_on i w = (Ret u, w') ->
  exists g b,
    gen (w_ppci w) !! i = Some g /\
    bus (w_ppci w) !! GEN_BUS g = Some b /\
    gen (w_ppci w') = <[i := set_GEN_STATUS g 1%Z]> (gen (w_ppci w)) /\
    bus (w_ppci w') =
      <[GEN_BUS g := set_PD_QD b (add (PD b) (PG g), add (QD b) (QG g))]>
        (bus (w_ppci w)) /\
    only_bus_gen w w'.
Proof.
  unfold turn_on, bind, get_gen, get_bus, set_gen, set_bus, lift, index.
  destruct (gen (w_ppci w) !! i) as [g|] eqn:Hg; [|discriminate]. simpl.
  destruct (bus (w_ppci w) !! GEN_BUS g) as [b|] eqn:Hb; [|discriminate].
  intros [= ? <-]. exists g, b. simpl. by repeat split.
Qed.

Lemma for_each_outcome {X} (body : X -> M world unit) (l : list X) (w : world) :
  (forall x w, (body x w).1 = Ret tt \/ (body x w).1 = Raise IndexError) ->
  (for_each l body w).1 = Ret tt \/ (for_each l body w).1 = Raise IndexError.
Proof.
  intros Hbody. revert w. induction l as [|x l IH]; intros w; simpl; [by left|].
  unfold bind. destruct (Hbody x w) as [H|H]; destruct (body x w) as [[[]| |] w1];
    simpl in H; try discriminate.
  - apply IH.
  - right. simpl. congruence.
Qed.

Lemma only_bus_gen_refl (w : world) : only_bus_gen w w.
Proof. by repeat split. Qed.

Lemma only_bus_gen_trans (w1 w2 w3 : world) :
  only_bus_gen w1 w2 -> only_bus_gen w2 w3 -> only_bus_gen w1 w3.
Proof.
  unfold only_bus_gen. intros (?&?&?&?&?) (?&?&?&?&?). repeat split; congruence.
Qed.

(** *** A whole selection taken out of service, or put back *)

(** Both loops over generators ([for i in mx], [for i in limited]) write
    a status [s] and move the output of the generator onto its bus with
    [op]; this is what they leave behind when they run to their end. *)
Lemma for_each_switch (body : nat -> M world unit) (op : num -> num -> num)
    (s : Z) :
  (forall i w w' u, body i w = (Ret u, w') ->
     exists g b,
       gen (w_ppci w) !! i = Some g /\
       bus (w_ppci w) !! GEN_BUS g = Some b /\
       gen (w_ppci w') = <[i := set_GEN_STATUS g s]> (gen (w_ppci w)) /\
       bus (w_ppci w') =
         <[GEN_BUS g := set_PD_QD b (op (PD b) (PG g), op (QD b) (QG g))]>
           (bus (w_ppci w)) /\
       only_bus_gen w w') ->
  forall sel w w' u,
    for_each sel body w = (Ret u, w') ->
    only_bus_gen w w' /\
    (forall j, j ∉ sel -> gen (w_ppci w') !! j = gen (w_ppci w) !! j) /\
    (forall j, j ∈ sel ->
       exists g, gen (w_ppci w) !! j = Some g /\
                 gen (w_ppci w') !! j = Some (set_GEN_STATUS g s) /\
                 GEN_BUS g < length (bus (w_ppci w))) /\
    (forall bi,
       bus (w_ppci w') !! bi =
       (fun b => set_PD_QD b
                   (shift_all op (demand b)
                      (outputs_at (gen (w_ppci w)) (map QG (gen (w_ppci w))) sel bi)))
         <$> bus (w_ppci w) !! bi).
Proof.
  intros Hbody sel. induction sel as [|i sel IH]; intros w w' u Hrun.
  - simpl in Hrun. injection Hrun as _ <-.
    split; [apply only_bus_gen_refl|]. split; [done|]. split.
    + intros j Hj. by apply elem_of_nil in Hj.
    + intros bi. unfold outputs_at. simpl.
      destruct (bus (w_ppci w) !! bi) as [b|]; simpl; [|done].
      by rewrite set_PD_QD_demand.
  - simpl in Hrun. apply bind_Ret_inv in Hrun as (a & w1 & Hi & Hrest).
    apply Hbody in Hi as (g & b & Hg & Hb & Hgen1 & Hbus1 & Hobg1).
    apply IH in Hrest as (Hobg & Hout & Hin & Hbus).
    assert (Hilt : i < length (gen (w_ppci w))) by (eapply lookup_lt_Some; eauto).
    assert (Hblt : GEN_BUS g < length (bus (w_ppci w))) by (eapply lookup_lt_Some; eauto).
    assert (Hcols : forall k,
      (fun g => (GEN_BUS g, PG g)) <$> gen (w_ppci w1) !! k =
      (fun g => (GEN_BUS g, PG g)) <$> gen (w_ppci w) !! k).
    { intros k. rewrite Hgen1. destruct (decide (i = k)) as [<-|Hne].
      - rewrite list_lookup_insert_eq by done. by rewrite Hg.
      - by rewrite list_lookup_insert_ne. }
    assert (Hq : forall k,
      map QG (gen (w_ppci w1)) !! k = map QG (gen (w_ppci w)) !! k).
    { intros k. rewrite !list_lookup_fmap, Hgen1.
      destruct (decide (i = k)) as [<-|Hne].
      - rewrite list_lookup_insert_eq by done. by rewrite Hg.
      - by rewrite list_lookup_insert_ne. }
    split; [eapply only_bus_gen_trans; eauto|]. split; [|split].
    + intros j Hj. apply not_elem_of_cons in Hj as [Hji Hj].
      rewrite Hout by done. rewrite Hgen1. by apply list_lookup_insert_ne.
    + intros j Hj. destruct (decide (j ∈ sel)) as [Hjs|Hjs].
      * destruct (Hin j Hjs) as (g1 & Hg1 & Hg1' & Hlt1).
        rewrite Hbus1, length_insert in Hlt1. rewrite Hgen1 in Hg1.
        destruct (decide (i = j)) as [<-|Hne].
        -- rewrite list_lookup_insert_eq in Hg1 by done. injection Hg1 as <-.
           exists g. by repeat split.
        -- rewrite list_lookup_insert_ne in Hg1 by done. exists g1. by repeat split.
      * apply elem_of_cons in Hj as [->|Hj]; [|done].
        exists g. repeat split; [done| |done].
        rewrite Hout by done. rewrite Hgen1. by apply list_lookup_insert_eq.
    + intros bi. rewrite Hbus.
      rewrite (outputs_at_ext (gen (w_ppci w1)) (gen (w_ppci w))
                 (map QG (gen (w_ppci w1))) (map QG (gen (w_ppci w))) sel bi)
        by (intros; auto).
      unfold outputs_at at 2. csimpl. unfold output_at at 1.
      rewrite Hg, list_lookup_fmap, Hg. simpl.
      rewrite Hbus1. fold (outputs_at (gen (w_ppci w)) (map QG (gen (w_ppci w))) sel bi).
      destruct (decide (GEN_BUS g = bi)) as [<-|Hne].
      * rewrite list_lookup_insert_eq by done. rewrite Hb. simpl.
        by rewrite set_PD_QD_twice, demand_set_PD_QD.
      * by rewrite list_lookup_insert_ne.
Qed.

Lemma turn_off_all (sel : list nat) (w w' : world) (u : unit) :
  for_each sel turn_off w = (Ret u, w') ->
  only_bus_gen w w' /\
  (forall j, j ∉ sel -> gen (w_ppci w') !! j = gen (w_ppci w) !! j) /\
  (forall j, j ∈ sel ->
     exists g, gen (w_ppci w) !! j = Some g /\
               gen (w_ppci w') !! j = Some (set_GEN_STATUS g 0%Z) /\
               GEN_BUS g < length (bus (w_ppci w))) /\
  (forall bi,
     bus (w_ppci w') !! bi =
     (fun b => set_PD_QD b
                 (sub_all (demand b)
                    (outputs_at (gen (w_ppci w)) (map QG (gen (w_ppci w))) sel bi)))
       <$> bus (w_ppci w) !! bi).
Proof. apply (for_each_switch turn_off sub 0%Z). apply turn_off_Ret. Qed.

Lemma turn_on_all (sel : list nat) (w w' : world) (u : unit) :
  for_each sel turn_on w = (Ret u, w') ->
  only_bus_gen w w' /\
  (forall j, j ∉ sel -> gen (w_ppci w') !! j = gen (w_ppci w) !! j) /\
  (forall j, j ∈ sel ->
     exists g, gen (w_ppci w) !! j = Some g /\
               gen (w_ppci w') !! j = Some (set_GEN_STATUS g 1%Z) /\
               GEN_BUS g < length (bus (w_ppci w))) /\
  (forall bi,
     bus (w_ppci w') !! bi =
     (fun b => set_PD_QD b
                 (add_all (demand b)
                    (outputs_at (gen (w_ppci w)) (map QG (gen (w_ppci w))) sel bi)))
       <$> bus (w_ppci w) !! bi).
Proof. apply (for_each_switch turn_on add 1%Z). apply turn_on_Ret. Qed.

(** *** The blocks of the conversion *)

Lemma save_limits_spec (fq : list num) (mx mn : list nat) (w : world) :
  (exists fq',
     save_limits fq mx mn w = (Ret fq', w) /\
     length fq' = length fq /\
     (forall j, j ∈ mx ++ mn ->
        j < length fq /\ is_Some (gen (w_ppci w) !! j) /\
        fq' !! j = binding_limit (gen (w_ppci w)) mx mn j) /\
     (forall j, j ∉ mx ++ mn -> fq' !! j = fq !! j))
  \/ save_limits fq mx mn w = (Raise IndexError, w).
Proof.
  unfold save_limits, bind, get_gen, lift.
  destruct (rows_cases (map QMAX (gen (w_ppci w))) mx) as [[qmax Hqmax]|Hqmax];
    rewrite Hqmax; [|by right].
  destruct (assign_cases (fun _ v : num => v) mx qmax fq) as [[fq1 Hfq1]|Hfq1];
    rewrite Hfq1; [|by right].
  destruct (rows_cases (map QMIN (gen (w_ppci w))) mn) as [[qmin Hqmin]|Hqmin];
    rewrite Hqmin; [|by right].
  destruct (assign_cases (fun _ v : num => v) mn qmin fq1) as [[fq2 Hfq2]|Hfq2];
    rewrite Hfq2; [|by right].
  left. exists fq2. split; [done|].
  pose proof (assign_length _ _ _ _ _ Hfq1) as Hlen1.
  pose proof (assign_length _ _ _ _ _ Hfq2) as Hlen2.
  pose proof (proj1 (assign_inv _ _ _ _ _ Hfq1)) as Hin1.
  pose proof (proj1 (assign_inv _ _ _ _ _ Hfq2)) as Hin2.
  pose proof (rows_in_range _ _ _ Hqmax) as Hgx.
  pose proof (rows_in_range _ _ _ Hqmin) as Hgn.
  rewrite length_map in Hgx, Hgn.
  apply rows_Forall2 in Hqmax, Hqmin.
  pose proof (assign_lookup (fun _ v : num => v)
    (fun i v => map QMAX (gen (w_ppci w)) !! i = Some v) mx qmax fq fq1
    ltac:(done) ltac:(congruence) Hqmax Hfq1) as L1.
  pose proof (assign_lookup (fun _ v : num => v)
    (fun i v => map QMIN (gen (w_ppci w)) !! i = Some v) mn qmin fq1 fq2
    ltac:(done) ltac:(congruence) Hqmin Hfq2) as L2.
  rewrite Forall_forall in Hin1, Hin2, Hgx, Hgn.
  split; [congruence|]. split.
  - intros j Hj. unfold binding_limit.
    destruct (decide (j ∈ mn)) as [Hn|Hn].
    + specialize (Hin2 j Hn). specialize (Hgn j Hn).
      destruct (lookup_lt_is_Some_2 _ _ Hgn) as [g Hg].
      destruct (lookup_lt_is_Some_2 _ _ Hin2) as [q Hq].
      split; [lia|]. split; [by eexists|].
      rewrite (proj2 (L2 j) Hn (QMIN g)) by (by rewrite list_lookup_fmap, Hg).
      by rewrite Hq, Hg.
    + apply elem_of_app in Hj as [Hx|?]; [|done].
      rewrite decide_True by done.
      specialize (Hin1 j Hx). specialize (Hgx j Hx).
      destruct (lookup_lt_is_Some_2 _ _ Hgx) as [g Hg].
      destruct (lookup_lt_is_Some_2 _ _ Hin1) as [q Hq].
      split; [lia|]. split; [by eexists|].
      rewrite (proj1 (L2 j) Hn).
      rewrite (proj2 (L1 j) Hx (QMAX g)) by (by rewrite list_lookup_fmap, Hg).
      by rewrite Hq, Hg.
  - intros j Hj. apply not_elem_of_app in Hj as [Hx Hn].
    by rewrite (proj1 (L2 j) Hn), (proj1 (L1 j) Hx).
Qed.

Lemma set_QG_twice (g : GenRow num) (q : num) : set_QG (set_QG g q) q = set_QG g q.
Proof. reflexivity. Qed.

Lemma take_out_of_service_outcome (fq : list num) (sel : list nat) (w : world) :
  (take_out_of_service fq sel w).1 = Ret tt \/
  (take_out_of_service fq sel w).1 = Raise IndexError.
Proof.
  unfold take_out_of_service, bind, get_gen, lift, set_gen.
  destruct (rows_cases fq sel) as [[fqs ->]| ->]; [|by right].
  destruct (assign_cases set_QG sel fqs (gen (w_ppci w))) as [[gen1 ->]| ->];
    [|by right].
  match goal with |- context [for_each sel turn_off ?w1] =>
    pose proof (for_each_outcome turn_off sel w1 turn_off_outcome) as H;
    destruct (for_each sel turn_off w1) as [[[]| |] w2] end;
    simpl in *; destruct H; auto; discriminate.
Qed.

(** Lines 195-199 and lines 217-221 have one shape: [Qg] of the
    selection is set from [fq], then a loop over the selection writes a
    status and moves each output onto its bus. *)
Lemma limit_and_switch_Ret (body : nat -> M world unit)
    (op : num -> num -> num) (s : Z) (fq : list num) (sel : list nat)
    (w w' : world) (u : unit) :
  (forall i w w' u, body i w = (Ret u, w') ->
     exists g b,
       gen (w_ppci w) !! i = Some g /\
       bus (w_ppci w) !! GEN_BUS g = Some b /\
       gen (w_ppci w') = <[i := set_GEN_STATUS g s]> (gen (w_ppci w)) /\
       bus (w_ppci w') =
         <[GEN_BUS g := set_PD_QD b (op (PD b) (PG g), op (QD b) (QG g))]>
           (bus (w_ppci w)) /\
       only_bus_gen w w') ->
  (let* gen := get_gen in
   let* fq := lift (rows fq sel) in
   let* gen := lift (assign set_QG sel fq gen) in
   set_gen gen ;;
   for_each sel body) w = (Ret u, w') ->
  only_bus_gen w w' /\
  (forall j, j ∉ sel -> gen (w_ppci w') !! j = gen (w_ppci w) !! j) /\
  (forall j, j ∈ sel ->
     exists g q, gen (w_ppci w) !! j = Some g /\ fq !! j = Some q /\
       gen (w_ppci w') !! j = Some (set_GEN_STATUS (set_QG g q) s) /\
       GEN_BUS g < length (bus (w_ppci w))) /\
  (forall bi,
     bus (w_ppci w') !! bi =
     (fun b => set_PD_QD b
                 (shift_all op (demand b) (outputs_at (gen (w_ppci w)) fq sel bi)))
       <$> bus (w_ppci w) !! bi).
Proof.
  intros Hbody Hrun.
  apply bind_Ret_inv in Hrun as (gen0 & w0 & Hget & Hrun).
  injection Hget as <- <-.
  apply bind_Ret_inv in Hrun as (fqs & w0 & Hfqs & Hrun).
  apply lift_inv in Hfqs as [Hfqs <-].
  apply bind_Ret_inv in Hrun as (gen1 & w0 & Hgen1 & Hrun).
  apply lift_inv in Hgen1 as [Hgen1 <-].
  apply bind_Ret_inv in Hrun as ([] & w1 & Hset & Hrun).
  injection Hset as <-.
  apply (for_each_switch body op s Hbody) in Hrun as (Hobg & Hout & Hin & Hbus).
  simpl in *.
  pose proof (proj1 (assign_inv _ _ _ _ _ Hgen1)) as Hrange.
  rewrite Forall_forall in Hrange.
  apply rows_Forall2 in Hfqs.
  assert (Hfun : forall (i : nat) (v v' : num),
            fq !! i = Some v -> fq !! i = Some v' -> v = v') by (intros; congruence).
  pose proof (assign_lookup set_QG (fun i v => fq !! i = Some v) sel fqs
    (gen (w_ppci w)) gen1 set_QG_twice Hfun Hfqs Hgen1) as L.
  assert (Hfq : forall j, j ∈ sel -> is_Some (fq !! j)).
  { intros j Hj. apply list_elem_of_lookup in Hj as [k Hk].
    destruct (Forall2_lookup_l _ _ _ _ _ Hfqs Hk) as (q & _ & Hq). by eexists. }
  split; [exact Hobg|]. split; [|split].
  - intros j Hj. rewrite Hout by done. apply (proj1 (L j) Hj).
  - intros j Hj. destruct (Hin j Hj) as (g1 & Hg1 & Hg1' & Hlt).
    destruct (Hfq j Hj) as [q Hq].
    rewrite (proj2 (L j) Hj q Hq) in Hg1.
    destruct (gen (w_ppci w) !! j) as [g|] eqn:Hg; [|discriminate].
    injection Hg1 as <-. exists g, q. by repeat split.
  - intros bi. rewrite Hbus. f_equal.
    assert (outputs_at gen1 (map QG gen1) sel bi =
            outputs_at (gen (w_ppci w)) fq sel bi) as ->; [|done].
    apply outputs_at_ext.
    + intros i Hi. destruct (Hfq i Hi) as [q Hq].
      rewrite (proj2 (L i) Hi q Hq). by destruct (gen (w_ppci w) !! i).
    + intros i Hi. destruct (Hfq i Hi) as [q Hq].
      rewrite list_lookup_fmap, (proj2 (L i) Hi q Hq), Hq.
      destruct (lookup_lt_is_Some_2 _ _ (Hrange i Hi)) as [g ->]. done.
Qed.

Lemma take_out_of_service_Ret (fq : list num) (sel : list nat) (w w' : world)
    (u : unit) :
  take_out_of_service fq sel w = (Ret u, w') ->
  only_bus_gen w w' /\
  (forall j, j ∉ sel -> gen (w_ppci w') !! j = gen (w_ppci w) !! j) /\
  (forall j, j ∈ sel ->
     exists g q, gen (w_ppci w) !! j = Some g /\ fq !! j = Some q /\
       gen (w_ppci w') !! j = Some (set_GEN_STATUS (set_QG g q) 0%Z) /\
       GEN_BUS g < length (bus (w_ppci w))) /\
  (forall bi,
     bus (w_ppci w') !! bi =
     (fun b => set_PD_QD b
                 (sub_all (demand b) (outputs_at (gen (w_ppci w)) fq sel bi)))
       <$> bus (w_ppci w) !! bi).
Proof. apply (limit_and_switch_Ret turn_off sub 0%Z), turn_off_Ret. Qed.

Lemma restore_limited_Ret (lv : LoopVars num) (w w' : world) (u : unit) :
  restore_limited lv w = (Ret u, w') ->
  only_bus_gen w w' /\
  (forall j, j ∉ limited lv -> gen (w_ppci w') !! j = gen (w_ppci w) !! j) /\
  (forall j, j ∈ limited lv ->
     exists g q, gen (w_ppci w) !! j = Some g /\ fixedQg lv !! j = Some q /\
       gen (w_ppci w') !! j = Some (set_GEN_STATUS (set_QG g q) 1%Z) /\
       GEN_BUS g < length (bus (w_ppci w))) /\
  (forall bi,
     bus (w_ppci w') !! bi =
     (fun b => set_PD_QD b
                 (add_all (demand b)
                    (outputs_at (gen (w_ppci w)) (fixedQg lv) (limited lv) bi)))
       <$> bus (w_ppci w) !! bi).
Proof.
  unfold restore_limited. destruct (limited lv) as [|i l] eqn:Hl.
  - simpl. intros [= _ <-]. split; [apply only_bus_gen_refl|]. split; [done|].
    split; [by intros j ?%elem_of_nil|]. intros bi. unfold outputs_at. simpl.
    destruct (bus (w_ppci w) !! bi); simpl; [|done]. by rewrite set_PD_QD_demand.
  - change (0 <? length (i :: l)) with true. cbv iota.
    apply (limit_and_switch_Ret turn_on add 1%Z), turn_on_Ret.
Qed.

Lemma check_slacks_spec (ref0 : list nat) (sel : list nat) (w : world) :
  let r := check_slacks ref0 sel w in
  let bus0 := bus (w_ppci w) in
  let gen0 := gen (w_ppci w) in
  r.2 = w /\
  ((r.1 = Ret tt /\ ~ (1 < length ref0 /\ on_slack bus0 gen0 sel)) \/
   (r.1 = Raise ValueError_multiple_slacks /\
    1 < length ref0 /\ on_slack bus0 gen0 sel) \/
   (r.1 = Raise IndexError /\ 1 < length ref0 /\ ~ placed bus0 gen0 sel)).
Proof.
  intros r bus0 gen0. subst r.
  unfold check_slacks, bind, get_gen, get_bus, lift, ret, raise. simpl.
  fold bus0 gen0.
  destruct (1 <? length ref0) eqn:Href.
  2:{ apply Nat.ltb_ge in Href. simpl. split; [done|]. left. split; [done|].
      intros [? _]. lia. }
  apply Nat.ltb_lt in Href.
  destruct (rows_cases (map GEN_BUS gen0) sel) as [[gb Hgb]|Hgb]; rewrite Hgb.
  2:{ simpl. split; [done|]. right; right. repeat split; [done|].
      intros Hp. destruct (rows_total (map GEN_BUS gen0) sel) as [gb Hgb'];
        [|congruence].
      apply Forall_forall. intros i Hi. destruct (Hp i Hi) as (g & b & Hg & _).
      rewrite length_map. eapply lookup_lt_Some, Hg. }
  apply rows_Forall2 in Hgb.
  destruct (rows_cases (map BUS_TYPE bus0) gb) as [[bt Hbt]|Hbt]; rewrite Hbt.
  2:{ simpl. split; [done|]. right; right. repeat split; [done|].
      intros Hp. destruct (rows_total (map BUS_TYPE bus0) gb) as [bt Hbt'];
        [|congruence].
      apply Forall_forall. intros b Hb.
      apply list_elem_of_lookup in Hb as [k Hk].
      destruct (Forall2_lookup_r _ _ _ _ _ Hgb Hk) as (i & Hi & Hib).
      destruct (Hp i) as (g & b' & Hg & Hb');
        [by eapply list_elem_of_lookup_2|].
      rewrite list_lookup_fmap, Hg in Hib. injection Hib as <-.
      rewrite length_map. eapply lookup_lt_Some, Hb'. }
  apply rows_Forall2 in Hbt. simpl.
  destruct (existsb (fun t => bool_decide (t = REF)) bt) eqn:Hex; simpl;
    (split; [done|]).
  - right; left. repeat split; [done|].
    apply List.existsb_exists in Hex as (t & Ht & Heq).
    apply bool_decide_eq_true in Heq as ->.
    apply list_elem_of_In, list_elem_of_lookup in Ht as [k Hk].
    destruct (Forall2_lookup_r _ _ _ _ _ Hbt Hk) as (b & Hb & Hbt').
    destruct (Forall2_lookup_r _ _ _ _ _ Hgb Hb) as (i & Hi & Hib).
    rewrite list_lookup_fmap in Hib. rewrite list_lookup_fmap in Hbt'.
    destruct (gen0 !! i) as [g|] eqn:Hg; [|discriminate]. injection Hib as <-.
    destruct (bus0 !! GEN_BUS g) as [brow|] eqn:Hbrow; [|discriminate].
    injection Hbt' as Htype.
    exists i, g, brow. repeat split; auto. by eapply list_elem_of_lookup_2.
  - left. split; [done|]. intros [_ (i & g & brow & Hi & Hg & Hbrow & Htype)].
    apply list_elem_of_lookup in Hi as [k Hk].
    destruct (Forall2_lookup_l _ _ _ _ _ Hgb Hk) as (b & Hb & Hib).
    destruct (Forall2_lookup_l _ _ _ _ _ Hbt Hb) as (t & Ht & Hbt').
    rewrite list_lookup_fmap, Hg in Hib. injection Hib as <-.
    rewrite list_lookup_fmap, Hbrow in Hbt'. injection Hbt' as <-.
    assert (existsb (fun t => bool_decide (t = REF)) bt = true); [|congruence].
    apply List.existsb_exists. exists (BUS_TYPE brow). split.
    + apply list_elem_of_In. by eapply list_elem_of_lookup_2.
    + by apply bool_decide_eq_true.
Qed.

Lemma set_BUS_TYPE_twice (b : BusRow num) (t : BusType) :
  set_BUS_TYPE (set_BUS_TYPE b t) t = set_BUS_TYPE b t.
Proof. reflexivity. Qed.

Lemma reclassify_outcome (lv : LoopVars num) (fq : list num) (sel : list nat)
    (w : world) :
  (exists lv', (reclassify ext lv fq sel w).1 = Ret lv') \/
  (reclassify ext lv fq sel w).1 = Raise IndexError.
Proof.
  unfold reclassify, bind, get_gen, get_bus, lift, set_bus, ret.
  destruct (rows_cases (map GEN_BUS (gen (w_ppci w))) sel) as [[gb ->]| ->];
    [|by right].
  destruct (assign_cases set_BUS_TYPE gb (replicate (length gb) PQ)
              (bus (w_ppci w))) as [[bus1 ->]| ->]; [|by right].
  left. by eexists.
Qed.

Lemma reclassify_Ret (lv lv' : LoopVars num) (fq : list num) (sel : list nat)
    (w w' : world) :
  reclassify ext lv fq sel w = (Ret lv', w') ->
  only_bus_gen w w' /\
  gen (w_ppci w') = gen (w_ppci w) /\
  limited lv' = limited lv ++ sel /\
  fixedQg lv' = fq /\
  (ref lv', pv lv', pq lv') = bustypes ext (bus (w_ppci w')) (gen (w_ppci w')) /\
  exists gb,
    Forall2 (fun i b => GEN_BUS <$> gen (w_ppci w) !! i = Some b) sel gb /\
    forall bi,
      (bi ∉ gb -> bus (w_ppci w') !! bi = bus (w_ppci w) !! bi) /\
      (bi ∈ gb ->
       bus (w_ppci w') !! bi = (fun b => set_BUS_TYPE b PQ) <$> bus (w_ppci w) !! bi).
Proof.
  unfold reclassify. intros Hrun.
  apply bind_Ret_inv in Hrun as (gen0 & w0 & Hget & Hrun). injection Hget as <- <-.
  apply bind_Ret_inv in Hrun as (bus0 & w0 & Hget & Hrun). injection Hget as <- <-.
  apply bind_Ret_inv in Hrun as (gb & w0 & Hgb & Hrun).
  apply lift_inv in Hgb as [Hgb <-].
  apply bind_Ret_inv in Hrun as (bus1 & w0 & Hbus1 & Hrun).
  apply lift_inv in Hbus1 as [Hbus1 <-].
  apply bind_Ret_inv in Hrun as ([] & w1 & Hset & Hrun). injection Hset as <-.
  injection Hrun as <- <-. simpl.
  split; [by repeat split|]. split; [done|]. split; [done|]. split; [done|].
  split; [by destruct (bustypes ext bus1 (gen (w_ppci w))) as [[? ?] ?]|].
  exists gb. split.
  - apply rows_Forall2 in Hgb. eapply Forall2_impl; [exact Hgb|].
    simpl. intros i b. by rewrite list_lookup_fmap.
  - assert (HR : Forall2 (fun (_ : nat) (t : BusType) => t = PQ) gb
                   (replicate (length gb) PQ)).
    { apply Forall2_replicate_r; [reflexivity|]. apply Forall_forall. by intros. }
    assert (Hfun : forall (i : nat) (v v' : BusType), v = PQ -> v' = PQ -> v = v')
      by congruence.
    pose proof (assign_lookup set_BUS_TYPE (fun _ t => t = PQ) gb _
      (bus (w_ppci w)) bus1 set_BUS_TYPE_twice Hfun HR Hbus1) as L.
    intros bi. split; [apply (L bi)|]. intros Hbi. by apply (proj2 (L bi) Hbi).
Qed.

(** *** The conversion as a whole *)

Lemma on_slack_take_out (fq : list num) (sel : list nat) (w w1 : world) (u : unit) :
  take_out_of_service fq sel w = (Ret u, w1) ->
  (on_slack (bus (w_ppci w1)) (gen (w_ppci w1)) sel <->
   on_slack (bus (w_ppci w)) (gen (w_ppci w)) sel) /\
  placed (bus (w_ppci w1)) (gen (w_ppci w1)) sel /\
  map BUS_TYPE (bus (w_ppci w1)) = map BUS_TYPE (bus (w_ppci w)).
Proof.
  intros (Hobg & Hout & Hin & Hbus)%take_out_of_service_Ret.
  split; [split|split].
  - intros (i & g1 & b1 & Hi & Hg1 & Hb1 & Ht).
    destruct (Hin i Hi) as (g & q & Hg & _ & Hg' & _).
    rewrite Hg' in Hg1. injection Hg1 as <-. simpl in Hb1.
    rewrite Hbus in Hb1.
    destruct (bus (w_ppci w) !! GEN_BUS g) as [b|] eqn:Hb; [|discriminate].
    injection Hb1 as <-. exists i, g, b. by repeat split.
  - intros (i & g & b & Hi & Hg & Hb & Ht).
    destruct (Hin i Hi) as (g0 & q & Hg0 & _ & Hg' & _).
    assert (g0 = g) as -> by congruence.
    eexists i, _, _. split; [done|]. split; [exact Hg'|]. simpl.
    split; [by rewrite Hbus, Hb|done].
  - intros i Hi. destruct (Hin i Hi) as (g & q & Hg & _ & Hg' & Hlt).
    destruct (lookup_lt_is_Some_2 _ _ Hlt) as [b Hb].
    eexists _, _. split; [exact Hg'|]. simpl. by rewrite Hbus, Hb.
  - apply list_eq. intros bi. rewrite !list_lookup_fmap, Hbus.
    by destruct (bus (w_ppci w) !! bi).
Qed.

Lemma reclassify_total (lv : LoopVars num) (fq : list num) (sel : list nat)
    (w : world) :
  placed (bus (w_ppci w)) (gen (w_ppci w)) sel ->
  exists lv' w', reclassify ext lv fq sel w = (Ret lv', w').
Proof.
  intros Hp. unfold reclassify, bind, get_gen, get_bus, lift, set_bus, ret.
  destruct (rows_total (map GEN_BUS (gen (w_ppci w))) sel) as [gb Hgb].
  { apply Forall_forall. intros i Hi. destruct (Hp i Hi) as (g & b & Hg & _).
    rewrite length_map. eapply lookup_lt_Some, Hg. }
  rewrite Hgb.
  destruct (assign_total set_BUS_TYPE gb (replicate (length gb) PQ)
              (bus (w_ppci w))) as [bus1 Hbus1].
  { apply rows_Forall2 in Hgb. apply Forall_forall. intros b Hb.
    apply list_elem_of_lookup in Hb as [k Hk].
    destruct (Forall2_lookup_r _ _ _ _ _ Hgb Hk) as (i & Hi & Hib).
    destruct (Hp i) as (g & b' & Hg & Hb'); [by eapply list_elem_of_lookup_2|].
    rewrite list_lookup_fmap, Hg in Hib. injection Hib as <-.
    eapply lookup_lt_Some, Hb'. }
  rewrite Hbus1. by eexists _, _.
Qed.

(** The ways a conversion ends: an index out of range; or the limits are
    saved and the selection is out of service, and then either the guard
    fires, in that state, or it does not and the buses are reclassified. *)
Lemma convert_to_PQ_cases (lv : LoopVars num) (mx mn : list nat) (w : world) :
  let r := convert_to_PQ ext lv mx mn w in
  r.1 = Raise IndexError \/
  exists fq w1,
    save_limits (fixedQg lv) mx mn w = (Ret fq, w) /\
    take_out_of_service fq (mx ++ mn) w = (Ret tt, w1) /\
    ((r = (Raise ValueError_multiple_slacks, w1) /\
      1 < length (ref lv) /\
      on_slack (bus (w_ppci w)) (gen (w_ppci w)) (mx ++ mn))
     \/
     (~ (1 < length (ref lv) /\
         on_slack (bus (w_ppci w)) (gen (w_ppci w)) (mx ++ mn)) /\
      exists lv' w',
        r = (Ret lv', w') /\
        reclassify ext lv fq (mx ++ mn) w1 = (Ret lv', w'))).
Proof.
  intros r. subst r. unfold convert_to_PQ.
  destruct (save_limits_spec (fixedQg lv) mx mn w) as [(fq & Hsave & _)|Hsave].
  2:{ left. unfold bind. by rewrite Hsave. }
  rewrite (bind_Ret _ _ _ _ _ Hsave).
  pose proof (take_out_of_service_outcome fq (mx ++ mn) w) as Hout.
  destruct (take_out_of_service fq (mx ++ mn) w) as [[[]|e|] w1] eqn:Htake;
    simpl in Hout; destruct Hout as [Hout|Hout]; try discriminate.
  2:{ left. unfold bind at 1. rewrite Htake. simpl. congruence. }
  right. exists fq, w1. split; [done|]. split; [done|].
  rewrite (bind_Ret _ _ _ _ _ Htake).
  destruct (on_slack_take_out _ _ _ _ _ Htake) as (Hslack & Hplaced & _).
  destruct (check_slacks_spec (ref lv) (mx ++ mn) w1) as [Hw Hcheck].
  simpl in Hw, Hcheck.
  destruct (check_slacks (ref lv) (mx ++ mn) w1) as [o w2] eqn:Hc. simpl in *.
  subst w2. destruct Hcheck as [[-> Hno]|[[-> [Href Hon]]|[-> [_ Hnp]]]].
  - right. split; [by rewrite <- Hslack|].
    rewrite (bind_Ret _ _ _ _ _ Hc).
    destruct (reclassify_total lv fq (mx ++ mn) w1 Hplaced) as (lv' & w' & Hre).
    exists lv', w'. by rewrite Hre.
  - left. split; [|by rewrite <- Hslack]. unfold bind. by rewrite Hc.
  - contradiction.
Qed.

(** *** When no index is out of range *)

Lemma assign_frame {X Y Z'} (set : X -> Y -> X) (f : X -> Z') idx vals (l l' : list X) :
  (forall a v, f (set a v) = f a) ->
  assign set idx vals l = Ret l' -> map f l' = map f l.
Proof.
  intros Hf [_ ->]%assign_inv. revert l.
  induction (zip idx vals) as [|iv ivs IH]; intros l; simpl; [done|].
  rewrite IH. apply list_eq. intros k. rewrite !list_lookup_fmap.
  destruct (decide (iv.1 = k)) as [<-|Hne].
  - rewrite list_lookup_alter_eq. destruct (l !! iv.1); simpl; [|done].
    by rewrite Hf.
  - by rewrite list_lookup_alter_ne.
Qed.

Lemma placed_ext (bus1 bus2 : list (BusRow num)) (gen1 gen2 : list (GenRow num))
    (sel : list nat) :
  map GEN_BUS gen1 = map GEN_BUS gen2 -> length bus1 = length bus2 ->
  placed bus1 gen1 sel -> placed bus2 gen2 sel.
Proof.
  intros Hg Hb Hp i Hi. destruct (Hp i Hi) as (g & b & Hg1 & Hb1).
  assert (map GEN_BUS gen2 !! i = Some (GEN_BUS g)) as Hg2.
  { by rewrite <- Hg, list_lookup_fmap, Hg1. }
  rewrite list_lookup_fmap in Hg2.
  destruct (gen2 !! i) as [g2|]; [|discriminate]. injection Hg2 as Hg2.
  destruct (lookup_lt_is_Some_2 bus2 (GEN_BUS g2)) as [b2 Hb2].
  { rewrite Hg2, <- Hb. eapply lookup_lt_Some, Hb1. }
  by exists g2, b2.
Qed.

Lemma for_each_turn_off_total (sel : list nat) (w : world) :
  placed (bus (w_ppci w)) (gen (w_ppci w)) sel ->
  exists w', for_each sel turn_off w = (Ret tt, w').
Proof.
  revert w. induction sel as [|i sel IH]; intros w Hp; simpl; [by eexists|].
  destruct (Hp i ltac:(left)) as (g & b & Hg & Hb).
  assert (exists w1, turn_off i w = (Ret tt, w1)) as [w1 Hoff].
  { unfold turn_off, bind, get_gen, get_bus, set_gen, set_bus, lift, index.
    rewrite Hg. simpl. rewrite Hb. by eexists. }
  rewrite (bind_Ret _ _ _ _ _ Hoff).
  apply IH.
  apply turn_off_Ret in Hoff as (g' & b' & Hg' & Hb' & Hgen1 & Hbus1 & _).
  eapply placed_ext; [| |intros j Hj; apply Hp; by right].
  - rewrite Hgen1, list_fmap_insert. symmetry. apply list_insert_id.
    by rewrite list_lookup_fmap, Hg'.
  - by rewrite Hbus1, length_insert.
Qed.

Lemma save_limits_total (fq : list num) (mx mn : list nat) (w : world) :
  Forall (fun i => i < length fq) (mx ++ mn) ->
  Forall (fun i => i < length (gen (w_ppci w))) (mx ++ mn) ->
  exists fq', save_limits fq mx mn w = (Ret fq', w).
Proof.
  intros [Hfx Hfn]%Forall_app [Hgx Hgn]%Forall_app.
  unfold save_limits, bind, get_gen, lift.
  destruct (rows_total (map QMAX (gen (w_ppci w))) mx) as [qmax ->];
    [by rewrite length_map|].
  destruct (assign_total (fun _ v : num => v) mx qmax fq Hfx) as [fq1 Hfq1].
  rewrite Hfq1.
  destruct (rows_total (map QMIN (gen (w_ppci w))) mn) as [qmin ->];
    [by rewrite length_map|].
  destruct (assign_total (fun _ v : num => v) mn qmin fq1) as [fq2 ->];
    [by rewrite (assign_length _ _ _ _ _ Hfq1)|].
  by eexists.
Qed.

Lemma take_out_of_service_total (fq : list num) (sel : list nat) (w : world) :
  Forall (fun i => i < length fq) sel ->
  placed (bus (w_ppci w)) (gen (w_ppci w)) sel ->
  exists w1, take_out_of_service fq sel w = (Ret tt, w1).
Proof.
  intros Hfq Hp. unfold take_out_of_service, bind at 1, get_gen.
  unfold bind at 1, lift. destruct (rows_total fq sel Hfq) as [fqs ->].
  unfold bind at 1.
  destruct (assign_total set_QG sel fqs (gen (w_ppci w))) as [gen1 Hgen1].
  { apply Forall_forall. intros i Hi. destruct (Hp i Hi) as (g & _ & Hg & _).
    eapply lookup_lt_Some, Hg. }
  rewrite Hgen1. unfold bind, set_gen.
  match goal with |- context [for_each sel turn_off ?w1] =>
    destruct (for_each_turn_off_total sel w1) as [w2 Hw2] end.
  { simpl. eapply placed_ext; [| |exact Hp]; [|done].
    symmetry. exact (assign_frame set_QG GEN_BUS _ _ _ _ (fun _ _ => eq_refl) Hgen1). }
  rewrite Hw2. by eexists.
Qed.

Lemma convert_to_PQ_in_range (lv : LoopVars num) (mx mn : list nat) (w : world) :
  Forall (fun i => i < length (fixedQg lv)) (mx ++ mn) ->
  placed (bus (w_ppci w)) (gen (w_ppci w)) (mx ++ mn) ->
  (convert_to_PQ ext lv mx mn w).1 <> Raise IndexError.
Proof.
  intros Hfq Hp Hraise. unfold convert_to_PQ in Hraise.
  destruct (save_limits_total (fixedQg lv) mx mn w Hfq) as [fq Hsave].
  { apply Forall_forall. intros i Hi. destruct (Hp i Hi) as (g & _ & Hg & _).
    eapply lookup_lt_Some, Hg. }
  rewrite (bind_Ret _ _ _ _ _ Hsave) in Hraise.
  destruct (save_limits_spec (fixedQg lv) mx mn w) as [(fq' & Hsave' & Hlen & _)|?];
    [|congruence].
  assert (fq' = fq) as -> by congruence.
  destruct (take_out_of_service_total fq (mx ++ mn) w) as [w1 Htake];
    [by rewrite Hlen|done|].
  rewrite (bind_Ret _ _ _ _ _ Htake) in Hraise.
  destruct (on_slack_take_out _ _ _ _ _ Htake) as (_ & Hplaced & _).
  destruct (check_slacks_spec (ref lv) (mx ++ mn) w1) as [Hw Hcheck].
  simpl in Hw, Hcheck.
  destruct (check_slacks (ref lv) (mx ++ mn) w1) as [o w2] eqn:Hc. simpl in *.
  subst w2. destruct Hcheck as [[-> _]|[[-> _]|[_ [_ Hnp]]]]; [| |done].
  - rewrite (bind_Ret _ _ _ _ _ Hc) in Hraise.
    destruct (reclassify_total lv fq (mx ++ mn) w1 Hplaced) as (lv' & w' & Hre).
    by rewrite Hre in Hraise.
  - unfold bind in Hraise. by rewrite Hc in Hraise.
Qed.

(** What a conversion that runs to its end leaves behind. *)
Lemma convert_to_PQ_Ret (lv lv' : LoopVars num) (mx mn : list nat) (w w' : world) :
  convert_to_PQ ext lv mx mn w = (Ret lv', w') ->
  let sel := mx ++ mn in
  let gen0 := gen (w_ppci w) in
  let bus0 := bus (w_ppci w) in
  only_bus_gen w w' /\
  limited lv' = limited lv ++ sel /\
  length (fixedQg lv') = length (fixedQg lv) /\
  (forall j, j ∈ sel -> fixedQg lv' !! j = binding_limit gen0 mx mn j) /\
  (forall j, j ∉ sel -> fixedQg lv' !! j = fixedQg lv !! j) /\
  (ref lv', pv lv', pq lv') = bustypes ext (bus (w_ppci w')) (gen (w_ppci w')) /\
  (forall j, j ∉ sel -> gen (w_ppci w') !! j = gen0 !! j) /\
  (forall j, j ∈ sel ->
     exists g q, gen0 !! j = Some g /\ fixedQg lv' !! j = Some q /\
       gen (w_ppci w') !! j = Some (set_GEN_STATUS (set_QG g q) 0%Z) /\
       GEN_BUS g < length bus0) /\
  (forall bi,
     demand <$> bus (w_ppci w') !! bi =
     (fun b => sub_all (demand b) (outputs_at gen0 (fixedQg lv') sel bi))
       <$> bus0 !! bi) /\
  (forall bi, hosts gen0 sel bi ->
     BUS_TYPE <$> bus (w_ppci w') !! bi = (fun _ => PQ) <$> bus0 !! bi) /\
  (forall bi, ~ hosts gen0 sel bi ->
     BUS_TYPE <$> bus (w_ppci w') !! bi = BUS_TYPE <$> bus0 !! bi) /\
  ~ (1 < length (ref lv) /\ on_slack bus0 gen0 sel).
Proof.
  intros Hrun sel gen0 bus0.
  destruct (convert_to_PQ_cases lv mx mn w) as [Hraise|(fq & w1 & Hsave & Htake & Hcase)].
  { rewrite Hrun in Hraise. discriminate. }
  destruct Hcase as [[Hr _]|[Hguard (lv1 & w2 & Hr & Hre)]]; [congruence|].
  rewrite Hrun in Hr. injection Hr as <- <-.
  destruct (save_limits_spec (fixedQg lv) mx mn w)
    as [(fq' & Hsave' & Hlen & Hlim & Hkeep)|?]; [|congruence].
  assert (fq' = fq) as -> by congruence. clear Hsave'.
  apply take_out_of_service_Ret in Htake as (Hobg1 & Hout & Hin & Hbus).
  apply reclassify_Ret in Hre
    as (Hobg2 & Hgen & Hlimited & Hfixed & Hparts & gb & Hgb & Hty).
  fold sel in Hout, Hin, Hbus, Hgb, Hlimited, Hlim, Hkeep, Hguard.
  fold gen0 in Hout, Hin, Hbus, Hlim, Hguard. fold bus0 in Hin, Hbus, Hguard.
  assert (Hhosts : forall bi, bi ∈ gb <-> hosts gen0 sel bi).
  { intros bi. split.
    - intros [k Hk]%list_elem_of_lookup.
      destruct (Forall2_lookup_r _ _ _ _ _ Hgb Hk) as (i & Hi & Hib).
      assert (i ∈ sel) as Hisel by (by eapply list_elem_of_lookup_2).
      destruct (Hin i Hisel) as (g & q & Hg & _ & Hg' & _).
      rewrite Hg' in Hib. injection Hib as <-. by exists i, g.
    - intros (i & g & [k Hk]%list_elem_of_lookup & Hg & <-).
      destruct (Forall2_lookup_l _ _ _ _ _ Hgb Hk) as (b & Hb & Hib).
      destruct (Hin i) as (g0 & q & Hg0 & _ & Hg' & _);
        [by eapply list_elem_of_lookup_2|].
      rewrite Hg' in Hib. injection Hib as <-.
      assert (g0 = g) as -> by congruence. by eapply list_elem_of_lookup_2. }
  split; [by eapply only_bus_gen_trans|]. split; [done|].
  rewrite Hfixed. split; [done|].
  split; [intros j Hj; by destruct (Hlim j Hj) as (_ & _ & ?)|].
  split; [done|]. split; [done|]. rewrite Hgen.
  split; [done|]. split.
  { intros j Hj. destruct (Hin j Hj) as (g & q & ? & ? & ? & ?). by exists g, q. }
  split; [|split; [|split; [|done]]].
  - intros bi. destruct (decide (bi ∈ gb)) as [Hbi|Hbi].
    + rewrite (proj2 (Hty bi) Hbi), Hbus.
      destruct (bus0 !! bi) as [b|]; simpl; [|done].
      change (demand (set_BUS_TYPE ?x PQ)) with (demand x).
      by rewrite demand_set_PD_QD.
    + rewrite (proj1 (Hty bi) Hbi), Hbus.
      destruct (bus0 !! bi); simpl; [|done]. by rewrite demand_set_PD_QD.
  - intros bi Hbi%Hhosts. rewrite (proj2 (Hty bi) Hbi), Hbus.
    by destruct (bus0 !! bi).
  - intros bi Hbi. rewrite <- Hhosts in Hbi.
    rewrite (proj1 (Hty bi) Hbi), Hbus. by destruct (bus0 !! bi).
Qed.

(** *** The guard for several slacks *)

(** C5. In a conversion no index of which is out of range, the
    multiple-slack error is raised exactly when the reference list has
    more than one bus and some selected generator sits at a bus of type
    REF; it is raised with the type column of [bus] as it was; and when the
    reference list has more than one bus and the conversion runs to its
    end, every bus of type REF is still of type REF. *)
Theorem multi_slack_guard (lv : LoopVars num) (mx mn : list nat) (w : world) :
  Forall (fun i => i < length (fixedQg lv)) (mx ++ mn) ->
  placed (bus (w_ppci w)) (gen (w_ppci w)) (mx ++ mn) ->
  let r := convert_to_PQ ext lv mx mn w in
  (r.1 = Raise ValueError_multiple_slacks <->
   1 < length (ref lv) /\
   on_slack (bus (w_ppci w)) (gen (w_ppci w)) (mx ++ mn)) /\
  (r.1 = Raise ValueError_multiple_slacks ->
   map BUS_TYPE (bus (w_ppci r.2)) = map BUS_TYPE (bus (w_ppci w))) /\
  (forall lv', r.1 = Ret lv' -> 1 < length (ref lv) ->
     forall bi b, bus (w_ppci w) !! bi = Some b -> BUS_TYPE b = REF ->
       BUS_TYPE <$> bus (w_ppci r.2) !! bi = Some REF).
Proof.
  intros Hfq Hp r.
  pose proof (convert_to_PQ_in_range lv mx mn w Hfq Hp) as Hok. fold r in Hok.
  destruct (convert_to_PQ_cases lv mx mn w)
    as [Hraise|(fq & w1 & Hsave & Htake & Hcase)]; [done|]. fold r in Hcase.
  destruct Hcase as [(Hr & Href & Hon)|(Hno & lv1 & w2 & Hr & Hre)]; rewrite Hr; simpl.
  - split; [done|]. split; [|done]. intros _.
    by destruct (on_slack_take_out _ _ _ _ _ Htake) as (_ & _ & ?).
  - split; [split; [done|]|]. { intros Hyes. by destruct Hno. }
    split; [done|]. intros lv' _ Href bi b Hb Hty.
    assert (Hrun : convert_to_PQ ext lv mx mn w = (Ret lv1, w2)) by exact Hr.
    apply convert_to_PQ_Ret in Hrun
      as (_ & _ & _ & _ & _ & _ & _ & _ & _ & _ & Htype & _).
    rewrite Htype, Hb; simpl; [by rewrite Hty|].
    intros (i & g & Hi & Hg & Hgb). apply Hno. split; [done|].
    exists i, g, b. rewrite Hgb. by repeat split.
Qed.


(** *** A single slack *)




(** *** One power flow *)

Lemma get_Y_bus_frame (rc : Recycle) (mk : makeYbus_t) (base : num)
    (bus0 : list (BusRow num)) (branch0 : Branch) (w : world) :
  let r := _get_Y_bus ext rc mk base bus0 branch0 w in
  (exists Y, r.1 = Ret Y) /\
  bus (w_ppci r.2) = bus (w_ppci w) /\
  gen (w_ppci r.2) = gen (w_ppci w) /\
  branch (w_ppci r.2) = branch (w_ppci w) /\
  baseMVA (w_ppci r.2) = baseMVA (w_ppci w) /\
  w_clock r.2 = w_clock w.
Proof.
  intros r. subst r. unfold _get_Y_bus, bind, get_ppci.
  destruct (recycle_Ybus rc); simpl.
  - destruct (negb _); simpl; by eauto 10.
  - by eauto 10.
Qed.

Lemma call_power_flow_function_frame (base : num) (bus0 : list (BusRow num))
    (branch0 : Branch) (Y : Matrix) (Sbus V0 : Vec) (ref0 pv0 pq0 : list nat)
    (ppopt : Ppopt num) (w : world) :
  let r := _call_power_flow_function ext base bus0 branch0 Y Sbus V0
             ref0 pv0 pq0 ppopt w in
  w_ppci r.2 = w_ppci w /\ w_clock r.2 = w_clock w /\
  ((exists V, r.1 = Ret V) \/ r.1 = Raise ValueError_algorithm).
Proof.
  intros r. subst r.
  unfold _call_power_flow_function, bind, called, ret, raise.
  destruct (_ || _); simpl; [by eauto|].
  destruct (_ =? 4)%Z; simpl; by eauto.
Qed.

(** A power flow that returns has written the arrays [pfsoln] gave for
    the arrays it found. *)
Lemma run_ac_pf_without_qlims_enforced_Ret (rc : Recycle) (mk : makeYbus_t)
    (ppopt : Ppopt num) (w w1 : world) (s : bool) :
  _run_ac_pf_without_qlims_enforced ext rc mk ppopt w = (Ret s, w1) ->
  exists base Y1 Y2 Y3 V ref0,
    let r := pfsoln ext base (bus (w_ppci w)) (gen (w_ppci w))
               (branch (w_ppci w)) Y1 Y2 Y3 V ref0 in
    bus (w_ppci w1) = r.1.1 /\ gen (w_ppci w1) = r.1.2 /\
    w_clock w1 = w_clock w.
Proof.
  unfold _run_ac_pf_without_qlims_enforced, _get_pf_variables_from_ppci.
  unfold bind at 1 2. unfold get_ppci at 1, ret at 1.
  unfold bind at 1, get_bus at 1. unfold bind at 1, get_gen at 1.
  unfold bind at 1, get_ppci at 1. unfold bind at 1.
  match goal with |- context [_get_Y_bus ext rc mk ?b ?bs ?br w] =>
    destruct (get_Y_bus_frame rc mk b bs br w)
      as ([Y HY] & Hb & Hg & Hbr & _ & Hc);
    destruct (_get_Y_bus ext rc mk b bs br w) as [oY wY] end.
  simpl in HY, Hb, Hg, Hbr, Hc. subst oY. unfold bind at 1.
  match goal with
  |- context [_call_power_flow_function ext ?a ?b ?c ?d ?e ?f ?g ?h ?i ?j wY] =>
    destruct (call_power_flow_function_frame a b c d e f g h i j wY)
      as (Hp & Hc2 & HV);
    destruct (_call_power_flow_function ext a b c d e f g h i j wY)
      as [oV wV] end.
  simpl in Hp, Hc2, HV. destruct HV as [[[V s'] ->]| ->]; [|discriminate].
  unfold bind, called, set_bus, set_gen, set_branch, ret. simpl.
  intros [= <- <-]. simpl.
  eexists _, _, _, _, _, _. split; [reflexivity|]. split; [reflexivity|].
  congruence.
Qed.

(** *** The violations *)

Lemma elem_of_find_from (k : nat) (l : list bool) (i : nat) :
  i ∈ find_from k l <-> k <= i /\ l !! (i - k) = Some true.
Proof.
  revert k. induction l as [|b l IH]; intros k; simpl.
  - split; [by intros ?%elem_of_nil|by intros [_ ?]].
  - rewrite elem_of_app, IH. split.
    + intros [Hb|[Hk Hl]].
      * destruct b; [|by apply elem_of_nil in Hb].
        apply list_elem_of_singleton in Hb as ->.
        split; [lia|]. by rewrite Nat.sub_diag.
      * split; [lia|]. by replace (i - k) with (S (i - S k)) by lia.
    + intros [Hk Hl]. destruct (decide (i = k)) as [->|Hne].
      * left. rewrite Nat.sub_diag in Hl. injection Hl as ->.
        by apply list_elem_of_singleton.
      * right. split; [lia|].
        by replace (i - k) with (S (i - S k)) in Hl by lia.
Qed.

Lemma violations_in_service (gen0 : list (GenRow num)) (i : nat) :
  i ∈ (violations gen0).1 ++ (violations gen0).2 ->
  exists g, gen0 !! i = Some g /\ (0 < GEN_STATUS g)%Z.
Proof.
  unfold violations, find. simpl. rewrite elem_of_app, !elem_of_find_from.
  rewrite Nat.sub_0_r, !lookup_zip_with, !list_lookup_fmap.
  intros [[_ H]|[_ H]]; destruct (gen0 !! i) as [g|]; simpl in H; try discriminate;
    exists g; (split; [done|]); injection H as H;
    apply andb_true_iff in H as [H _]; by apply Z.ltb_lt.
Qed.

Lemma fix_largest_Ret (gen0 : list (GenRow num)) (mx mn mx' mn' : list nat)
    (w w' : world) :
  fix_largest gen0 mx mn w = (Ret (mx', mn'), w') ->
  w' = w /\ forall i, i ∈ mx' ++ mn' -> i ∈ mx ++ mn.
Proof.
  unfold fix_largest, bind, lift, ret, index.
  destruct (rows gen0 mx); [|discriminate..].
  destruct (rows gen0 mn); [|discriminate..].
  destruct (argmax _) as [k| |]; [|discriminate..].
  destruct (length mx <? k).
  - destruct (mn !! (k - length mx)) as [i|] eqn:Hi; [|discriminate].
    intros [= <- <- <-]. split; [done|]. intros j Hj. simpl in Hj.
    apply list_elem_of_singleton in Hj as ->. apply elem_of_app. right.
    by eapply list_elem_of_lookup_2.
  - destruct (mx !! k) as [i|] eqn:Hi; [|discriminate].
    intros [= <- <- <-]. split; [done|]. intros j Hj. simpl in Hj.
    apply list_elem_of_singleton in Hj as ->. apply elem_of_app. left.
    by eapply list_elem_of_lookup_2.
Qed.

(** *** The invariant of the Q-limit loop *)

Lemma offsets_recorded_step (bus0 : list (BusRow num)) (rc : Recycle)
    (mk : makeYbus_t) (ppopt : Ppopt num) (lv : LoopVars num) (w w1 : world)
    (s : bool) :
  pfsoln_keeps_injections ext ->
  offsets_recorded bus0 w lv ->
  _run_ac_pf_without_qlims_enforced ext rc mk ppopt w = (Ret s, w1) ->
  offsets_recorded bus0 w1 lv.
Proof.
  intros Hkeep [Hdem Hoff] Hstep.
  apply run_ac_pf_without_qlims_enforced_Ret in Hstep
    as (base & Y1 & Y2 & Y3 & V & ref0 & Hbus & Hgen & _).
  destruct (Hkeep base (bus (w_ppci w)) (gen (w_ppci w)) (branch (w_ppci w))
              Y1 Y2 Y3 V ref0) as (Hd & Hgb & Hst).
  simpl in Hbus, Hgen. rewrite <- Hbus in Hd. rewrite <- Hgen in Hgb, Hst.
  assert (Hlim : forall i, i ∈ limited lv ->
    exists g g', gen (w_ppci w) !! i = Some g /\ gen (w_ppci w1) !! i = Some g' /\
      GEN_BUS g' = GEN_BUS g /\ PG g' = PG g /\ (GEN_STATUS g' <= 0)%Z).
  { intros i Hi. destruct (Hoff i Hi) as (g & Hg & Hs).
    assert (map GEN_BUS (gen (w_ppci w1)) !! i = Some (GEN_BUS g)) as Hg'.
    { by rewrite Hgb, list_lookup_fmap, Hg. }
    rewrite list_lookup_fmap in Hg'.
    destruct (gen (w_ppci w1) !! i) as [g'|] eqn:Hg1; [|discriminate].
    injection Hg' as Hg'. destruct (Hst i g g' Hg Hg1 Hs) as [Hs' Hp].
    by exists g, g'. }
  split.
  - intros bi.
    assert (demand <$> bus (w_ppci w1) !! bi = demand <$> bus (w_ppci w) !! bi) as ->.
    { assert (map demand (bus (w_ppci w1)) !! bi =
              map demand (bus (w_ppci w)) !! bi) as Hd' by (by rewrite Hd).
      by rewrite !list_lookup_fmap in Hd'. }
    rewrite Hdem.
    rewrite (outputs_at_ext (gen (w_ppci w1)) (gen (w_ppci w))
               (fixedQg lv) (fixedQg lv) (limited lv) bi); [done| |done].
    intros i Hi. destruct (Hlim i Hi) as (g & g' & -> & -> & Hb & Hp & _).
    simpl. by rewrite Hb, Hp.
  - intros i Hi. destruct (Hlim i Hi) as (g & g' & _ & Hg' & _ & _ & Hs).
    by exists g'.
Qed.

Lemma offsets_recorded_convert (bus0 : list (BusRow num)) (lv lv' : LoopVars num)
    (mx mn : list nat) (w w' : world) :
  offsets_recorded bus0 w lv ->
  (forall i, i ∈ mx ++ mn ->
     exists g, gen (w_ppci w) !! i = Some g /\ (0 < GEN_STATUS g)%Z) ->
  convert_to_PQ ext lv mx mn w = (Ret lv', w') ->
  offsets_recorded bus0 w' lv'.
Proof.
  intros [Hdem Hoff] Hon Hrun.
  apply convert_to_PQ_Ret in Hrun
    as (_ & Hlimited & _ & _ & Hfkeep & _ & Hgkeep & Hgsel & Hbus & _).
  assert (Hfresh : forall i, i ∈ limited lv -> i ∉ mx ++ mn).
  { intros i Hi Hsel. destruct (Hoff i Hi) as (g & Hg & Hs).
    destruct (Hon i Hsel) as (g' & Hg' & Hs'). assert (g' = g) by congruence.
    subst. lia. }
  set (sel := mx ++ mn) in *. clearbody sel.
  split.
  - intros bi. rewrite Hbus, Hlimited, outputs_at_app.
    specialize (Hdem bi).
    destruct (bus (w_ppci w) !! bi) as [b|], (bus0 !! bi) as [b0|];
      simpl in Hdem |- *; try discriminate; [|done].
    injection Hdem as Hdem. f_equal. unfold sub_all. rewrite shift_all_app.
    fold (@sub_all num N). rewrite Hdem.
    rewrite (outputs_at_ext (gen (w_ppci w')) (gen (w_ppci w))
               (fixedQg lv') (fixedQg lv) (limited lv) bi).
    + rewrite (outputs_at_ext (gen (w_ppci w')) (gen (w_ppci w))
                 (fixedQg lv') (fixedQg lv') sel bi); [done| |done].
      intros i Hi. destruct (Hgsel i Hi) as (g & q & -> & _ & -> & _). done.
    + intros i Hi. by rewrite Hgkeep by (by apply Hfresh).
    + intros i Hi. by rewrite Hfkeep by (by apply Hfresh).
  - intros i Hi. rewrite Hlimited in Hi.
    destruct (decide (i ∈ sel)) as [Hsel|Hsel].
    + destruct (Hgsel i Hsel) as (g & q & _ & _ & Hg' & _).
      eexists. split; [exact Hg'|]. simpl. lia.
    + apply elem_of_app in Hi as [Hi|Hi]; [|done].
      rewrite Hgkeep by done. by apply Hoff.
Qed.

(** One pass of the loop. *)
Lemma qlims_loop_S (fuel : nat) (rc : Recycle) (mk : makeYbus_t)
    (ppopt : Ppopt num) (qlim : Z) (lv : LoopVars num) :
  qlims_loop ext (S fuel) rc mk ppopt qlim lv =
  (let* success := _run_ac_pf_without_qlims_enforced ext rc mk ppopt in
   let* gen := get_gen in
   let (mx, mn) := violations gen in
   if (0 <? length mx) || (0 <? length mn) then
     if length (pv lv) =? 0 then ret (false, lv)
     else
       let* (mx, mn) :=
         (if (qlim =? 2)%Z then fix_largest gen mx mn else ret (mx, mn)) in
       let* lv := convert_to_PQ ext lv mx mn in
       qlims_loop ext fuel rc mk ppopt qlim lv
   else ret (success, lv)).
Proof. reflexivity. Qed.

Lemma offsets_recorded_loop (bus0 : list (BusRow num)) (fuel : nat)
    (rc : Recycle) (mk : makeYbus_t) (ppopt : Ppopt num) (qlim : Z)
    (lv lv' : LoopVars num) (w w' : world) (s : bool) :
  pfsoln_keeps_injections ext ->
  offsets_recorded bus0 w lv ->
  qlims_loop ext fuel rc mk ppopt qlim lv w = (Ret (s, lv'), w') ->
  offsets_recorded bus0 w' lv'.
Proof.
  intros Hkeep. revert lv w. induction fuel as [|fuel IH]; intros lv w Hinv Hrun;
    [discriminate|].
  rewrite qlims_loop_S in Hrun.
  apply bind_Ret_inv in Hrun as (s1 & w1 & Hstep & Hrun).
  pose proof (offsets_recorded_step bus0 rc mk ppopt lv w w1 s1 Hkeep Hinv Hstep)
    as Hinv1.
  apply bind_Ret_inv in Hrun as (gen1 & w0 & Hget & Hrun).
  injection Hget as <- <-.
  pose proof (violations_in_service (gen (w_ppci w1))) as Hviol.
  destruct (violations (gen (w_ppci w1))) as [mx mn]. simpl in Hviol.
  destruct ((0 <? length mx) || (0 <? length mn)).
  2:{ unfold ret in Hrun. injection Hrun as <- <- <-. done. }
  destruct (length (pv lv) =? 0).
  { unfold ret in Hrun. injection Hrun as <- <- <-. done. }
  apply bind_Ret_inv in Hrun as ([mx' mn'] & w2 & Hsel & Hrun).
  apply bind_Ret_inv in Hrun as (lv2 & w3 & Hconv & Hrun).
  assert (w2 = w1 /\ forall i, i ∈ mx' ++ mn' -> i ∈ mx ++ mn) as [-> Hsub].
  { destruct (qlim =? 2)%Z.
    - by apply fix_largest_Ret in Hsel.
    - unfold ret in Hsel. by injection Hsel as <- <- <-. }
  eapply IH; [|exact Hrun].
  eapply offsets_recorded_convert; [exact Hinv1| |exact Hconv].
  intros i Hi. by apply Hviol, Hsub.
Qed.

Lemma add_all_sub_all (d : num * num) (l : list (num * num)) :
  exact_arithmetic num -> add_all (sub_all d l) l = d.
Proof.
  intros [H1 H2].
  assert (Hcomm : forall l d x,
    (add (sub_all d l).1 x.1, add (sub_all d l).2 x.2) =
    sub_all (add d.1 x.1, add d.2 x.2) l).
  { clear l d. induction l as [|y l IH]; intros d x; [done|].
    unfold sub_all. rewrite !shift_all_cons. fold (@sub_all num N).
    rewrite IH. simpl. by rewrite !H2. }
  revert d. induction l as [|y l IH]; intros d; [done|].
  unfold add_all, sub_all. rewrite !shift_all_cons.
  fold (@sub_all num N) (@add_all num N).
  rewrite Hcomm. simpl. rewrite !H1. destruct d. apply IH.
Qed.

(** *** The Q-limit loop *)

(** C2 (amended). The loop does not look at the convergence flag. After a
    step that reports non-convergence the violations are looked for as
    after any other step: with none the loop ends there and returns the
    failure; with some and no PV bus left it ends there with failure; with
    some and PV buses left the selection is converted and the network is
    solved again. *)
Theorem nonconverged_step_is_checked (fuel : nat) (rc : Recycle)
    (mk : makeYbus_t) (ppopt : Ppopt num) (qlim : Z) (lv : LoopVars num)
    (w w1 : world) :
  _run_ac_pf_without_qlims_enforced ext rc mk ppopt w = (Ret false, w1) ->
  let mx := (violations (gen (w_ppci w1))).1 in
  let mn := (violations (gen (w_ppci w1))).2 in
  let run := qlims_loop ext (S fuel) rc mk ppopt qlim lv w in
  (mx = [] /\ mn = [] -> run = (Ret (false, lv), w1)) /\
  (~ (mx = [] /\ mn = []) -> pv lv = [] -> run = (Ret (false, lv), w1)) /\
  (~ (mx = [] /\ mn = []) -> pv lv <> [] ->
   run =
   (let* (mx, mn) :=
      (if (qlim =? 2)%Z then fix_largest (gen (w_ppci w1)) mx mn
       else ret (mx, mn)) in
    let* lv := convert_to_PQ ext lv mx mn in
    qlims_loop ext fuel rc mk ppopt qlim lv) w1).
Proof.
  intros Hstep mx mn run.
  assert (Hrun : run =
    if (0 <? length mx) || (0 <? length mn) then
      if length (pv lv) =? 0 then (Ret (false, lv), w1)
      else
        (let* (mx, mn) :=
           (if (qlim =? 2)%Z then fix_largest (gen (w_ppci w1)) mx mn
            else ret (mx, mn)) in
         let* lv := convert_to_PQ ext lv mx mn in
         qlims_loop ext fuel rc mk ppopt qlim lv) w1
    else (Ret (false, lv), w1)).
  { subst run mx mn. rewrite qlims_loop_S, (bind_Ret _ _ _ _ _ Hstep).
    unfold bind at 1, get_gen at 1.
    destruct (violations (gen (w_ppci w1))) as [l l0]. cbn [fst snd].
    by destruct ((0 <? length l) || (0 <? length l0)), (length (pv lv) =? 0). }
  rewrite Hrun. clear Hrun. clearbody mx mn. split; [|split].
  - by intros [-> ->].
  - intros Hne ->. by destruct mx, mn.
  - intros Hne Hpv. destruct (pv lv); [done|].
    destruct mx, mn; try done. by destruct Hne.
Qed.

(** C4 (amended). When a pass finds violations and no PV bus is left,
    the loop ends with success false in the state as solved, and the code
    after the loop then restores the generators limited in earlier passes
    as it does on the successful exit: they are back in service with their
    reactive output at the recorded limit, their outputs are added back to
    the bus demands, and no bus type is changed back. *)
Theorem infeasible_exit_restores (fuel : nat) (rc : Recycle)
    (mk : makeYbus_t) (ppopt : Ppopt num) (qlim : Z) (lv : LoopVars num)
    (w w1 : world) (s : bool) :
  _run_ac_pf_without_qlims_enforced ext rc mk ppopt w = (Ret s, w1) ->
  violations (gen (w_ppci w1)) <> ([], []) ->
  pv lv = [] ->
  qlims_loop ext (S fuel) rc mk ppopt qlim lv w = (Ret (false, lv), w1) /\
  (let* (success, lv') := qlims_loop ext (S fuel) rc mk ppopt qlim lv in
   restore_limited lv' ;; ret success) w =
  (restore_limited lv ;; ret false) w1 /\
  forall w', restore_limited lv w1 = (Ret tt, w') ->
    (forall i, i ∈ limited lv ->
       exists g q,
         gen (w_ppci w1) !! i = Some g /\ fixedQg lv !! i = Some q /\
         gen (w_ppci w') !! i = Some (set_GEN_STATUS (set_QG g q) 1%Z)) /\
    (forall bi,
       bus (w_ppci w') !! bi =
       (fun b => set_PD_QD b
                   (add_all (demand b)
                      (outputs_at (gen (w_ppci w1)) (fixedQg lv) (limited lv) bi)))
         <$> bus (w_ppci w1) !! bi) /\
    map BUS_TYPE (bus (w_ppci w')) = map BUS_TYPE (bus (w_ppci w1)).
Proof.
  intros Hstep Hviol Hpv.
  assert (Hloop : qlims_loop ext (S fuel) rc mk ppopt qlim lv w
                  = (Ret (false, lv), w1)).
  { rewrite qlims_loop_S, (bind_Ret _ _ _ _ _ Hstep).
    unfold bind at 1, get_gen at 1.
    destruct (violations (gen (w_ppci w1))) as [mx mn]. rewrite Hpv. simpl.
    destruct mx; [destruct mn; [done|]|]; done. }
  split; [done|]. split; [by rewrite (bind_Ret _ _ _ _ _ Hloop)|].
  intros w' (_ & _ & Hin & Hbus)%restore_limited_Ret.
  split; [|split; [done|]].
  - intros i Hi. destruct (Hin i Hi) as (g & q & ? & ? & ? & _). by exists g, q.
  - apply list_eq. intros bi. rewrite !list_lookup_fmap, Hbus.
    by destruct (bus (w_ppci w1) !! bi).
Qed.

(** C6 (amended). In whatever arithmetic: a conversion that runs to its
    end leaves every bus with its demand minus the outputs of the selected
    generators sitting at it, the reactive part being the binding limit;
    and a run of the enforcement that returns has, after the loop, put the
    limited generators back in service with the recorded reactive output
    and added their outputs back to the demands of their buses, in the
    order they were limited. When [pfsoln] keeps the injections, the demand
    of every bus is then the demand it started with, with the outputs of
    the limited generators at it first subtracted and then added; this is
    the demand it started with when the arithmetic is exact. *)
Theorem injections_restored (fuel : nat) (rc : Recycle) (mk : makeYbus_t)
    (ppopt : Ppopt num) (w w' : world) (s : bool) :
  _run_ac_pf_with_qlims_enforced ext fuel rc mk ppopt w = (Ret s, w') ->
  (forall lv lv' mx mn w1 w2,
     convert_to_PQ ext lv mx mn w1 = (Ret lv', w2) ->
     (forall i, i ∈ mx ++ mn ->
        fixedQg lv' !! i = binding_limit (gen (w_ppci w1)) mx mn i) /\
     (forall bi,
        demand <$> bus (w_ppci w2) !! bi =
        (fun b => sub_all (demand b)
                    (outputs_at (gen (w_ppci w1)) (fixedQg lv') (mx ++ mn) bi))
          <$> bus (w_ppci w1) !! bi)) /\
  exists lv w1,
    qlims_loop ext fuel rc mk ppopt (ENFORCE_Q_LIMS ppopt) (initial_vars ext w) w
    = (Ret (s, lv), w1) /\
    restore_limited lv w1 = (Ret tt, w') /\
    (forall i, i ∈ limited lv ->
       exists g q, gen (w_ppci w1) !! i = Some g /\ fixedQg lv !! i = Some q /\
         gen (w_ppci w') !! i = Some (set_GEN_STATUS (set_QG g q) 1%Z)) /\
    (forall bi,
       demand <$> bus (w_ppci w') !! bi =
       (fun b => add_all (demand b)
                   (outputs_at (gen (w_ppci w1)) (fixedQg lv) (limited lv) bi))
         <$> bus (w_ppci w1) !! bi) /\
    (pfsoln_keeps_injections ext ->
     (forall bi,
        demand <$> bus (w_ppci w') !! bi =
        (fun b =>
           let out := outputs_at (gen (w_ppci w1)) (fixedQg lv) (limited lv) bi in
           add_all (sub_all (demand b) out) out)
          <$> bus (w_ppci w) !! bi) /\
     (exact_arithmetic num ->
      map demand (bus (w_ppci w')) = map demand (bus (w_ppci w)))).
Proof.
  intros Hrun. split.
  { intros lv lv' mx mn w1 w2 Hconv.
    apply convert_to_PQ_Ret in Hconv
      as (_ & _ & _ & Hlim & _ & _ & _ & _ & Hbus & _). by split. }
  unfold _run_ac_pf_with_qlims_enforced, _get_pf_variables_from_ppci in Hrun.
  unfold bind at 1 2, get_ppci at 1, ret at 1 in Hrun.
  unfold bind at 1, get_gen at 1 in Hrun.
  apply bind_Ret_inv in Hrun as ([s0 lv] & w1 & Hloop & Hrun).
  apply bind_Ret_inv in Hrun as ([] & w2 & Hrest & Hrun).
  unfold ret in Hrun. injection Hrun as <- <-.
  pose proof Hrest as (_ & _ & Hin & Hbus)%restore_limited_Ret.
  assert (Hback : forall bi,
    demand <$> bus (w_ppci w2) !! bi =
    (fun b => add_all (demand b)
                (outputs_at (gen (w_ppci w1)) (fixedQg lv) (limited lv) bi))
      <$> bus (w_ppci w1) !! bi).
  { intros bi. rewrite Hbus. destruct (bus (w_ppci w1) !! bi) as [b1|]; [|done].
    simpl. by rewrite demand_set_PD_QD. }
  exists lv, w1. split; [exact Hloop|]. split; [done|]. split.
  { intros i Hi. destruct (Hin i Hi) as (g & q & ? & ? & ? & _). by exists g, q. }
  split; [exact Hback|].
  intros Hkeep.
  assert (Hinv : offsets_recorded (bus (w_ppci w)) w1 lv).
  { eapply offsets_recorded_loop; [exact Hkeep| |exact Hloop].
    split; [|by intros i ?%elem_of_nil]. intros bi. unfold outputs_at. simpl.
    by destruct (bus (w_ppci w) !! bi). }
  destruct Hinv as [Hdem _].
  assert (Hround : forall bi,
    demand <$> bus (w_ppci w2) !! bi =
    (fun b =>
       let out := outputs_at (gen (w_ppci w1)) (fixedQg lv) (limited lv) bi in
       add_all (sub_all (demand b) out) out)
      <$> bus (w_ppci w) !! bi).
  { intros bi. rewrite Hback. specialize (Hdem bi).
    destruct (bus (w_ppci w1) !! bi) as [b1|], (bus (w_ppci w) !! bi) as [b0|];
      simpl in Hdem |- *; try discriminate; [|done].
    injection Hdem as Hdem. by rewrite Hdem. }
  split; [exact Hround|].
  intros Hexact. apply list_eq. intros bi. rewrite !list_lookup_fmap, Hround.
  destruct (bus (w_ppci w) !! bi) as [b0|]; [|done]. simpl.
  by rewrite add_all_sub_all.
Qed.

End Facts.

(** ** The module run on the small networks *)

Lemma exact_arithmetic_Z : exact_arithmetic Z.
Proof. split; simpl; intros; lia. Qed.

Lemma toy_ext_keeps_injections {num : Type} {N : Number num} (q : num) (conv : bool) :
  pfsoln_keeps_injections (toy_ext q conv).
Proof.
  intros base bus0 gen0 branch0 Y1 Y2 Y3 V ref0. simpl. split; [done|]. split.
  - rewrite map_map. apply map_ext. intros g. by destruct (0 <? GEN_STATUS g)%Z.
  - intros j g g' Hg Hg' Hoff. rewrite list_lookup_fmap, Hg in Hg'.
    injection Hg' as <-.
    destruct (0 <? GEN_STATUS g)%Z eqn:Hon; [|done]. apply Z.ltb_lt in Hon. lia.
Qed.

(** The DC run of scenario A: one DC solve, then the unbound names. *)
Lemma runpf_pypower_dc_raises_witness :
  exists w',
    _runpf_pypower (toy_ext 0%Z true) 1 optionsDC worldA
    = (Raise UnboundLocalError, w') /\
    w_calls w' = w_calls worldA ++ [call_run_dc_pf] /\
    w_ppci w' = _run_dc_pf (toy_ext 0%Z true) (w_ppci worldA).
Proof.
  exact (runpf_pypower_dc_raises (toy_ext 0%Z true) 1 optionsDC 4%Z worldA
           eq_refl eq_refl).
Defined.

(** Scenario A solved at [QG = -70]: nothing is over its limit, generator
    1 is the first one under, and the selection raises. *)
Lemma fix_largest_first_under_limit_witness :
  fix_largest genA_under [] [1] (toy_world 100%Z busA genA_under)
  = (Raise IndexError, toy_world 100%Z busA genA_under).
Proof.
  exact (fix_largest_first_under_limit genA_under []
           [mkGen 1 40 (-70) 50 (-50) 1 1]%Z [] [1]
           (toy_world 100%Z busA genA_under) eq_refl eq_refl eq_refl).
Defined.

(** The same inside the loop: the run of scenario A with the fix-worst-one
    policy and the solution at [QG = -70] ends in [IndexError] after the
    first step. *)
Example fix_largest_raises_in_the_loop :
  (_run_ac_pf_with_qlims_enforced (toy_ext (-70)%Z true) 3 (mkRecycle false)
     (makeYbus_pypower (toy_ext (-70)%Z true)) (toy_ppopt 2 4) worldA).1
  = Raise IndexError.
Proof. reflexivity. Qed.

(** Two slacks, the generator of the first over its limit: the guard
    fires. *)
Lemma multi_slack_guard_witness :
  (convert_to_PQ (toy_ext 70%Z true) lvB [0] [] worldB).1
  = Raise ValueError_multiple_slacks /\
  map BUS_TYPE (bus (w_ppci (convert_to_PQ (toy_ext 70%Z true) lvB [0] [] worldB).2))
  = map BUS_TYPE busB.
Proof.
  assert (H1 : Forall (fun i => i < length (fixedQg lvB)) ([0] ++ [])).
  { repeat constructor. }
  assert (H2 : placed (bus (w_ppci worldB)) (gen (w_ppci worldB)) ([0] ++ [])).
  { intros i ->%list_elem_of_singleton. by eexists _, _. }
  destruct (multi_slack_guard (toy_ext 70%Z true) lvB [0] [] worldB H1 H2)
    as [Hiff [Hty _]].
  assert (Hraise : (convert_to_PQ (toy_ext 70%Z true) lvB [0] [] worldB).1
                   = Raise ValueError_multiple_slacks).
  { apply Hiff. split; [simpl; lia|].
    exists 0, (mkGen 0 30 70 50 (-50) 1 1)%Z, (mkBus REF 0 0 1 0)%Z.
    split; [by apply list_elem_of_singleton|]. by repeat split. }
  split; [exact Hraise | exact (Hty Hraise)].
Defined.



(** Scenario A with a kernel that does not converge: the loop goes on
    with the conversion of generator 1 and a second pass. *)
Lemma nonconverged_step_is_checked_witness :
  qlims_loop (toy_ext 70%Z false) 3 (mkRecycle false)
    (makeYbus_pypower (toy_ext 70%Z false)) (toy_ppopt 1 4) 1 lvA worldA
  = (let* lv := convert_to_PQ (toy_ext 70%Z false) lvA [1] [] in
     qlims_loop (toy_ext 70%Z false) 2 (mkRecycle false)
       (makeYbus_pypower (toy_ext 70%Z false)) (toy_ppopt 1 4) 1 lv) worldA_step.
Proof.
  refine (proj2 (proj2 (nonconverged_step_is_checked (toy_ext 70%Z false) 2
            (mkRecycle false) (makeYbus_pypower (toy_ext 70%Z false))
            (toy_ppopt 1 4) 1 lvA worldA worldA_step eq_refl)) _ _).
  - intros [H _]. discriminate H.
  - discriminate.
Defined.

(** With the non-converging kernel the loop of scenario A does not end at
    the first step. *)
Lemma nonconverged_step_counterexample :
  ~ spec_nonconverged_step_ends_loop (toy_ext 70%Z false) 2 (mkRecycle false)
      (makeYbus_pypower (toy_ext 70%Z false)) (toy_ppopt 1 4) 1 lvA worldA.
Proof.
  intros H. specialize (H worldA_step eq_refl).
  apply (f_equal (fun r => length (w_calls r.2))) in H.
  vm_compute in H. discriminate H.
Qed.

(** Two generators at one PV bus, fix-worst-one: the second pass leaves
    through the infeasible exit and generator 1 is restored. *)
Lemma infeasible_exit_restores_witness :
  (let* (success, lv') :=
     qlims_loop (toy_ext 70%Z true) 1 (mkRecycle false)
       (makeYbus_pypower (toy_ext 70%Z true)) (toy_ppopt 2 4) 2 lvC1 in
   restore_limited lv' ;; ret success) worldC1
  = (restore_limited lvC1 ;; ret false) worldC2.
Proof.
  refine (proj1 (proj2 (infeasible_exit_restores (toy_ext 70%Z true) 0
            (mkRecycle false) (makeYbus_pypower (toy_ext 70%Z true))
            (toy_ppopt 2 4) 2 lvC1 worldC1 worldC2 true eq_refl _ eq_refl))).
  discriminate.
Defined.

(** On that network the run that fails as infeasible does not return the
    state as last solved. *)
Lemma infeasible_exit_counterexample :
  ~ spec_infeasible_keeps_last_solved (toy_ext 70%Z true) 3 (mkRecycle false)
      (makeYbus_pypower (toy_ext 70%Z true)) (toy_ppopt 2 4) worldC.
Proof.
  intros H.
  assert (Hloop : qlims_loop (toy_ext 70%Z true) 3 (mkRecycle false)
                    (makeYbus_pypower (toy_ext 70%Z true)) (toy_ppopt 2 4)
                    (ENFORCE_Q_LIMS (toy_ppopt 2 4))
                    (initial_vars (toy_ext 70%Z true) worldC) worldC
                  = (Ret (false, lvC1), worldC2)).
  { vm_compute. reflexivity. }
  assert (Hrun : _run_ac_pf_with_qlims_enforced (toy_ext 70%Z true) 3
                   (mkRecycle false) (makeYbus_pypower (toy_ext 70%Z true))
                   (toy_ppopt 2 4) worldC
                 = (Ret false, worldC_final)).
  { vm_compute. reflexivity. }
  assert (Hviol : violations (gen (w_ppci worldC2)) <> ([], [])).
  { vm_compute. discriminate. }
  destruct (H lvC1 worldC2 false worldC_final Hloop Hviol eq_refl Hrun)
    as [_ Heq].
  apply (f_equal (fun p => GEN_STATUS <$> gen p !! 1)) in Heq.
  vm_compute in Heq. discriminate Heq.
Qed.

(** Scenario A in integers: the demands after the enforcement are the
    demands before. Scenario A in binary64 with demand 0.1 and output 0.7:
    the active demand after the enforcement is (0.1 - 0.7) + 0.7. *)
Lemma injections_restored_witness :
  map demand (bus (w_ppci worldA_final)) = map demand (bus (w_ppci worldA)) /\
  PD <$> bus (w_ppci worldF_final) !! 1 =
  Some (PrimFloat.add
          (PrimFloat.sub 0x1.999999999999ap-4 0x1.6666666666666p-1)
          0x1.6666666666666p-1).
Proof.
  split.
  - assert (Hrun : _run_ac_pf_with_qlims_enforced (toy_ext 70%Z true) 3
                     (mkRecycle false) (makeYbus_pypower (toy_ext 70%Z true))
                     (toy_ppopt 1 4) worldA
                   = (Ret true, worldA_final)).
    { vm_compute. reflexivity. }
    destruct (injections_restored (toy_ext 70%Z true) 3 (mkRecycle false)
                (makeYbus_pypower (toy_ext 70%Z true)) (toy_ppopt 1 4)
                worldA worldA_final true Hrun)
      as (_ & lv & w1 & _ & _ & _ & _ & Hkeep).
    exact (proj2 (Hkeep (toy_ext_keeps_injections 70%Z true)) exact_arithmetic_Z).
  - assert (Hrun : _run_ac_pf_with_qlims_enforced (toy_ext 70%float true) 3
                     (mkRecycle false) (makeYbus_pypower (toy_ext 70%float true))
                     (toy_ppopt_float 1 4) worldF
                   = (Ret true, worldF_final)).
    { vm_compute. reflexivity. }
    destruct (injections_restored (toy_ext 70%float true) 3 (mkRecycle false)
                (makeYbus_pypower (toy_ext 70%float true)) (toy_ppopt_float 1 4)
                worldF worldF_final true Hrun)
      as (_ & lv & w1 & Hloop & _ & _ & _ & Hkeep).
    destruct (Hkeep (toy_ext_keeps_injections 70%float true)) as [Hround _].
    specialize (Hround 1).
    vm_compute in Hloop. injection Hloop as <- <-.
    apply (f_equal (fmap fst)) in Hround.
    vm_compute in Hround. vm_compute. exact Hround.
Defined.

(** Scenario A in binary64 with demand 0.1 and output 0.7: the demand
    after the enforcement is 0.09999999999999998. *)
Lemma injections_restored_counterexample :
  ~ spec_demand_round_trip (toy_ext 70%float true) 3 (mkRecycle false)
      (makeYbus_pypower (toy_ext 70%float true)) (toy_ppopt_float 1 4) worldF.
Proof.
  intros H.
  pose (r := _run_ac_pf_with_qlims_enforced (toy_ext 70%float true) 3
               (mkRecycle false) (makeYbus_pypower (toy_ext 70%float true))
               (toy_ppopt_float 1 4) worldF).
  assert (Hrun : r = (Ret true, r.2)) by (vm_compute; reflexivity).
  specialize (H true r.2 Hrun).
  apply (f_equal (fun l => match l !! 1 with
                           | Some d => PrimFloat.eqb d.1 0x1.999999999999ap-4
                           | None => true
                           end)) in H.
  vm_compute in H. discriminate H.
Qed.

(** ** Further facts about the module *)

Section RunFacts.
Context {num : Type} {N : Number num} {Branch Matrix Vec : Type}.
Variable ext : Externals num Branch Matrix Vec.

Abbreviation world := (World num Branch Matrix).
Abbreviation makeYbus_t :=
  (num -> list (BusRow num) -> Branch -> Matrix * Matrix * Matrix).

(** *** The violation lists *)

Lemma find_spec (l : list bool) (i : nat) : i ∈ find l <-> l !! i = Some true.
Proof.
  unfold find. rewrite elem_of_find_from, Nat.sub_0_r.
  split; [by intros [_ ?] | split; [lia | done]].
Qed.

(** The generators line 169 and line 170 report are the rows of [gen]
    that are in service and above [QMAX], respectively below [QMIN]; a
    generator out of service is in neither list. *)
Theorem violations_spec (gen0 : list (GenRow num)) (i : nat) :
  (i ∈ (violations gen0).1 <->
   exists g, gen0 !! i = Some g /\ (0 < GEN_STATUS g)%Z /\
             gtb (QG g) (QMAX g) = true) /\
  (i ∈ (violations gen0).2 <->
   exists g, gen0 !! i = Some g /\ (0 < GEN_STATUS g)%Z /\
             ltb (QG g) (QMIN g) = true).
Proof.
  unfold violations. cbn [fst snd]. rewrite !find_spec, !lookup_zip_with.
  rewrite !list_lookup_fmap.
  split; (split;
    [ destruct (gen0 !! i) as [g|]; [|done]; simpl; intros [= H];
      apply andb_true_iff in H as [H1%Z.ltb_lt H2]; by exists g
    | intros (g & -> & H1%Z.ltb_lt & H2); simpl; by rewrite H1, H2 ]).
Qed.

End RunFacts.
(** *** The fix-worst-one selection over the integers *)

Section Selection.
Context {Branch Matrix : Type}.

Lemma argmax_from_spec (l : list Z) (best : Z) (ibest i : nat) :
  ibest < i ->
  let k := argmax_from best ibest i l in
  (k = ibest /\ forall j x, l !! j = Some x -> (x <= best)%Z) \/
  (exists j m, k = i + j /\ l !! j = Some m /\ (best < m)%Z /\
     forall j' x, l !! j' = Some x -> (x <= m)%Z /\ (j' < j -> (x < m)%Z)).
Proof.
  revert best ibest i. induction l as [|y l IH]; intros best ibest i Hlt; simpl.
  - left. split; [done|]. intros j x Hj. by rewrite lookup_nil in Hj.
  - destruct (Z.gtb_spec y best) as [Hgt|Hle].
    + right. destruct (IH y i (S i) ltac:(lia)) as [[Hk Hall]|(j & m & Hk & Hj & Hm & Hall)].
      * exists 0, y. split; [lia|]. split; [done|]. split; [lia|].
        intros [|j'] x Hx; simpl in Hx.
        -- injection Hx as <-. split; lia.
        -- split; [by eapply Hall | lia].
      * exists (S j), m. split; [lia|]. split; [done|]. split; [lia|].
        intros [|j'] x Hx; simpl in Hx.
        -- injection Hx as <-. split; lia.
        -- destruct (Hall j' x Hx) as [? Hstrict]. split; [done|].
           intros ?. apply Hstrict. lia.
    + destruct (IH best ibest (S i) ltac:(lia)) as [[Hk Hall]|(j & m & Hk & Hj & Hm & Hall)].
      * left. split; [done|]. intros [|j'] x Hx; simpl in Hx.
        -- by injection Hx as <-.
        -- by eapply Hall.
      * right. exists (S j), m. split; [lia|]. split; [done|]. split; [done|].
        intros [|j'] x Hx; simpl in Hx.
        -- injection Hx as <-. split; lia.
        -- destruct (Hall j' x Hx) as [? Hstrict]. split; [done|].
           intros ?. apply Hstrict. lia.
Qed.

Lemma argmax_first_largest (l : list Z) (k : nat) :
  argmax l = Ret k ->
  exists m, l !! k = Some m /\
    forall j x, l !! j = Some x -> (x <= m)%Z /\ (j < k -> (x < m)%Z).
Proof.
  destruct l as [|y l]; [done|]. simpl. intros [= <-].
  destruct (argmax_from_spec l y 0 1 ltac:(lia)) as [[-> Hall]|(j & m & -> & Hj & Hm & Hall)].
  - exists y. split; [done|]. intros [|j] x Hx; simpl in Hx.
    + injection Hx as <-. split; lia.
    + split; [by eapply Hall | lia].
  - exists m. split; [done|]. intros [|j'] x Hx; simpl in Hx.
    + injection Hx as <-. split; lia.
    + destruct (Hall j' x Hx) as [? Hstrict]. split; [done|].
      intros ?. apply Hstrict. lia.
Qed.

(** When the fix-worst-one selection returns, it leaves the state alone
    and returns one generator: the one at the position [k] of the combined
    over-then-under list whose excess is the largest, the first such in
    case of a tie, in the list it came from. Position [len(mx)] is never
    returned. *)
Theorem fix_largest_selects_worst (gen0 : list (GenRow Z)) (mx mn : list nat)
    (sel : list nat * list nat) (w w' : World Z Branch Matrix) :
  fix_largest gen0 mx mn w = (Ret sel, w') ->
  w' = w /\
  exists gmx gmn k i m,
    rows gen0 mx = Ret gmx /\ rows gen0 mn = Ret gmn /\
    k <> length mx /\
    (mx ++ mn) !! k = Some i /\
    excess gmx gmn !! k = Some m /\
    (forall j x, excess gmx gmn !! j = Some x ->
       (x <= m)%Z /\ (j < k -> (x < m)%Z)) /\
    sel = if k <? length mx then ([i], []) else ([], [i]).
Proof.
  unfold fix_largest. intros Hrun.
  apply bind_Ret_inv in Hrun as (gmx & w1 & [Hmx ->]%lift_inv & Hrun).
  apply bind_Ret_inv in Hrun as (gmn & w2 & [Hmn ->]%lift_inv & Hrun).
  apply bind_Ret_inv in Hrun as (k & w3 & [Hk ->]%lift_inv & Hrun).
  fold (excess gmx gmn) in Hk.
  destruct (argmax_first_largest _ _ Hk) as (m & Hm & Hall).
  destruct (length mx <? k) eqn:Hcmp.
  - apply Nat.ltb_lt in Hcmp.
    apply bind_Ret_inv in Hrun as (i & w4 & [Hi ->]%lift_inv & Hrun).
    unfold ret in Hrun. injection Hrun as <- <-. split; [done|].
    exists gmx, gmn, k, i, m. repeat (split; [done || lia|]).
    unfold index in Hi. destruct (mn !! (k - length mx)) as [i'|] eqn:Hl; [|done].
    injection Hi as ->. split; [by rewrite lookup_app_r by lia|].
    split; [done|]. split; [done|].
    by rewrite (proj2 (Nat.ltb_ge k (length mx))) by lia.
  - apply Nat.ltb_ge in Hcmp.
    apply bind_Ret_inv in Hrun as (i & w4 & [Hi ->]%lift_inv & Hrun).
    unfold ret in Hrun. injection Hrun as <- <-. split; [done|].
    unfold index in Hi. destruct (mx !! k) as [i'|] eqn:Hl; [|done].
    injection Hi as ->. pose proof (lookup_lt_Some _ _ _ Hl) as Hlt.
    exists gmx, gmn, k, i, m. repeat (split; [done || lia|]).
    split; [by rewrite lookup_app_l by lia|].
    split; [done|]. split; [done|].
    by rewrite (proj2 (Nat.ltb_lt k (length mx))) by lia.
Qed.

End Selection.
Section LoopFacts.
Context {num : Type} {N : Number num} {Branch Matrix Vec : Type}.
Variable ext : Externals num Branch Matrix Vec.

Abbreviation world := (World num Branch Matrix).
Abbreviation makeYbus_t :=
  (num -> list (BusRow num) -> Branch -> Matrix * Matrix * Matrix).

Lemma run_ac_pf_with_qlims_enforced_unfold (fuel : nat) (rc : Recycle)
    (mk : makeYbus_t) (ppopt : Ppopt num) (w : world) :
  _run_ac_pf_with_qlims_enforced ext fuel rc mk ppopt w =
  (let* (success, lv) :=
     qlims_loop ext fuel rc mk ppopt (ENFORCE_Q_LIMS ppopt) (initial_vars ext w) in
   restore_limited lv ;; ret success) w.
Proof. reflexivity. Qed.

Lemma restore_nothing (lv : LoopVars num) (w : world) :
  limited lv = [] -> restore_limited lv w = (Ret tt, w).
Proof. unfold restore_limited. by intros ->. Qed.

Lemma violations_none (gen0 : list (GenRow num)) :
  (0 <? length (violations gen0).1) || (0 <? length (violations gen0).2) = false <->
  violations gen0 = ([], []).
Proof.
  destruct (violations gen0) as [[|i mx] [|j mn]]; cbn; split; intros H; done.
Qed.

(** When the first pass ends the loop, the enforcement is the plain power
    flow: with no generator beyond a limit it returns the flag and the state
    of the one step it made; with a violation and no PV bus in the network
    it returns failure with that same state, nothing having been limited or
    restored. *)
Theorem enforcement_first_pass_exit (fuel : nat) (rc : Recycle)
    (mk : makeYbus_t) (ppopt : Ppopt num) (w w1 : world) (s : bool) :
  _run_ac_pf_without_qlims_enforced ext rc mk ppopt w = (Ret s, w1) ->
  let run := _run_ac_pf_with_qlims_enforced ext (S fuel) rc mk ppopt w in
  (violations (gen (w_ppci w1)) = ([], []) -> run = (Ret s, w1)) /\
  (violations (gen (w_ppci w1)) <> ([], []) ->
   (bustypes ext (bus (w_ppci w)) (gen (w_ppci w))).1.2 = [] ->
   run = (Ret false, w1)).
Proof.
  intros Hstep run. subst run. rewrite run_ac_pf_with_qlims_enforced_unfold.
  pose proof (violations_none (gen (w_ppci w1))) as Hnone.
  assert (Hloop : forall b,
    ((0 <? length (violations (gen (w_ppci w1))).1)
     || (0 <? length (violations (gen (w_ppci w1))).2) = false /\ b = s) \/
    (violations (gen (w_ppci w1)) <> ([], []) /\
     pv (initial_vars ext w) = [] /\ b = false) ->
    qlims_loop ext (S fuel) rc mk ppopt (ENFORCE_Q_LIMS ppopt)
      (initial_vars ext w) w = (Ret (b, initial_vars ext w), w1)).
  { intros b Hb. rewrite qlims_loop_S, (bind_Ret _ _ _ _ _ Hstep).
    unfold bind at 1, get_gen at 1.
    destruct (violations (gen (w_ppci w1))) as [mx mn]. cbn [fst snd] in *.
    destruct Hb as [[-> ->]|(Hv & -> & ->)]; [done|].
    destruct ((0 <? length mx) || (0 <? length mn)); [done|].
    by destruct Hv; apply Hnone. }
  split.
  - intros Hv. rewrite (bind_Ret _ _ _ _ _ (Hloop s (or_introl (conj (proj2 Hnone Hv) eq_refl)))).
    cbv beta iota.
    by rewrite (bind_Ret _ _ _ _ _ (restore_nothing (initial_vars ext w) w1 eq_refl)).
  - intros Hv Hpv.
    rewrite (bind_Ret _ _ _ _ _ (Hloop false (or_intror (conj Hv (conj Hpv eq_refl))))).
    cbv beta iota.
    by rewrite (bind_Ret _ _ _ _ _ (restore_nothing (initial_vars ext w) w1 eq_refl)).
Qed.

Lemma violations_none_within (gen0 : list (GenRow num)) (i : nat) (g : GenRow num) :
  violations gen0 = ([], []) ->
  gen0 !! i = Some g -> (0 < GEN_STATUS g)%Z ->
  gtb (QG g) (QMAX g) = false /\ ltb (QG g) (QMIN g) = false.
Proof.
  unfold violations. intros [= Hmx Hmn] Hg Hon%Z.ltb_lt.
  assert (Hx : i ∉ find (zip_with andb (map (fun g => (0 <? GEN_STATUS g)%Z) gen0)
                           (map (fun g => gtb (QG g) (QMAX g)) gen0)))
    by (rewrite Hmx; apply not_elem_of_nil).
  assert (Hn : i ∉ find (zip_with andb (map (fun g => (0 <? GEN_STATUS g)%Z) gen0)
                           (map (fun g => ltb (QG g) (QMIN g)) gen0)))
    by (rewrite Hmn; apply not_elem_of_nil).
  rewrite find_spec, lookup_zip_with, !list_lookup_fmap, Hg in Hx, Hn.
  simpl in Hx, Hn. rewrite Hon in Hx, Hn. simpl in Hx, Hn.
  split; [by destruct (gtb (QG g) (QMAX g)) | by destruct (ltb (QG g) (QMIN g))].
Qed.

(** The loop returns success only through the exit without violations. *)
Lemma qlims_loop_true (fuel : nat) (rc : Recycle) (mk : makeYbus_t)
    (ppopt : Ppopt num) (qlim : Z) (lv lv' : LoopVars num) (w w' : world) :
  qlims_loop ext fuel rc mk ppopt qlim lv w = (Ret (true, lv'), w') ->
  violations (gen (w_ppci w')) = ([], []).
Proof.
  revert lv w. induction fuel as [|fuel IH]; intros lv w Hrun; [done|].
  rewrite qlims_loop_S in Hrun.
  apply bind_Ret_inv in Hrun as (s1 & w1 & Hstep & Hrun).
  apply bind_Ret_inv in Hrun as (gen1 & w0 & Hget & Hrun).
  injection Hget as <- <-.
  pose proof (violations_none (gen (w_ppci w1))) as Hnone.
  destruct (violations (gen (w_ppci w1))) as [mx mn] eqn:Hviol.
  cbn [fst snd] in Hnone.
  destruct ((0 <? length mx) || (0 <? length mn)).
  2:{ unfold ret in Hrun. injection Hrun as -> -> ->. rewrite Hviol.
      by apply Hnone. }
  destruct (length (pv lv) =? 0); [done|].
  apply bind_Ret_inv in Hrun as ([mx' mn'] & w2 & _ & Hrun).
  apply bind_Ret_inv in Hrun as (lv2 & w3 & _ & Hrun).
  by eapply IH.
Qed.

(** When the enforcement returns success, every generator that is in
    service and was not limited is within its limits, and every limited
    generator is in service with its reactive output at the limit recorded
    for it. *)
Theorem enforcement_success_state (fuel : nat) (rc : Recycle) (mk : makeYbus_t)
    (ppopt : Ppopt num) (w w' : world) :
  _run_ac_pf_with_qlims_enforced ext fuel rc mk ppopt w = (Ret true, w') ->
  exists lv w1,
    qlims_loop ext fuel rc mk ppopt (ENFORCE_Q_LIMS ppopt) (initial_vars ext w) w
    = (Ret (true, lv), w1) /\
    (forall i g, i ∉ limited lv -> gen (w_ppci w') !! i = Some g ->
       (0 < GEN_STATUS g)%Z ->
       gtb (QG g) (QMAX g) = false /\ ltb (QG g) (QMIN g) = false) /\
    (forall i, i ∈ limited lv ->
       exists g, gen (w_ppci w') !! i = Some g /\ GEN_STATUS g = 1%Z /\
                 fixedQg lv !! i = Some (QG g)).
Proof.
  rewrite run_ac_pf_with_qlims_enforced_unfold. intros Hrun.
  apply bind_Ret_inv in Hrun as ([s lv] & w1 & Hloop & Hrun).
  apply bind_Ret_inv in Hrun as ([] & w2 & Hrest & Hrun).
  unfold ret in Hrun. injection Hrun as -> <-.
  exists lv, w1. split; [done|].
  apply qlims_loop_true in Hloop as Hnone.
  apply restore_limited_Ret in Hrest as (_ & Hout & Hin & _).
  split.
  - intros i g Hi Hg Hon. rewrite (Hout i Hi) in Hg.
    by eapply violations_none_within.
  - intros i Hi. destruct (Hin i Hi) as (g & q & _ & Hq & Hg & _).
    eexists. split; [exact Hg|]. by split.
Qed.

(** With the fix-worst-one policy, a pass whose step returns, with PV
    buses left and the largest excess at the first generator below its
    limit, ends the whole enforcement in [IndexError]; the generators
    limited in earlier passes stay out of service, since the restoration
    is not reached. *)
Theorem enforcement_index_error (fuel : nat) (rc : Recycle) (mk : makeYbus_t)
    (ppopt : Ppopt num) (lv : LoopVars num) (w w1 : world) (s : bool)
    (gmx gmn : list (GenRow num)) :
  _run_ac_pf_without_qlims_enforced ext rc mk ppopt w = (Ret s, w1) ->
  pv lv <> [] ->
  let mx := (violations (gen (w_ppci w1))).1 in
  let mn := (violations (gen (w_ppci w1))).2 in
  rows (gen (w_ppci w1)) mx = Ret gmx ->
  rows (gen (w_ppci w1)) mn = Ret gmn ->
  argmax (excess gmx gmn) = Ret (length mx) ->
  qlims_loop ext (S fuel) rc mk ppopt 2 lv w = (Raise IndexError, w1) /\
  (let* (success, lv') := qlims_loop ext (S fuel) rc mk ppopt 2 lv in
   restore_limited lv' ;; ret success) w = (Raise IndexError, w1).
Proof.
  intros Hstep Hpv mx mn Hmx Hmn Hk.
  assert (Hloop : qlims_loop ext (S fuel) rc mk ppopt 2 lv w
                  = (Raise IndexError, w1)).
  { rewrite qlims_loop_S, (bind_Ret _ _ _ _ _ Hstep).
    unfold bind at 1, get_gen at 1. subst mx mn.
    destruct (violations (gen (w_ppci w1))) as [mx mn]. cbn [fst snd] in *.
    assert (Hne : (0 <? length mx) || (0 <? length mn) = true).
    { destruct mx, mn; try done. apply rows_length in Hmx, Hmn.
      by destruct gmx, gmn. }
    rewrite Hne. destruct (pv lv) as [|p pvs]; [done|]. cbn [length Nat.eqb Z.eqb Pos.eqb].
    unfold bind at 1.
    assert (Hsel : fix_largest (gen (w_ppci w1)) mx mn w1 = (Raise IndexError, w1)).
    { unfold fix_largest, bind, lift. fold (excess gmx gmn) in Hk |- *.
      rewrite Hmx, Hmn. fold (excess gmx gmn). rewrite Hk, Nat.ltb_irrefl.
      unfold index. by rewrite lookup_ge_None_2 by lia. }
    by rewrite Hsel. }
  split; [done|]. unfold bind at 1. by rewrite Hloop.
Qed.

End LoopFacts.
(** *** Termination of the Q-limit loop *)

Section Fuel.
Context {num : Type}.

Lemma in_service_cons (g : GenRow num) (gen0 : list (GenRow num)) :
  in_service (g :: gen0) =
  (if decide (0 < GEN_STATUS g)%Z then 1 else 0) + in_service gen0.
Proof.
  unfold in_service. rewrite filter_cons.
  by destruct (decide (0 < GEN_STATUS g)%Z).
Qed.

Lemma in_service_mono (gen0 gen1 : list (GenRow num)) :
  Forall2 (fun g g' => (0 < GEN_STATUS g')%Z -> (0 < GEN_STATUS g)%Z) gen0 gen1 ->
  in_service gen1 <= in_service gen0.
Proof.
  induction 1 as [|g g' gen0 gen1 Hg _ IH]; [done|].
  rewrite !in_service_cons.
  destruct (decide (0 < GEN_STATUS g')%Z), (decide (0 < GEN_STATUS g)%Z); tauto || lia.
Qed.

Lemma in_service_drop (gen0 gen1 : list (GenRow num)) (i : nat) (g g' : GenRow num) :
  Forall2 (fun g g' => (0 < GEN_STATUS g')%Z -> (0 < GEN_STATUS g)%Z) gen0 gen1 ->
  gen0 !! i = Some g -> gen1 !! i = Some g' ->
  (0 < GEN_STATUS g)%Z -> (GEN_STATUS g' <= 0)%Z ->
  in_service gen1 < in_service gen0.
Proof.
  intros H. revert i. induction H as [|h h' gen0 gen1 Hh Hrest IH]; intros i Hi Hi' Hon Hoff;
    [done|].
  rewrite !in_service_cons. destruct i as [|i]; simpl in Hi, Hi'.
  - injection Hi as ->. injection Hi' as ->.
    pose proof (in_service_mono _ _ Hrest).
    destruct (decide (0 < GEN_STATUS g')%Z), (decide (0 < GEN_STATUS g)%Z); lia.
  - specialize (IH i Hi Hi' Hon Hoff).
    destruct (decide (0 < GEN_STATUS h')%Z), (decide (0 < GEN_STATUS h)%Z); tauto || lia.
Qed.

End Fuel.

Section Termination.
Context {num : Type} {N : Number num} {Branch Matrix Vec : Type}.
Variable ext : Externals num Branch Matrix Vec.

Abbreviation world := (World num Branch Matrix).
Abbreviation makeYbus_t :=
  (num -> list (BusRow num) -> Branch -> Matrix * Matrix * Matrix).

Lemma fuel_free_ret {A} (a : A) : fuel_free (ret a : M world A).
Proof. by intros w. Qed.

Lemma fuel_free_raise {A} (e : exn) : fuel_free (raise e : M world A).
Proof. by intros w. Qed.

Lemma fuel_free_lift {A} (o : outcome A) :
  o <> OutOfFuel -> fuel_free (lift o : M world A).
Proof. by intros H w. Qed.

Lemma fuel_free_bind {A B} (m : M world A) (k : A -> M world B) :
  fuel_free m -> (forall a, fuel_free (k a)) -> fuel_free (bind m k).
Proof.
  intros Hm Hk w. unfold bind. specialize (Hm w).
  destruct (m w) as [[a|e|] w1]; [apply Hk|done|done].
Qed.

Lemma rows_fuel {A} (l : list A) (idx : list nat) : rows l idx <> OutOfFuel.
Proof. by destruct (rows_cases l idx) as [[r ->]| ->]. Qed.

Lemma assign_fuel {A B} (set : A -> B -> A) idx vals (l : list A) :
  assign set idx vals l <> OutOfFuel.
Proof. by destruct (assign_cases set idx vals l) as [[r ->]| ->]. Qed.

Lemma index_fuel {A} (l : list A) (i : nat) : index l i <> OutOfFuel.
Proof. unfold index. by destruct (l !! i). Qed.

Lemma argmax_fuel (l : list num) : argmax l <> OutOfFuel.
Proof. by destruct l. Qed.

Lemma fuel_free_for_each {X} (l : list X) (body : X -> M world unit) :
  (forall x, fuel_free (body x)) -> fuel_free (for_each l body).
Proof.
  intros Hbody. induction l as [|x l IH]; simpl.
  - apply fuel_free_ret.
  - apply fuel_free_bind; [apply Hbody | by intros _].
Qed.

Ltac fuel_free_step :=
  first
    [ apply fuel_free_ret
    | apply fuel_free_raise
    | apply fuel_free_lift;
        first [apply rows_fuel | apply assign_fuel | apply index_fuel | apply argmax_fuel]
    | apply fuel_free_for_each; intros ?
    | apply fuel_free_bind; [| first [intros [[[[? ?] ?] ?] ?] | intros [? ?] | intros ?]]
    | (intros ?; reflexivity || discriminate)
    | match goal with |- fuel_free (if ?b then _ else _) => destruct b end
    | match goal with |- fuel_free (let (_, _) := ?p in _) => destruct p end ].

Ltac fuel_free := repeat fuel_free_step.

Lemma fuel_free_state {A} (m : M world A) :
  (forall w, exists a w', m w = (Ret a, w')) -> fuel_free m.
Proof. intros H w. by destruct (H w) as (a & w' & ->). Qed.

Lemma fuel_free_turn_off (i : nat) : fuel_free (turn_off i : M world unit).
Proof. unfold turn_off. fuel_free; by intros w. Qed.

Lemma fuel_free_turn_on (i : nat) : fuel_free (turn_on i : M world unit).
Proof. unfold turn_on. fuel_free; by intros w. Qed.

Lemma fuel_free_fix_largest (gen0 : list (GenRow num)) (mx mn : list nat) :
  fuel_free (fix_largest gen0 mx mn : M world _).
Proof. unfold fix_largest. fuel_free. Qed.

Lemma fuel_free_convert_to_PQ (lv : LoopVars num) (mx mn : list nat) :
  fuel_free (convert_to_PQ ext lv mx mn).
Proof.
  unfold convert_to_PQ, save_limits, take_out_of_service, check_slacks, reclassify.
  fuel_free; try (by intros w); apply fuel_free_turn_off.
Qed.

Lemma fuel_free_restore_limited (lv : LoopVars num) :
  fuel_free (restore_limited lv : M world unit).
Proof.
  unfold restore_limited. fuel_free; try (by intros w); apply fuel_free_turn_on.
Qed.

Lemma fuel_free_run_ac_pf (rc : Recycle) (mk : makeYbus_t) (ppopt : Ppopt num) :
  fuel_free (_run_ac_pf_without_qlims_enforced ext rc mk ppopt).
Proof.
  unfold _run_ac_pf_without_qlims_enforced, _get_pf_variables_from_ppci,
    _get_Y_bus, _call_power_flow_function.
  fuel_free; by intros w.
Qed.


Lemma same_domain_length {A B} (l : list A) (l' : list B) :
  (forall j, is_Some (l !! j) <-> is_Some (l' !! j)) -> length l = length l'.
Proof.
  intros H. apply Nat.le_antisymm.
  - destruct (decide (length l <= length l')) as [|Hn]; [done|].
    assert (Hs : is_Some (l !! length l')) by (apply lookup_lt_is_Some; lia).
    apply H, lookup_lt_is_Some in Hs. lia.
  - destruct (decide (length l' <= length l)) as [|Hn]; [done|].
    assert (Hs : is_Some (l' !! length l)) by (apply lookup_lt_is_Some; lia).
    apply H, lookup_lt_is_Some in Hs. lia.
Qed.

Lemma fix_largest_one (gen0 : list (GenRow num)) (mx mn mx' mn' : list nat)
    (w w' : world) :
  fix_largest gen0 mx mn w = (Ret (mx', mn'), w') ->
  exists i, mx' ++ mn' = [i].
Proof.
  unfold fix_largest. intros Hrun.
  apply bind_Ret_inv in Hrun as (gmx & w1 & _ & Hrun).
  apply bind_Ret_inv in Hrun as (gmn & w2 & _ & Hrun).
  apply bind_Ret_inv in Hrun as (k & w3 & _ & Hrun).
  destruct (length mx <? k);
    apply bind_Ret_inv in Hrun as (i & w4 & _ & Hrun);
    unfold ret in Hrun; injection Hrun as <- <- <-; by exists i.
Qed.

Lemma keeps_injections_off : pfsoln_keeps_injections ext -> pfsoln_keeps_off ext.
Proof.
  intros Hkeep base bus0 gen0 branch0 Y1 Y2 Y3 V ref0.
  destruct (Hkeep base bus0 gen0 branch0 Y1 Y2 Y3 V ref0) as (_ & Hgb & Hoff).
  split.
  - apply (f_equal length) in Hgb. by rewrite !length_map in Hgb.
  - intros j g g' Hg Hg' Hst. by destruct (Hoff j g g' Hg Hg' Hst).
Qed.

Lemma keeps_injections_shape :
  pfsoln_keeps_injections ext -> pfsoln_keeps_shape ext.
Proof.
  intros Hkeep base bus0 gen0 branch0 Y1 Y2 Y3 V ref0.
  destruct (Hkeep base bus0 gen0 branch0 Y1 Y2 Y3 V ref0) as (Hd & Hgb & _).
  split; [|done]. apply (f_equal length) in Hd. by rewrite !length_map in Hd.
Qed.

Lemma step_keeps_off (rc : Recycle) (mk : makeYbus_t) (ppopt : Ppopt num)
    (w w1 : world) (s : bool) :
  pfsoln_keeps_off ext ->
  _run_ac_pf_without_qlims_enforced ext rc mk ppopt w = (Ret s, w1) ->
  Forall2 (fun g g' => (0 < GEN_STATUS g')%Z -> (0 < GEN_STATUS g)%Z)
    (gen (w_ppci w)) (gen (w_ppci w1)).
Proof.
  intros Hkeep Hstep.
  apply run_ac_pf_without_qlims_enforced_Ret in Hstep
    as (base & Y1 & Y2 & Y3 & V & ref0 & _ & Hgen & _).
  destruct (Hkeep base (bus (w_ppci w)) (gen (w_ppci w)) (branch (w_ppci w))
              Y1 Y2 Y3 V ref0) as (Hlen & Hoff).
  rewrite <- Hgen in Hlen, Hoff.
  apply Forall2_same_length_lookup_2; [done|].
  intros j g g' Hg Hg' Hon.
  destruct (decide (0 < GEN_STATUS g)%Z) as [|Hn]; [done|].
  pose proof (Hoff j g g' Hg Hg' ltac:(lia)). lia.
Qed.

Lemma convert_to_PQ_drop (lv lv' : LoopVars num) (mx mn : list nat)
    (w w' : world) (i : nat) :
  convert_to_PQ ext lv mx mn w = (Ret lv', w') ->
  i ∈ mx ++ mn ->
  (forall j, j ∈ mx ++ mn ->
     exists g, gen (w_ppci w) !! j = Some g /\ (0 < GEN_STATUS g)%Z) ->
  in_service (gen (w_ppci w')) < in_service (gen (w_ppci w)).
Proof.
  intros Hconv Hi Hon.
  apply convert_to_PQ_Ret in Hconv
    as (_ & _ & _ & _ & _ & _ & Hout & Hin & _).
  destruct (Hon i Hi) as (g & Hg & Hgon).
  destruct (Hin i Hi) as (g0 & q & Hg0 & _ & Hg' & _).
  rewrite Hg in Hg0. injection Hg0 as <-.
  eapply (in_service_drop _ _ i g); [|exact Hg|exact Hg'|done|simpl; lia].
  apply Forall2_same_length_lookup_2.
  - apply same_domain_length. intros j.
    destruct (decide (j ∈ mx ++ mn)) as [Hj|Hj].
    + destruct (Hin j Hj) as (h0 & q0 & -> & _ & -> & _). by split.
    + by rewrite (Hout j Hj).
  - intros j h h' Hh Hh' Hhon.
    destruct (decide (j ∈ mx ++ mn)) as [Hj|Hj].
    + destruct (Hin j Hj) as (h0 & q0 & _ & _ & Hh0 & _).
      rewrite Hh' in Hh0. injection Hh0 as ->. simpl in Hhon. lia.
    + rewrite (Hout j Hj), Hh in Hh'. by injection Hh' as <-.
Qed.

Lemma qlims_loop_more_fuel (fuel fuel' : nat) (rc : Recycle) (mk : makeYbus_t)
    (ppopt : Ppopt num) (qlim : Z) (lv : LoopVars num) (w : world) :
  (qlims_loop ext fuel rc mk ppopt qlim lv w).1 <> OutOfFuel ->
  fuel <= fuel' ->
  qlims_loop ext fuel' rc mk ppopt qlim lv w =
  qlims_loop ext fuel rc mk ppopt qlim lv w.
Proof.
  revert fuel' lv w. induction fuel as [|fuel IH]; intros fuel' lv w Hfree Hle;
    [done|].
  destruct fuel' as [|fuel']; [lia|].
  rewrite !qlims_loop_S in *. unfold bind at 1 in Hfree. unfold bind at 1 5.
  destruct (_run_ac_pf_without_qlims_enforced ext rc mk ppopt w)
    as [[s| |] w1]; [|done|done].
  unfold bind at 1, get_gen at 1 in Hfree. unfold bind at 1 4, get_gen at 1 2.
  destruct (violations (gen (w_ppci w1))) as [mx mn].
  destruct ((0 <? length mx) || (0 <? length mn)); [|done].
  destruct (length (pv lv) =? 0); [done|].
  unfold bind at 1 in Hfree. unfold bind at 1 3.
  destruct ((if (qlim =? 2)%Z then fix_largest (gen (w_ppci w1)) mx mn
             else ret (mx, mn)) w1) as [[[mx' mn']| |] w2]; [|done|done].
  unfold bind at 1 in Hfree. unfold bind at 1 2.
  destruct (convert_to_PQ ext lv mx' mn' w2) as [[lv2| |] w3]; [|done|done].
  apply IH; [done|lia].
Qed.

Lemma qlims_loop_fuel (fuel : nat) (rc : Recycle) (mk : makeYbus_t)
    (ppopt : Ppopt num) (qlim : Z) (lv : LoopVars num) (w : world) :
  pfsoln_keeps_off ext ->
  in_service (gen (w_ppci w)) < fuel ->
  (qlims_loop ext fuel rc mk ppopt qlim lv w).1 <> OutOfFuel.
Proof.
  intros Hkeep. revert lv w. induction fuel as [|fuel IH]; intros lv w Hlt; [lia|].
  rewrite qlims_loop_S. unfold bind at 1.
  pose proof (fuel_free_run_ac_pf rc mk ppopt w) as Hstep0.
  destruct (_run_ac_pf_without_qlims_enforced ext rc mk ppopt w)
    as [[s| |] w1] eqn:Hstep; [|done|done].
  pose proof (in_service_mono _ _ (step_keeps_off _ _ _ _ _ _ Hkeep Hstep)) as Hle.
  unfold bind at 1, get_gen at 1.
  pose proof (violations_in_service (gen (w_ppci w1))) as Hviol.
  destruct (violations (gen (w_ppci w1))) as [mx mn]. cbn [fst snd] in Hviol.
  destruct ((0 <? length mx) || (0 <? length mn)) eqn:Hany; [|done].
  destruct (length (pv lv) =? 0); [done|].
  unfold bind at 1.
  assert (Hsel : exists o w2,
    (if (qlim =? 2)%Z then fix_largest (gen (w_ppci w1)) mx mn else ret (mx, mn)) w1
    = (o, w2) /\
    match o with
    | Ret (mx', mn') =>
        w2 = w1 /\ (exists i, i ∈ mx' ++ mn') /\
        forall i, i ∈ mx' ++ mn' -> i ∈ mx ++ mn
    | Raise _ => True
    | OutOfFuel => False
    end).
  { destruct (qlim =? 2)%Z.
    - pose proof (fuel_free_fix_largest (gen (w_ppci w1)) mx mn w1) as Hfree.
      destruct (fix_largest (gen (w_ppci w1)) mx mn w1) as [[[mx' mn']| |] w2] eqn:Hfix;
        eexists _, _; (split; [reflexivity|]); [|done|done].
      destruct (fix_largest_Ret _ _ _ _ _ _ _ Hfix) as [-> Hsub].
      destruct (fix_largest_one _ _ _ _ _ _ _ Hfix) as [i Hi].
      split; [done|]. split; [|done]. exists i. rewrite Hi. by left.
    - eexists _, _. split; [reflexivity|]. split; [done|]. split; [|done].
      destruct mx as [|i mx]; [destruct mn as [|i mn]; [done|]|];
        exists i; simpl; by left. }
  destruct Hsel as (o & w2 & -> & Ho).
  destruct o as [[mx' mn']| |]; [|done|done].
  destruct Ho as (-> & [i Hi] & Hsub).
  unfold bind at 1.
  pose proof (fuel_free_convert_to_PQ lv mx' mn' w1) as Hfree.
  destruct (convert_to_PQ ext lv mx' mn' w1) as [[lv2| |] w3] eqn:Hconv; [|done|done].
  apply IH.
  pose proof (convert_to_PQ_drop _ _ _ _ _ _ i Hconv Hi
                (fun j Hj => Hviol j (Hsub j Hj))).
  lia.
Qed.

(** The Q-limit loop ends: when [pfsoln] returns as many generators as
    it was given and does not put a generator back in service, a number of
    passes above the number of generators in service is enough for the
    enforcement to return or raise, and with more passes allowed the result
    is the same. *)
Theorem enforcement_terminates (fuel fuel' : nat) (rc : Recycle)
    (mk : makeYbus_t) (ppopt : Ppopt num) (w : world) :
  pfsoln_keeps_off ext ->
  in_service (gen (w_ppci w)) < fuel ->
  fuel <= fuel' ->
  (_run_ac_pf_with_qlims_enforced ext fuel rc mk ppopt w).1 <> OutOfFuel /\
  _run_ac_pf_with_qlims_enforced ext fuel' rc mk ppopt w =
  _run_ac_pf_with_qlims_enforced ext fuel rc mk ppopt w.
Proof.
  intros Hkeep Hlt Hle.
  pose proof (qlims_loop_fuel fuel rc mk ppopt (ENFORCE_Q_LIMS ppopt)
                (initial_vars ext w) w Hkeep Hlt) as Hfree.
  split.
  - rewrite run_ac_pf_with_qlims_enforced_unfold. unfold bind at 1.
    destruct (qlims_loop ext fuel rc mk ppopt _ _ w) as [[[s lv]| |] w1];
      [|done|done].
    apply fuel_free_bind; [apply fuel_free_restore_limited|].
    intros _. apply fuel_free_ret.
  - rewrite !run_ac_pf_with_qlims_enforced_unfold. unfold bind at 1 3.
    by rewrite (qlims_loop_more_fuel fuel fuel' rc mk ppopt _ _ w Hfree Hle).
Qed.

End Termination.
(** *** One power flow *)

Section Step.
Context {num : Type} {N : Number num} {Branch Matrix Vec : Type}.
Variable ext : Externals num Branch Matrix Vec.

Abbreviation world := (World num Branch Matrix).
Abbreviation makeYbus_t :=
  (num -> list (BusRow num) -> Branch -> Matrix * Matrix * Matrix).

Lemma internal_eta (i : Internal Matrix) : mkInternal (Ybus i) (Yf i) (Yt i) = i.
Proof. by destruct i. Qed.

Lemma run_ac_pf_result (rc : Recycle) (mk : makeYbus_t) (ppopt : Ppopt num)
    (w : world) :
  let p := w_ppci w in
  let Y := matrices_used ext rc mk p in
  let alg := PF_ALG ppopt in
  let t := bustypes ext (bus p) (gen p) in
  let stored := matrices_kept ext rc mk p in
  let solved := kernel_result ext rc mk ppopt p in
  _run_ac_pf_without_qlims_enforced ext rc mk ppopt w =
  match solved with
  | Some (V, success) =>
      let r := pfsoln ext (baseMVA p) (bus p) (gen p) (branch p)
                 Y.1.1 Y.1.2 Y.2 V t.1.1 in
      (Ret success,
       mkWorld (mkPpci (baseMVA p) r.1.1 r.1.2 r.2 stored)
         (w_calls w ++ fetch_calls ext rc p ++ kernel_calls alg ++ [call_pfsoln])
         (w_clock w))
  | None =>
      (Raise ValueError_algorithm,
       mkWorld (mkPpci (baseMVA p) (bus p) (gen p) (branch p) stored)
         (w_calls w ++ fetch_calls ext rc p) (w_clock w))
  end.
Proof.
  destruct w as [[base bus0 gen0 branch0 int0] calls clock].
  unfold _run_ac_pf_without_qlims_enforced, _get_pf_variables_from_ppci,
    _get_Y_bus, _call_power_flow_function, kernel_result, matrices_kept,
    matrices_used, fetch_calls, kernel_calls, reuses_Ybus.
  cbn -[Z.eqb Nat.eqb]. unfold bind, get_ppci, ret. cbn -[Z.eqb Nat.eqb].
  destruct (recycle_Ybus rc), (mat_size ext (Ybus int0) =? 0),
    ((PF_ALG ppopt =? 2)%Z || (PF_ALG ppopt =? 3)%Z), (PF_ALG ppopt =? 4)%Z;
    cbn -[Z.eqb Nat.eqb];
    try (destruct (fdpf _ _ _ _ _ _ _ _ _ _) as [V s]);
    try (destruct (gausspf _ _ _ _ _ _ _ _) as [V s]);
    cbn; rewrite ?internal_eta, ?app_nil_r, <- ?app_assoc; reflexivity.
Qed.


Lemma supported_cases (alg : Z) :
  alg ∈ [2; 3; 4]%Z ->
  (alg =? 2)%Z || (alg =? 3)%Z = true \/
  ((alg =? 2)%Z || (alg =? 3)%Z = false /\ (alg =? 4)%Z = true).
Proof.
  intros H. repeat (apply elem_of_cons in H as [->|H]);
    [by left | by left | by right |].
  by apply elem_of_nil in H.
Qed.

Lemma unsupported_cases (alg : Z) :
  alg ∉ [2; 3; 4]%Z ->
  (alg =? 2)%Z || (alg =? 3)%Z = false /\ (alg =? 4)%Z = false.
Proof.
  intros H. rewrite !not_elem_of_cons in H. destruct H as (? & ? & ? & _).
  split; [apply orb_false_iff; split|]; by apply Z.eqb_neq.
Qed.

(** Whenever one power flow returns, its algorithm is a fast-decoupled
    one or Gauss-Seidel, the flag is the one the kernel reported, the arrays
    of the case are what [pfsoln] made of the kernel's voltages, the
    matrices are stored when recycling is on, and the calls made are the
    fetch of the matrices, the kernel once and [pfsoln] once, in that
    order. *)
Theorem run_ac_pf_returned (rc : Recycle) (mk : makeYbus_t) (ppopt : Ppopt num)
    (w w' : world) (s : bool) :
  _run_ac_pf_without_qlims_enforced ext rc mk ppopt w = (Ret s, w') ->
  let p := w_ppci w in
  let Y := matrices_used ext rc mk p in
  PF_ALG ppopt ∈ [2; 3; 4]%Z /\
  (exists V,
     kernel_result ext rc mk ppopt p = Some (V, s) /\
     (bus (w_ppci w'), gen (w_ppci w'), branch (w_ppci w')) =
       pfsoln ext (baseMVA p) (bus p) (gen p) (branch p) Y.1.1 Y.1.2 Y.2 V
         (bustypes ext (bus p) (gen p)).1.1) /\
  internal (w_ppci w') = matrices_kept ext rc mk p /\
  baseMVA (w_ppci w') = baseMVA p /\ w_clock w' = w_clock w /\
  w_calls w' = w_calls w ++ fetch_calls ext rc p ++
               kernel_calls (PF_ALG ppopt) ++ [call_pfsoln] /\
  calls_of call_fdpf (kernel_calls (PF_ALG ppopt)) +
  calls_of call_gausspf (kernel_calls (PF_ALG ppopt)) = 1.
Proof.
  intros Hrun p Y. rewrite run_ac_pf_result in Hrun. cbv zeta in Hrun. fold p in Hrun.
  destruct (kernel_result ext rc mk ppopt p) as [[V s']|] eqn:Hk; [|done].
  injection Hrun as <- <-.
  assert (Halg : PF_ALG ppopt ∈ [2; 3; 4]%Z).
  { unfold kernel_result in Hk.
    destruct (PF_ALG ppopt =? 2)%Z eqn:H2;
      [apply Z.eqb_eq in H2; rewrite H2; repeat constructor|].
    destruct (PF_ALG ppopt =? 3)%Z eqn:H3;
      [apply Z.eqb_eq in H3; rewrite H3; repeat constructor|].
    destruct (PF_ALG ppopt =? 4)%Z eqn:H4;
      [apply Z.eqb_eq in H4; rewrite H4; repeat constructor|].
    discriminate Hk. }
  split; [done|]. cbn. split.
  { exists V. split; [done|]. by destruct (pfsoln _ _ _ _ _ _ _ _ _ _) as [[? ?] ?]. }
  repeat (split; [done|]).
  unfold kernel_calls. by destruct (supported_cases _ Halg) as [-> | [-> ->]].
Qed.

(** One power flow with any other algorithm raises the
    unsupported-algorithm error with the arrays of the case untouched and
    no kernel and no [pfsoln] called; the admittance matrices have been
    fetched by then, so they were built unless reused, and are stored when
    recycling is on. *)
Theorem run_ac_pf_unsupported (rc : Recycle) (mk : makeYbus_t) (ppopt : Ppopt num)
    (w : world) :
  PF_ALG ppopt ∉ [2; 3; 4]%Z ->
  let p := w_ppci w in
  exists w',
    _run_ac_pf_without_qlims_enforced ext rc mk ppopt w
    = (Raise ValueError_algorithm, w') /\
    bus (w_ppci w') = bus p /\ gen (w_ppci w') = gen p /\
    branch (w_ppci w') = branch p /\ baseMVA (w_ppci w') = baseMVA p /\
    internal (w_ppci w') = matrices_kept ext rc mk p /\
    w_clock w' = w_clock w /\
    w_calls w' = w_calls w ++ fetch_calls ext rc p.
Proof.
  intros Halg p. pose proof (run_ac_pf_result rc mk ppopt w) as Hres.
  cbv zeta in Hres. fold p in Hres.
  assert (Hk : kernel_result ext rc mk ppopt p = None).
  { unfold kernel_result. by destruct (unsupported_cases _ Halg) as [-> ->]. }
  rewrite Hk in Hres. eexists. split; [exact Hres|]. by cbn.
Qed.

End Step.
(** *** The calls of an enforcement *)

Section Calls.
Context {num : Type} {N : Number num} {Branch Matrix Vec : Type}.
Variable ext : Externals num Branch Matrix Vec.

Abbreviation world := (World num Branch Matrix).
Abbreviation makeYbus_t :=
  (num -> list (BusRow num) -> Branch -> Matrix * Matrix * Matrix).

Lemma calls_of_app (c : Call) (l1 l2 : list Call) :
  calls_of c (l1 ++ l2) = calls_of c l1 + calls_of c l2.
Proof. unfold calls_of. by rewrite filter_app, length_app. Qed.

Lemma pass_calls_app (rc : Recycle) (reused : bool) (l1 l2 : list Call) :
  pass_calls rc reused l1 -> pass_calls rc reused l2 ->
  pass_calls rc reused (l1 ++ l2).
Proof.
  intros (H1 & H2 & H3 & H4 & H5) (K1 & K2 & K3 & K4 & K5).
  unfold pass_calls. rewrite !calls_of_app.
  repeat split; intros; try specialize (H2 ltac:(done));
    try specialize (K2 ltac:(done)); try specialize (H3 ltac:(done));
    try specialize (K3 ltac:(done)); lia.
Qed.

Lemma step_pass_calls (rc : Recycle) (mk : makeYbus_t) (ppopt : Ppopt num)
    (w w1 : world) (s : bool) :
  _run_ac_pf_without_qlims_enforced ext rc mk ppopt w = (Ret s, w1) ->
  exists l,
    w_calls w1 = w_calls w ++ l /\ calls_of call_pfsoln l = 1 /\
    pass_calls rc (reuses_Ybus ext rc (w_ppci w)) l /\
    (reuses_Ybus ext rc (w_ppci w) = true ->
     internal (w_ppci w1) = internal (w_ppci w)).
Proof.
  rewrite run_ac_pf_result. cbv zeta.
  destruct (kernel_result ext rc mk ppopt (w_ppci w)) as [[V s']|] eqn:Hk; [|done].
  intros [= <- <-]. eexists. split; [reflexivity|]. cbn.
  unfold kernel_result in Hk. unfold pass_calls, fetch_calls, kernel_calls, matrices_kept,
    matrices_used, reuses_Ybus.
  destruct (recycle_Ybus rc), (negb (mat_size ext (Ybus (internal (w_ppci w))) =? 0)),
    ((PF_ALG ppopt =? 2)%Z || (PF_ALG ppopt =? 3)%Z), (PF_ALG ppopt =? 4)%Z;
    try discriminate Hk; cbn; rewrite ?internal_eta; by repeat split.
Qed.

Lemma qlims_loop_calls (fuel : nat) (rc : Recycle) (mk : makeYbus_t)
    (ppopt : Ppopt num) (qlim : Z) (lv lv' : LoopVars num) (w w' : world)
    (s : bool) :
  qlims_loop ext fuel rc mk ppopt qlim lv w = (Ret (s, lv'), w') ->
  exists l,
    w_calls w' = w_calls w ++ l /\ 1 <= calls_of call_pfsoln l /\
    pass_calls rc (reuses_Ybus ext rc (w_ppci w)) l /\
    (reuses_Ybus ext rc (w_ppci w) = true ->
     internal (w_ppci w') = internal (w_ppci w)).
Proof.
  revert lv w. induction fuel as [|fuel IH]; intros lv w Hrun; [done|].
  rewrite qlims_loop_S in Hrun.
  apply bind_Ret_inv in Hrun as (s1 & w1 & Hstep & Hrun).
  apply step_pass_calls in Hstep as (l1 & Hl1 & Hn1 & Hp1 & Hi1).
  apply bind_Ret_inv in Hrun as (gen1 & w0 & Hget & Hrun).
  injection Hget as <- <-.
  assert (Hend : forall b, (Ret (b, lv), w1) = (Ret (s, lv'), w') ->
    exists l, w_calls w' = w_calls w ++ l /\ 1 <= calls_of call_pfsoln l /\
      pass_calls rc (reuses_Ybus ext rc (w_ppci w)) l /\
      (reuses_Ybus ext rc (w_ppci w) = true ->
       internal (w_ppci w') = internal (w_ppci w))).
  { intros b [= _ _ <-]. exists l1. repeat (split; [done || lia|]). done. }
  destruct (violations (gen (w_ppci w1))) as [mx mn].
  destruct ((0 <? length mx) || (0 <? length mn)); [|by eapply Hend].
  destruct (length (pv lv) =? 0); [by eapply Hend|].
  apply bind_Ret_inv in Hrun as ([mx' mn'] & w2 & Hsel & Hrun).
  apply bind_Ret_inv in Hrun as (lv2 & w3 & Hconv & Hrun).
  assert (w2 = w1) as ->.
  { destruct (qlim =? 2)%Z.
    - by apply fix_largest_Ret in Hsel as [-> _].
    - unfold ret in Hsel. by injection Hsel as _ _ <-. }
  apply convert_to_PQ_Ret in Hconv as ((Hc & _ & _ & _ & Hint) & _).
  apply IH in Hrun as (l2 & Hl2 & Hn2 & Hp2 & Hi2).
  assert (Hre : reuses_Ybus ext rc (w_ppci w) = true ->
                reuses_Ybus ext rc (w_ppci w3) = true).
  { intros Hr. unfold reuses_Ybus in *. by rewrite Hint, (Hi1 Hr). }
  exists (l1 ++ l2). rewrite Hl2, Hc, Hl1, app_assoc. split; [done|].
  rewrite calls_of_app. split; [lia|]. split.
  - apply pass_calls_app; [done|].
    destruct Hp2 as (? & ? & H3 & ? & ?). repeat split; try done.
    intros Hr. rewrite Hr in *. by apply H3, Hre.
  - intros Hr. by rewrite (Hi2 (Hre Hr)), Hint, (Hi1 Hr).
Qed.

(** An enforcement that returns has made at least one pass; in every
    pass the kernel was called once and [pfsoln] once; the admittance
    matrices were built once per pass when recycling is off, and not at
    all, and left as stored, when the run started with stored matrices
    to reuse. Nothing else was called. *)
Theorem enforcement_calls (fuel : nat) (rc : Recycle) (mk : makeYbus_t)
    (ppopt : Ppopt num) (w w' : world) (s : bool) :
  _run_ac_pf_with_qlims_enforced ext fuel rc mk ppopt w = (Ret s, w') ->
  exists l,
    w_calls w' = w_calls w ++ l /\
    1 <= calls_of call_pfsoln l /\
    calls_of call_fdpf l + calls_of call_gausspf l = calls_of call_pfsoln l /\
    (recycle_Ybus rc = false -> calls_of call_makeYbus l = calls_of call_pfsoln l) /\
    (reuses_Ybus ext rc (w_ppci w) = true ->
     calls_of call_makeYbus l = 0 /\ internal (w_ppci w') = internal (w_ppci w)) /\
    calls_of call_run_dc_pf l = 0 /\ calls_of call_store_results l = 0.
Proof.
  rewrite run_ac_pf_with_qlims_enforced_unfold. intros Hrun.
  apply bind_Ret_inv in Hrun as ([s0 lv] & w1 & Hloop & Hrun).
  apply bind_Ret_inv in Hrun as ([] & w2 & Hrest & Hrun).
  unfold ret in Hrun. injection Hrun as <- <-.
  apply qlims_loop_calls in Hloop as (l & Hl & Hn & (H1 & H2 & H3 & H4 & H5) & Hi).
  apply restore_limited_Ret in Hrest as ((Hc & _ & _ & _ & Hint) & _).
  exists l. rewrite Hc, Hint. repeat (split; [done|]).
  split; [|done]. intros Hr. split; [by apply H3 | by apply Hi].
Qed.

End Calls.
(** *** The top-level run *)

Section TopLevel.
Context {num : Type} {N : Number num} {Branch Matrix Vec : Type}.
Variable ext : Externals num Branch Matrix Vec.

Abbreviation world := (World num Branch Matrix).
Abbreviation makeYbus_t :=
  (num -> list (BusRow num) -> Branch -> Matrix * Matrix * Matrix).

Lemma algorithm_pypower_dict_cases (name : string) :
  (name ∈ algorithm_names /\
   (exists alg, algorithm_pypower_dict name = Ret alg /\ alg ∈ [1; 2; 3; 4]%Z)) \/
  ((name ∉ algorithm_names) /\
   algorithm_pypower_dict name = Raise KeyError).
Proof.
  unfold algorithm_pypower_dict, algorithm_names.
  destruct (decide (name = "nr"%string)) as [->|H1].
  { left. split; [repeat constructor|]. eexists. split; [done|]. repeat constructor. }
  destruct (decide (name = "fdbx"%string)) as [->|H2].
  { left. split; [repeat constructor|]. eexists. split; [done|]. repeat constructor. }
  destruct (decide (name = "fdxb"%string)) as [->|H3].
  { left. split; [repeat constructor|]. eexists. split; [done|]. repeat constructor. }
  destruct (decide (name = "gs"%string)) as [->|H4].
  { left. split; [repeat constructor|]. eexists. split; [done|]. repeat constructor. }
  right. split; [|done]. rewrite !not_elem_of_cons. repeat split; try done.
  apply not_elem_of_nil.
Qed.

(** The reading of the clock leaves the case and the record of calls
    alone. *)
Lemma time_frame (w : world) :
  exists t w0, time w = (Ret t, w0) /\ w_ppci w0 = w_ppci w /\
               w_calls w0 = w_calls w.
Proof. unfold time. destruct (w_clock w); by eexists _, _. Qed.

(** An algorithm name that is not a key of the table ends the run in
    [KeyError] right after the first reading of the clock: the case is
    untouched and no collaborator was called. *)
Theorem runpf_unknown_algorithm (fuel : nat) (options : Options num) (w : world) :
  algorithm options ∉ algorithm_names ->
  exists w',
    _runpf_pypower ext fuel options w = (Raise KeyError, w') /\
    w_ppci w' = w_ppci w /\ w_calls w' = w_calls w /\
    w_clock w' = tail (w_clock w).
Proof.
  intros Hname.
  destruct (algorithm_pypower_dict_cases (algorithm options))
    as [[Hin _]|[_ Hkey]]; [done|].
  unfold _runpf_pypower, _get_options, bind, lift, time. rewrite Hkey.
  destruct w as [p calls [|t ts]]; by eexists.
Qed.


Lemma ac_runpf_unsupported (fuel : nat) (ppopt : Ppopt num) (flag : bool)
    (rc : Recycle) (w : world) :
  PF_ALG ppopt ∉ [2; 3; 4]%Z ->
  exists w' l,
    w_calls w' = w_calls w ++ l /\ (l = [] \/ l = [call_makeYbus]) /\
    (_ac_runpf ext fuel ppopt flag rc w = (Raise ValueError_algorithm, w') \/
     (fuel = 0 /\ ENFORCE_Q_LIMS ppopt <> 0%Z /\
      _ac_runpf ext fuel ppopt flag rc w = (OutOfFuel, w'))).
Proof.
  intros Halg. unfold _ac_runpf.
  destruct (_import_numba_extensions_if_flag_is_true ext flag) as [flag' mk].
  assert (Hstep : forall w0, exists w' l,
    w_calls w' = w_calls w0 ++ l /\ (l = [] \/ l = [call_makeYbus]) /\
    _run_ac_pf_without_qlims_enforced ext rc mk ppopt w0
    = (Raise ValueError_algorithm, w')).
  { intros w0.
    pose proof (run_ac_pf_result ext rc mk ppopt w0) as Hres. cbv zeta in Hres.
    assert (Hk : kernel_result ext rc mk ppopt (w_ppci w0) = None).
    { unfold kernel_result. by destruct (unsupported_cases _ Halg) as [-> ->]. }
    rewrite Hk in Hres.
    eexists _, (fetch_calls ext rc (w_ppci w0)). split; [|split; [|exact Hres]].
    - done.
    - unfold fetch_calls. destruct (reuses_Ybus _ _ _); auto. }
  destruct (ENFORCE_Q_LIMS ppopt =? 0)%Z eqn:Hq; cbn [negb].
  - destruct (Hstep w) as (w' & l & ? & ? & ?). exists w', l. auto.
  - apply Z.eqb_neq in Hq. rewrite run_ac_pf_with_qlims_enforced_unfold.
    destruct fuel as [|fuel].
    + exists w, []. rewrite app_nil_r. split; [done|]. split; [by left|].
      right. by repeat split.
    + destruct (Hstep w) as (w' & l & ? & ? & Hrun). exists w', l.
      split; [done|]. split; [done|]. left.
      unfold bind at 1. rewrite qlims_loop_S. unfold bind at 1. by rewrite Hrun.
Qed.

Lemma get_options_Ret (options : Options num) init a nb rc ppopt :
  _get_options options = Ret (init, a, nb, rc, ppopt) ->
  init = init_va_degree options /\ a = ac options /\ nb = numba options /\
  rc = recycle options /\
  algorithm_pypower_dict (algorithm options) = Ret (PF_ALG ppopt) /\
  ENFORCE_Q_LIMS ppopt = enforce_q_lims options.
Proof.
  unfold _get_options.
  destruct (algorithm_pypower_dict (algorithm options)) as [alg| |]; [|done..].
  by intros [= <- <- <- <- <-].
Qed.

Lemma table_nr : algorithm_pypower_dict "nr" = Ret 1%Z.
Proof. reflexivity. Qed.

Lemma table_supported (name : string) (alg : Z) :
  algorithm_pypower_dict name = Ret alg ->
  (name = "nr"%string /\ alg = 1%Z) \/
  (name ∈ ["fdbx"; "fdxb"; "gs"]%string /\ alg ∈ [2; 3; 4]%Z).
Proof.
  unfold algorithm_pypower_dict.
  repeat case_decide; intros [= <-]; subst;
    first [by left | right; split; repeat constructor].
Qed.

(** The run returns only in the AC formulation with one of the
    algorithms fdbx, fdxb and gs, and only after the result was stored:
    with [w2] the state in which the AC power flow returned the flag, and
    [t0] and [t1] the two readings of the clock, the case the run leaves is
    what [_store_results_from_pf_in_ppci] made of the case of [w2], its own
    [bus], [gen] and [branch], the flag and [t1 - t0], and the storing is
    the one call recorded after those of [w2]. *)
Theorem runpf_returns_stored (fuel : nat) (options : Options num)
    (w w' : world) (s : bool) :
  _runpf_pypower ext fuel options w = (Ret s, w') ->
  ac options = true /\
  algorithm options ∈ ["fdbx"; "fdxb"; "gs"]%string /\
  (exists t0 w0 ppopt w1 w2 t1 w3,
     time w = (Ret t0, w0) /\
     _get_options options =
       Ret (init_va_degree options, true, numba options, recycle options, ppopt) /\
     (if decide (init_va_degree options = "dc"%string)
      then run_dc_pf ext else ret tt) w0 = (Ret tt, w1) /\
     _ac_runpf ext fuel ppopt (numba options) (recycle options) w1 = (Ret s, w2) /\
     time w2 = (Ret t1, w3) /\
     w_ppci w' =
       _store_results_from_pf_in_ppci ext (w_ppci w2) (bus (w_ppci w2))
         (gen (w_ppci w2)) (branch (w_ppci w2)) s (sub t1 t0) /\
     w_calls w' = w_calls w2 ++ [call_store_results] /\
     w_clock w' = w_clock w3) /\
  last (w_calls w') = Some call_store_results.
Proof.
  unfold _runpf_pypower. intros Hrun.
  apply bind_Ret_inv in Hrun as (t0 & w0 & Ht0 & Hrun).
  apply bind_Ret_inv in Hrun as ([[[[init a] nb] rc] ppopt] & w1 & [Hopt ->]%lift_inv & Hrun).
  pose proof Hopt as Hopt0.
  apply get_options_Ret in Hopt as (-> & -> & -> & -> & Halg & Hq).
  apply bind_Ret_inv in Hrun as ([s1 locals] & w2 & Hbody & Hrun).
  apply bind_Ret_inv in Hrun as (t1 & w3 & Ht1 & Hrun).
  destruct locals as [[[bus1 gen1] branch1]|]; [|done].
  destruct (ac options) eqn:Hacopt; [|
    apply bind_Ret_inv in Hbody as (? & ? & _ & Hbody); by injection Hbody].
  split; [done|].
  apply bind_Ret_inv in Hbody as ([] & w4 & Hdc & Hbody).
  apply bind_Ret_inv in Hbody as (s2 & w5 & Hac & Hbody).
  apply bind_Ret_inv in Hbody as (p5 & w6 & [= <- <-] & Hbody).
  unfold ret in Hbody. injection Hbody as <- <- <- <- <-.
  split.
  { destruct (table_supported _ _ Halg) as [[_ H1]|[? _]]; [|done].
    destruct (ac_runpf_unsupported fuel ppopt (numba options) (recycle options) w4)
      as (wx & l & _ & _ & [Hr|(_ & _ & Hr)]); try congruence.
    rewrite H1. rewrite !not_elem_of_cons. repeat split; try done.
    apply not_elem_of_nil. }
  assert (w_ppci w3 = w_ppci w5 /\ w_calls w3 = w_calls w5) as [Hp Hc].
  { unfold time in Ht1. destruct (w_clock w5); by injection Ht1 as _ <-. }
  apply bind_Ret_inv in Hrun as ([] & w7 & [= <-] & Hrun).
  apply bind_Ret_inv in Hrun as (p7 & w8 & [= <- <-] & Hrun).
  apply bind_Ret_inv in Hrun as ([] & w9 & [= <-] & Hrun).
  unfold ret in Hrun. injection Hrun as <- <-. cbn. split.
  - exists t0, w1, ppopt, w4, w5, t1, w3.
    repeat (split; [done|]). rewrite Hp, Hc. by repeat split.
  - by rewrite last_snoc.
Qed.

(** In the AC formulation the name nr passes the table and is refused
    by the dispatcher: the run ends in the unsupported-algorithm error
    with no kernel, no [pfsoln] and no storing of results called; a DC
    start that was asked for has been made by then. *)
Theorem runpf_ac_newton_rejected (fuel : nat) (options : Options num) (w : world) :
  ac options = true ->
  algorithm options = "nr"%string ->
  (enforce_q_lims options <> 0%Z -> 0 < fuel) ->
  exists w' l,
    _runpf_pypower ext fuel options w = (Raise ValueError_algorithm, w') /\
    w_calls w' = w_calls w ++ l /\
    calls_of call_fdpf l = 0 /\ calls_of call_gausspf l = 0 /\
    calls_of call_pfsoln l = 0 /\ calls_of call_store_results l = 0 /\
    calls_of call_run_dc_pf l =
      (if decide (init_va_degree options = "dc"%string) then 1 else 0).
Proof.
  intros Hac Hname Hfuel. unfold _runpf_pypower.
  destruct (time_frame w) as (t0 & w0 & Ht0 & Hp0 & Hc0).
  rewrite (bind_Ret _ _ _ _ _ Ht0).
  unfold _get_options. rewrite Hname, table_nr, Hac.
  unfold bind at 1, lift at 1. cbv beta iota.
  set (ppopt := mkPpopt _ _ _ _ _ _ _).
  assert (Halg : PF_ALG ppopt ∉ [2; 3; 4]%Z).
  { cbn. rewrite !not_elem_of_cons. repeat split; try done. apply not_elem_of_nil. }
  unfold bind at 1. unfold bind at 1.
  assert (Hdc : exists w1,
    (if decide (init_va_degree options = "dc"%string) then run_dc_pf ext else ret tt) w0
    = (Ret tt, w1) /\
    w_calls w1 = w_calls w0 ++
      (if decide (init_va_degree options = "dc"%string) then [call_run_dc_pf] else [])).
  { destruct (decide _); eexists; (split; [reflexivity|]); cbn; [done|].
    by rewrite app_nil_r. }
  destruct Hdc as (w1 & -> & Hc1).
  unfold bind at 1.
  destruct (ac_runpf_unsupported fuel ppopt (numba options) (recycle options) w1 Halg)
    as (w2 & l & Hc2 & Hl & [Hr|(-> & Hq & _)]); [|cbn in Hq; specialize (Hfuel Hq); lia].
  rewrite Hr. eexists w2, _. split; [done|].
  rewrite Hc2, Hc1, Hc0, <- app_assoc. split; [done|].
  rewrite !calls_of_app.
  destruct (decide _), Hl as [-> | ->]; by cbn.
Qed.

End TopLevel.
(** *** The indices of an enforcement *)

Section Errors.
Context {num : Type} {N : Number num} {Branch Matrix Vec : Type}.
Variable ext : Externals num Branch Matrix Vec.

Abbreviation world := (World num Branch Matrix).
Abbreviation makeYbus_t :=
  (num -> list (BusRow num) -> Branch -> Matrix * Matrix * Matrix).

Lemma well_placed_placed (w : world) (sel : list nat) :
  well_placed (w_ppci w) ->
  Forall (fun i => i < length (gen (w_ppci w))) sel ->
  placed (bus (w_ppci w)) (gen (w_ppci w)) sel.
Proof.
  intros Hwp Hsel i Hi. rewrite Forall_forall in Hsel.
  destruct (lookup_lt_is_Some_2 _ _ (Hsel i Hi)) as [g Hg].
  destruct (lookup_lt_is_Some_2 _ _ (Hwp i g Hg)) as [b Hb].
  by exists g, b.
Qed.

Lemma for_each_turn_on_total (sel : list nat) (w : world) :
  placed (bus (w_ppci w)) (gen (w_ppci w)) sel ->
  exists w', for_each sel turn_on w = (Ret tt, w').
Proof.
  revert w. induction sel as [|i sel IH]; intros w Hp; simpl; [by eexists|].
  destruct (Hp i ltac:(left)) as (g & b & Hg & Hb).
  assert (exists w1, turn_on i w = (Ret tt, w1)) as [w1 Hon].
  { unfold turn_on, bind, get_gen, get_bus, set_gen, set_bus, lift, index.
    rewrite Hg. simpl. rewrite Hb. by eexists. }
  rewrite (bind_Ret _ _ _ _ _ Hon).
  apply IH.
  apply turn_on_Ret in Hon as (g' & b' & Hg' & Hb' & Hgen1 & Hbus1 & _).
  eapply placed_ext; [| |intros j Hj; apply Hp; by right].
  - rewrite Hgen1, list_fmap_insert. symmetry. apply list_insert_id.
    by rewrite list_lookup_fmap, Hg'.
  - by rewrite Hbus1, length_insert.
Qed.

Lemma restore_limited_total (lv : LoopVars num) (w : world) :
  well_placed (w_ppci w) -> vars_fit (w_ppci w) lv ->
  exists w', restore_limited lv w = (Ret tt, w').
Proof.
  intros Hwp [Hlen Hlim]. unfold restore_limited.
  destruct (0 <? length (limited lv)); [|by eexists].
  unfold bind at 1, get_gen. unfold bind at 1, lift.
  destruct (rows_total (fixedQg lv) (limited lv)) as [fqs ->]; [by rewrite Hlen|].
  unfold bind at 1.
  destruct (assign_total set_QG (limited lv) fqs (gen (w_ppci w)) Hlim)
    as [gen1 Hgen1].
  rewrite Hgen1. unfold bind, set_gen.
  match goal with |- context [for_each (limited lv) turn_on ?w1] =>
    destruct (for_each_turn_on_total (limited lv) w1) as [w2 Hw2] end.
  { simpl. eapply placed_ext; [| |exact (well_placed_placed w _ Hwp Hlim)]; [|done].
    symmetry. exact (assign_frame set_QG GEN_BUS _ _ _ _ (fun _ _ => eq_refl) Hgen1). }
  rewrite Hw2. by eexists.
Qed.

Lemma step_keeps_fit (rc : Recycle) (mk : makeYbus_t) (ppopt : Ppopt num)
    (lv : LoopVars num) (w w1 : world) (s : bool) :
  pfsoln_keeps_shape ext ->
  _run_ac_pf_without_qlims_enforced ext rc mk ppopt w = (Ret s, w1) ->
  well_placed (w_ppci w) -> vars_fit (w_ppci w) lv ->
  well_placed (w_ppci w1) /\ vars_fit (w_ppci w1) lv.
Proof.
  intros Hkeep Hstep Hwp [Hlen Hlim].
  apply run_ac_pf_without_qlims_enforced_Ret in Hstep
    as (base & Y1 & Y2 & Y3 & V & ref0 & Hbus & Hgen & _).
  destruct (Hkeep base (bus (w_ppci w)) (gen (w_ppci w)) (branch (w_ppci w))
              Y1 Y2 Y3 V ref0) as (Hlb & Hgb).
  rewrite <- Hbus in Hlb. rewrite <- Hgen in Hgb.
  assert (Hlg : length (gen (w_ppci w1)) = length (gen (w_ppci w))).
  { apply (f_equal length) in Hgb. by rewrite !length_map in Hgb. }
  split; [|split; by rewrite Hlg].
  intros i g Hg. rewrite Hlb.
  assert (Hi : map GEN_BUS (gen (w_ppci w)) !! i = Some (GEN_BUS g)).
  { by rewrite <- Hgb, list_lookup_fmap, Hg. }
  rewrite list_lookup_fmap in Hi.
  destruct (gen (w_ppci w) !! i) as [g0|] eqn:Hg0; [|done].
  injection Hi as <-. by eapply Hwp.
Qed.

Lemma convert_keeps_fit (lv lv' : LoopVars num) (mx mn : list nat) (w w' : world) :
  convert_to_PQ ext lv mx mn w = (Ret lv', w') ->
  Forall (fun i => i < length (gen (w_ppci w))) (mx ++ mn) ->
  well_placed (w_ppci w) -> vars_fit (w_ppci w) lv ->
  well_placed (w_ppci w') /\ vars_fit (w_ppci w') lv'.
Proof.
  intros Hconv Hsel Hwp [Hlen Hlim].
  apply convert_to_PQ_Ret in Hconv
    as (_ & Hlimited & Hfq & _ & _ & _ & Hout & Hin & Hbus & _).
  assert (Hlg : length (gen (w_ppci w')) = length (gen (w_ppci w))).
  { apply same_domain_length. intros j.
    destruct (decide (j ∈ mx ++ mn)) as [Hj|Hj].
    - destruct (Hin j Hj) as (h0 & q0 & -> & _ & -> & _). by split.
    - by rewrite (Hout j Hj). }
  assert (Hlb : length (bus (w_ppci w')) = length (bus (w_ppci w))).
  { apply same_domain_length. intros j. specialize (Hbus j).
    destruct (bus (w_ppci w') !! j), (bus (w_ppci w) !! j); try done; by split. }
  split; [|split].
  - intros j g' Hg'. rewrite Hlb.
    destruct (decide (j ∈ mx ++ mn)) as [Hj|Hj].
    + destruct (Hin j Hj) as (g & q & _ & _ & Hg & Hlt).
      rewrite Hg' in Hg. by injection Hg as ->.
    + rewrite (Hout j Hj) in Hg'. by eapply Hwp.
  - by rewrite Hfq, Hlg.
  - rewrite Hlimited, Hlg. by apply Forall_app.
Qed.

Lemma qlims_loop_pass (fuel : nat) (rc : Recycle) (mk : makeYbus_t)
    (ppopt : Ppopt num) (qlim : Z) (lv : LoopVars num) (w w1 : world) (s : bool) :
  _run_ac_pf_without_qlims_enforced ext rc mk ppopt w = (Ret s, w1) ->
  qlim <> 2%Z ->
  qlims_loop ext (S fuel) rc mk ppopt qlim lv w =
  let mx := (violations (gen (w_ppci w1))).1 in
  let mn := (violations (gen (w_ppci w1))).2 in
  if (0 <? length mx) || (0 <? length mn) then
    if length (pv lv) =? 0 then (Ret (false, lv), w1)
    else (let* lv := convert_to_PQ ext lv mx mn in
          qlims_loop ext fuel rc mk ppopt qlim lv) w1
  else (Ret (s, lv), w1).
Proof.
  intros Hstep Hq%Z.eqb_neq. rewrite qlims_loop_S, (bind_Ret _ _ _ _ _ Hstep).
  unfold bind at 1, get_gen at 1. rewrite Hq.
  destruct (violations (gen (w_ppci w1))) as [mx mn]. cbn [fst snd].
  by destruct ((0 <? length mx) || (0 <? length mn)), (length (pv lv) =? 0).
Qed.

Lemma step_cases (rc : Recycle) (mk : makeYbus_t) (ppopt : Ppopt num) (w : world) :
  (exists s w1, _run_ac_pf_without_qlims_enforced ext rc mk ppopt w = (Ret s, w1)) \/
  (exists w1, _run_ac_pf_without_qlims_enforced ext rc mk ppopt w
              = (Raise ValueError_algorithm, w1)).
Proof.
  rewrite run_ac_pf_result. cbv zeta.
  destruct (kernel_result ext rc mk ppopt (w_ppci w)) as [[V s]|].
  - left. by eexists _, _.
  - right. by eexists.
Qed.

Lemma qlims_loop_in_range (fuel : nat) (rc : Recycle) (mk : makeYbus_t)
    (ppopt : Ppopt num) (qlim : Z) (lv : LoopVars num) (w : world) :
  pfsoln_keeps_shape ext ->
  qlim <> 2%Z ->
  well_placed (w_ppci w) -> vars_fit (w_ppci w) lv ->
  match qlims_loop ext fuel rc mk ppopt qlim lv w with
  | (Ret (s, lv'), w') => well_placed (w_ppci w') /\ vars_fit (w_ppci w') lv'
  | (Raise e, _) => e <> IndexError
  | (OutOfFuel, _) => True
  end.
Proof.
  intros Hkeep Hq. revert lv w.
  induction fuel as [|fuel IH]; intros lv w Hwp Hfit; [done|].
  destruct (step_cases rc mk ppopt w) as [(s & w1 & Hstep)|(w1 & Hstep)].
  2:{ rewrite qlims_loop_S. unfold bind at 1. by rewrite Hstep. }
  rewrite (qlims_loop_pass _ _ _ _ _ _ _ _ _ Hstep Hq). cbv zeta.
  destruct (step_keeps_fit _ _ _ lv _ _ _ Hkeep Hstep Hwp Hfit) as [Hwp1 Hfit1].
  pose proof (violations_in_service (gen (w_ppci w1))) as Hviol.
  destruct (violations (gen (w_ppci w1))) as [mx mn]. cbn [fst snd] in *.
  destruct ((0 <? length mx) || (0 <? length mn)); [|done].
  destruct (length (pv lv) =? 0); [done|].
  assert (Hsel : Forall (fun i => i < length (gen (w_ppci w1))) (mx ++ mn)).
  { apply Forall_forall. intros i Hi. destruct (Hviol i Hi) as (g & Hg & _).
    eapply lookup_lt_Some, Hg. }
  pose proof (well_placed_placed w1 _ Hwp1 Hsel) as Hplaced.
  assert (Hfq : Forall (fun i => i < length (fixedQg lv)) (mx ++ mn)).
  { destruct Hfit1 as [-> _]. exact Hsel. }
  pose proof (convert_to_PQ_in_range ext lv mx mn w1 Hfq Hplaced) as Hnoidx.
  destruct (convert_to_PQ_cases ext lv mx mn w1)
    as [?|(fq & w2 & _ & _ & [(Hr & _)|(_ & lv2 & w3 & Hr & _)])]; [done| |].
  - unfold bind at 1. by rewrite Hr.
  - rewrite (bind_Ret _ _ _ _ _ Hr).
    destruct (convert_keeps_fit _ _ _ _ _ _ Hr Hsel Hwp1 Hfit1) as [Hwp3 Hfit3].
    by apply IH.
Qed.

(** With the all-at-once policy, every generator at a row of [bus] and a
    [pfsoln] that keeps the number of buses and the column [GEN_BUS], no
    index of the enforcement is out of range: however many passes it makes,
    the search for violations, the conversions and the restoration raise no
    [IndexError]. *)
Theorem enforcement_in_range (fuel : nat) (rc : Recycle) (mk : makeYbus_t)
    (ppopt : Ppopt num) (w : world) :
  pfsoln_keeps_shape ext ->
  ENFORCE_Q_LIMS ppopt <> 2%Z ->
  well_placed (w_ppci w) ->
  (_run_ac_pf_with_qlims_enforced ext fuel rc mk ppopt w).1 <> Raise IndexError.
Proof.
  intros Hkeep Hq Hwp.
  rewrite run_ac_pf_with_qlims_enforced_unfold.
  assert (Hfit : vars_fit (w_ppci w) (initial_vars ext w)).
  { split; cbn; [by rewrite length_replicate | constructor]. }
  pose proof (qlims_loop_in_range fuel rc mk ppopt (ENFORCE_Q_LIMS ppopt)
                (initial_vars ext w) w Hkeep Hq Hwp Hfit) as Hloop.
  unfold bind at 1.
  destruct (qlims_loop ext fuel rc mk ppopt _ _ w) as [[[s lv']|e|] w'];
    [|cbn; congruence|done].
  destruct Hloop as [Hwp' Hfit'].
  destruct (restore_limited_total lv' w' Hwp' Hfit') as [w2 Hrest].
  by rewrite (bind_Ret _ _ _ _ _ Hrest).
Qed.

End Errors.

(** ** The further facts on the small networks *)

(** The two over-limit generators of [worldC]: generator 1, 20 over, is
    selected before generator 2, 10 over. *)
Lemma fix_largest_selects_worst_witness :
  fix_largest genC_solved [1; 2] [] worldC = (Ret ([1], []), worldC) /\
  exists k, k <> 2 /\ [1; 2] !! k = Some 1.
Proof.
  assert (Hrun : fix_largest genC_solved [1; 2] [] worldC = (Ret ([1], []), worldC))
    by reflexivity.
  split; [exact Hrun|].
  destruct (fix_largest_selects_worst genC_solved [1; 2] [] ([1], []) worldC worldC Hrun)
    as (_ & gmx & gmn & k & i & m & _ & _ & Hk & Hi & _ & _ & Hsel).
  exists k. split; [exact Hk|].
  destruct (k <? length [1; 2]); injection Hsel as <-; [exact Hi|].
  discriminate.
Defined.

(** Scenario A solved within the limits: the enforcement is the one
    step. *)
Lemma enforcement_first_pass_exit_witness :
  _run_ac_pf_with_qlims_enforced (toy_ext 30%Z true) 1 (mkRecycle false)
    (makeYbus_pypower (toy_ext 30%Z true)) (toy_ppopt 1 4) worldA
  = (Ret true, worldA_calm).
Proof.
  assert (Hstep : _run_ac_pf_without_qlims_enforced (toy_ext 30%Z true)
                    (mkRecycle false) (makeYbus_pypower (toy_ext 30%Z true))
                    (toy_ppopt 1 4) worldA = (Ret true, worldA_calm)).
  { vm_compute. reflexivity. }
  apply (proj1 (enforcement_first_pass_exit (toy_ext 30%Z true) 0 (mkRecycle false)
                  (makeYbus_pypower (toy_ext 30%Z true)) (toy_ppopt 1 4)
                  worldA worldA_calm true Hstep)).
  vm_compute. reflexivity.
Defined.

(** Scenario A with generator 1 limited: it is back in service at its
    limit 50 and generator 0 is within its limits. *)
Lemma enforcement_success_state_witness :
  exists lv : LoopVars Z,
    limited lv = [1] /\
    (forall i g, i ∉ limited lv -> gen (w_ppci worldA_final) !! i = Some g ->
       (0 < GEN_STATUS g)%Z ->
       gtb (QG g) (QMAX g) = false /\ ltb (QG g) (QMIN g) = false).
Proof.
  assert (Hrun : _run_ac_pf_with_qlims_enforced (toy_ext 70%Z true) 3
                   (mkRecycle false) (makeYbus_pypower (toy_ext 70%Z true))
                   (toy_ppopt 1 4) worldA = (Ret true, worldA_final)).
  { vm_compute. reflexivity. }
  destruct (enforcement_success_state (toy_ext 70%Z true) 3 (mkRecycle false)
              (makeYbus_pypower (toy_ext 70%Z true)) (toy_ppopt 1 4)
              worldA worldA_final Hrun) as (lv & w1 & Hloop & Hfree & _).
  exists lv. split; [|exact Hfree].
  vm_compute in Hloop. by injection Hloop as <- _.
Defined.

(** Scenario A solved at [QG = -70] with the fix-worst-one policy. *)
Lemma enforcement_index_error_witness :
  qlims_loop (toy_ext (-70)%Z true) 1 (mkRecycle false)
    (makeYbus_pypower (toy_ext (-70)%Z true)) (toy_ppopt 2 4) 2 lvA worldA
  = (Raise IndexError, worldA_under).
Proof.
  assert (Hstep : _run_ac_pf_without_qlims_enforced (toy_ext (-70)%Z true)
                    (mkRecycle false) (makeYbus_pypower (toy_ext (-70)%Z true))
                    (toy_ppopt 2 4) worldA = (Ret true, worldA_under)).
  { vm_compute. reflexivity. }
  refine (proj1 (enforcement_index_error (toy_ext (-70)%Z true) 0 (mkRecycle false)
                   (makeYbus_pypower (toy_ext (-70)%Z true)) (toy_ppopt 2 4)
                   lvA worldA worldA_under true []
                   [mkGen 1 40 (-70) 50 (-50) 1 1]%Z Hstep _ _ _ _)).
  - discriminate.
  - reflexivity.
  - reflexivity.
  - reflexivity.
Defined.

(** Scenario A has two generators in service: three passes are enough,
    and five give the same. *)
Lemma enforcement_terminates_witness :
  (_run_ac_pf_with_qlims_enforced (toy_ext 70%Z true) 3 (mkRecycle false)
     (makeYbus_pypower (toy_ext 70%Z true)) (toy_ppopt 1 4) worldA).1 <> OutOfFuel /\
  _run_ac_pf_with_qlims_enforced (toy_ext 70%Z true) 5 (mkRecycle false)
    (makeYbus_pypower (toy_ext 70%Z true)) (toy_ppopt 1 4) worldA =
  _run_ac_pf_with_qlims_enforced (toy_ext 70%Z true) 3 (mkRecycle false)
    (makeYbus_pypower (toy_ext 70%Z true)) (toy_ppopt 1 4) worldA.
Proof.
  apply (enforcement_terminates (toy_ext 70%Z true) 3 5 (mkRecycle false)
           (makeYbus_pypower (toy_ext 70%Z true)) (toy_ppopt 1 4) worldA
           (keeps_injections_off _ (toy_ext_keeps_injections 70%Z true))).
  - vm_compute. lia.
  - lia.
Defined.

(** Gauss-Seidel on scenario A. *)
Lemma run_ac_pf_returned_witness :
  PF_ALG (toy_ppopt 1 4) ∈ [2; 3; 4]%Z /\
  w_calls worldA_step = [call_makeYbus; call_gausspf; call_pfsoln].
Proof.
  assert (Hrun : _run_ac_pf_without_qlims_enforced (toy_ext 70%Z false)
                   (mkRecycle false) (makeYbus_pypower (toy_ext 70%Z false))
                   (toy_ppopt 1 4) worldA = (Ret false, worldA_step)).
  { vm_compute. reflexivity. }
  destruct (run_ac_pf_returned (toy_ext 70%Z false) (mkRecycle false)
              (makeYbus_pypower (toy_ext 70%Z false)) (toy_ppopt 1 4)
              worldA worldA_step false Hrun)
    as (Halg & _ & _ & _ & _ & Hcalls & _).
  split; [exact Halg | exact Hcalls].
Defined.

(** Algorithm 1 on scenario A. *)
Lemma run_ac_pf_unsupported_witness :
  exists w',
    _run_ac_pf_without_qlims_enforced (toy_ext 70%Z true) (mkRecycle false)
      (makeYbus_pypower (toy_ext 70%Z true)) (toy_ppopt 1 1) worldA
    = (Raise ValueError_algorithm, w') /\
    w_calls w' = [call_makeYbus].
Proof.
  assert (Halg : PF_ALG (toy_ppopt 1 1) ∉ [2; 3; 4]%Z).
  { cbn. rewrite !not_elem_of_cons. repeat split; try done. apply not_elem_of_nil. }
  destruct (run_ac_pf_unsupported (toy_ext 70%Z true) (mkRecycle false)
              (makeYbus_pypower (toy_ext 70%Z true)) (toy_ppopt 1 1) worldA Halg)
    as (w' & Hrun & _ & _ & _ & _ & _ & _ & Hcalls).
  exists w'. split; [exact Hrun | exact Hcalls].
Defined.

(** The two passes of scenario A. *)
Lemma enforcement_calls_witness :
  exists l,
    w_calls worldA_final = w_calls worldA ++ l /\
    calls_of call_fdpf l + calls_of call_gausspf l = calls_of call_pfsoln l /\
    calls_of call_makeYbus l = calls_of call_pfsoln l.
Proof.
  assert (Hrun : _run_ac_pf_with_qlims_enforced (toy_ext 70%Z true) 3
                   (mkRecycle false) (makeYbus_pypower (toy_ext 70%Z true))
                   (toy_ppopt 1 4) worldA = (Ret true, worldA_final)).
  { vm_compute. reflexivity. }
  destruct (enforcement_calls (toy_ext 70%Z true) 3 (mkRecycle false)
              (makeYbus_pypower (toy_ext 70%Z true)) (toy_ppopt 1 4)
              worldA worldA_final true Hrun)
    as (l & Hl & _ & Hk & Hmk & _).
  exists l. split; [exact Hl|]. split; [exact Hk | exact (Hmk eq_refl)].
Defined.

(** An algorithm name that is not in the table. *)
Lemma runpf_unknown_algorithm_witness :
  exists w',
    _runpf_pypower (toy_ext 70%Z true) 3 optionsBad worldA = (Raise KeyError, w') /\
    w_ppci w' = w_ppci worldA /\ w_calls w' = w_calls worldA /\
    w_clock w' = tail (w_clock worldA).
Proof.
  apply (runpf_unknown_algorithm (toy_ext 70%Z true) 3 optionsBad worldA).
  unfold algorithm_names. rewrite !not_elem_of_cons. repeat split; try done.
  apply not_elem_of_nil.
Defined.

(** The AC run of scenario A with Gauss-Seidel returns and has stored
    the case the enforcement left. *)
Lemma runpf_returns_stored_witness :
  w_calls worldA_stored = w_calls worldA_final ++ [call_store_results] /\
  gen (w_ppci worldA_stored) = gen (w_ppci worldA_final).
Proof.
  assert (Hrun : _runpf_pypower (toy_ext 70%Z true) 3 optionsAC worldA
                 = (Ret true, worldA_stored)).
  { vm_compute. reflexivity. }
  destruct (runpf_returns_stored (toy_ext 70%Z true) 3 optionsAC worldA
              worldA_stored true Hrun)
    as (_ & _ & (t0 & w0 & ppopt & w1 & w2 & t1 & w3 & Ht0 & Hopt & Hdc & Hac
                 & _ & Hp & Hc & _) & _).
  vm_compute in Ht0. injection Ht0 as <- <-.
  vm_compute in Hopt. injection Hopt as <-.
  vm_compute in Hdc. injection Hdc as <-.
  vm_compute in Hac. injection Hac as <-.
  split; [exact Hc|]. rewrite Hp. reflexivity.
Defined.

(** The AC run of scenario A with the name nr and a DC start. *)
Lemma runpf_ac_newton_rejected_witness :
  exists w' l,
    _runpf_pypower (toy_ext 70%Z true) 3 optionsNR worldA
    = (Raise ValueError_algorithm, w') /\
    w_calls w' = w_calls worldA ++ l /\ calls_of call_run_dc_pf l = 1.
Proof.
  destruct (runpf_ac_newton_rejected (toy_ext 70%Z true) 3 optionsNR worldA
              eq_refl eq_refl (fun _ => ltac:(lia)))
    as (w' & l & Hrun & Hl & _ & _ & _ & _ & Hdc).
  exists w', l. split; [exact Hrun|]. split; [exact Hl | exact Hdc].
Defined.

(** Scenario A with the all-at-once policy. *)
Lemma enforcement_in_range_witness :
  (_run_ac_pf_with_qlims_enforced (toy_ext 70%Z true) 3 (mkRecycle false)
     (makeYbus_pypower (toy_ext 70%Z true)) (toy_ppopt 1 4) worldA).1
  <> Raise IndexError.
Proof.
  apply (enforcement_in_range (toy_ext 70%Z true) 3 (mkRecycle false)
           (makeYbus_pypower (toy_ext 70%Z true)) (toy_ppopt 1 4) worldA
           (keeps_injections_shape _ (toy_ext_keeps_injections 70%Z true))).
  - discriminate.
  - intros [|[|i]] g Hg; cbn in Hg; [injection Hg as <-; cbn; lia..|done].
Defined.
